(* ===== verification/_CoqProject ===== *)
-Q . S2P
Prelude.v
ArrayOps.v
Json.v
Browser.v
NotificationService.v
TodoComponent.v
Samples.v
TodoFacts.v
TodoSpec.v
TodoPage.v
PageIndependence.v
PageService.v
Lifecycle.v
