(* ===== verification/Prelude.v ===== *)
(** * A verification development for the Angular todo application
      (src/src/app/todo/todo.component.ts, src/src/app/notification.service.ts)

    ** The program
    The application is one Angular component, [TodoComponent], and one
    injectable service, [NotificationService].  The component keeps two
    arrays of task objects, [tasks] (pending) and [done].  Every handler
    that changes them ([addTask], [editTask], [deleteTask], [drop]) then
    writes both arrays to [localStorage] as JSON ([updateLocalStorage]).
    [ngOnInit] builds the form, reads the two arrays back with
    [JSON.parse], asks for the notification permission, checks once for
    pending tasks ([checkAndNotify]) and starts a repeating timer
    ([setInterval]) whose callback re-checks.
    [updateNotificationInterval] coerces the number typed by the user and
    calls [restartNotificationInterval], which clears the old timer and
    starts a new one.  Drag and drop goes through two helpers of the
    Angular CDK, [moveItemInArray] and [transferArrayItem].
    Notifications go through [NotificationService], which shows one only
    when the browser has the API and the permission is granted.

    ** The library, in dependency order
    - [Prelude] (this file): the [todo_scope] notations; JavaScript
      strings as lists of UTF-16 code units ([jsstr]); the
      state-and-exception monad [st] with [let*]; the list helper
      [insert_at]; the [todo] hint databases; the tactics
      [lookup_cases], [zdiv_lia] and [decide_true].
    - [ArrayOps]: [Array.prototype.splice], [push] and [indexOf] (by
      reference), and the CDK's [moveItemInArray] (its shifting loop
      [move_loop], with fuel [|to - from| + 1], exactly the number of
      steps the loop makes) and [transferArrayItem].  They are proved
      equal to the reference [list_move] and to delete-then-[insert_at]
      ([moveItemInArray_spec], [transferArrayItem_spec]).
    - [Json]: JSON values, [JSON.stringify] (QuoteJSONString, with the
      ES2019 escapes of lone surrogates) and [JSON.parse] (the ECMA-404
      grammar).  The parser's fuel is [S (length s)]; [json_size_le]
      shows this is enough for any text that [stringify] produced, and
      [parse_fuel] that it is enough for every text: a parse that
      succeeds with some fuel succeeds with the same result given more
      fuel than the code units it reads ([json_parse_complete]).
      [json_parse_stringify] is the round trip; [json_parse_wf] shows
      that a parse of code units yields code units, and [stringify_wf]
      that [stringify] writes code units.
    - [Browser]: one record for [localStorage] (a gmap with a quota
      counted in code units; [setItem] throws QuotaExceededError past
      it), the timer table (the timeout goes through WebIDL's int32
      conversion, [to_int32]), the Notification API's permission and
      pending requests, the notifications shown, and the console.
    - [NotificationService]: the two methods of the service (Module
      [NotificationService]).  The class [NotificationPort] states what
      the component relies on, and [NotificationService_port] is the
      service's instance of it.
    - [TodoComponent]: the component's fields as the Record [todo].
      Task objects live in a heap ([loc] to [ITask.t]) and the arrays
      hold references, so [editTask] mutates in place and [deleteTask]
      finds a task by identity, as in JavaScript.  Each method is one
      Definition in [M] = [st page js_error], with its guards, its
      calls and the exceptions it raises.  The methods are written in a
      Section over the [NotificationPort].
    - [Samples]: concrete browsers and components for the witnesses.
    - [TodoFacts]: [wf_todo], the component's invariant: every
      reference is allocated, no task is twice in the arrays, [next_loc]
      is fresh, and descriptions are code units.  One lemma per method
      gives its effect on every branch, failed storage writes included.
      The theorems: reload restores what was written
      ([ngOnInit_restores]); what is written reads back
      ([updateLocalStorage_roundtrip]); the partial write
      ([updateLocalStorage_partial]); and [parse_stored_fuel]: the
      SyntaxError of [ngOnInit] is raised exactly on the texts that no
      amount of fuel parses, so the fuel is never what fails.
    - [TodoSpec]: [TaskStore], the spec's abstract store of two ordered
      lists of records, and [abs], which reads the arrays through the
      heap.  Every handler preserves [wf_todo] and refines its
      [TaskStore] operation ([addTask_refines], [editTask_refines],
      [deleteTask_refines], [drop_refines]).  Also: [deleteTask_absent]
      (identity, not structural equality) and the reference-level
      effect of [drop] ([drop_reorders], [drop_transfers]).
    - [TodoPage]: the page as a state machine.  [event] lists what the
      user and the browser can do after [ngOnInit]; [handle] runs the
      method an event triggers; [reachable] holds every page reached
      from [ngOnInit], in a browser with no timer, by any sequence of
      events, and [page_step] is one event.  [reachable_inv] shows by
      rule induction that [page_inv] holds on every reachable page:
      [wf_todo], a well-formed form value, every live timer is the one
      [notificationIntervalId] names and runs at its period, every
      stored text is a sequence of code units, and the period is at
      least one minute.  Its corollaries: each task is in exactly one
      list ([reachable_one_list]), at most one timer is live
      ([reachable_one_timer]), Update replaces the timer
      ([update_interval_replaces_timer]) and [reachable_period_bounds]
      (the live timer's delay).  Every handler's storage writes are
      [updateLocalStorage]'s ([handle_keeps_storage], a Section over
      any property of the storage map its two snapshots keep).  So the
      typing theorem [reachable_storage_typed]: once the two entries
      have the type [ITask[]] ([storage_typed], read through
      [stored_view] as lines 29-37 read them) they keep it, and a
      reload completes.  And [saved_lists_reload]: after a load and
      any events whose handlers complete, storage is in step with the
      page ([in_sync], [handle_in_sync]) and a reload shows the same
      two lists.  Two refinements of the spec's components hold
      for every reachable page and every event.  [page_refines]: the
      lists change as the event's [TaskStore] operation
      ([task_effect]).  [scheduler_refines]: the page moves the
      two-state [Scheduler] of the spec as its [step] says, and
      [reachable_scheduler] shows that the abstraction [sched_view]
      matches the live timers exactly.  Two liveness theorems over
      [page_step] and its closure [rtc]: from every reachable page the
      user can still complete every task, in order
      ([reachable_all_done], by dropping the first pending task
      [length tasks] times), and while the timer is live and a task
      pending the reminder comes back any number of times
      ([reminder_recurs]).  [form_valid] is [todoForm.valid] under
      [Validators.required]; Add appends a task also on an invalid form
      ([invalid_form_adds]).  [handle_heap_cases] lists the only two ways
      an event writes a task object, so no event sets a [done] or
      [editing] flag ([flags_never_set]).  The file also states the
      theorems on messages, intervals and start-up.
    - [PageIndependence]: [page_equiv] identifies pages that agree on
      the component, storage and timers; [handle_respects] shows that
      every handler maps equivalent pages to equivalent pages, so the
      answer to the permission request commutes with every event
      ([permission_commutes]).
    - [PageService]: the page with the repository's service as the
      port.  A denied permission disables every notification
      ([denied_is_silent]).  Once the user grants the permission, the
      next tick displays the reminder ([grant_then_remind]).
    - [Lifecycle]: Angular creating and destroying instances of the
      component.  [app] holds every instance created, the one on view,
      and for each interval the instance whose [this] its callback
      closes over ([claim_timers], lines 46-48 and 145-147); [run_on]
      runs a page computation on one instance; [app_handle] is a
      lifecycle, template, tick or permission event.  [app_inv] holds on
      every state ([app_reachable_inv]).  Each instance
      owns at most one live interval, so at most one interval runs per
      instance created ([live_timers_bound]).  Without [ngOnDestroy],
      a destroyed instance's interval is never cleared
      ([zombie_timer_persists]), and its ticks read the destroyed
      instance's stale arrays ([tick_uses_owner_arrays]).  The
      witnesses show two live intervals after one revisit, and the
      reminder shown while the list on view has no pending task.

    ** Bounds
    Integers are [Z] where JavaScript has numbers.  The timer's delay is
    wrapped to int32 as WebIDL does: the period [n] minutes is exact
    for [n <= 35791] ([timer_delay_minutes]), and for
    [35792 <= n <= 71582] it becomes a delay of 0
    ([update_interval_overflow]).  Indices of the CDK helpers are
    clamped as in the CDK.  Storage quotas are natural numbers of code
    units.  Fuel: [JSON.parse] gets [S (length s)], one more than the
    code units it can read, and [parse_fuel] shows that any fuel above
    the number read gives the same result ([fuel_stable], proved for
    the three mutually recursive functions one step of fuel at a time);
    [moveItemInArray]'s loop gets exactly the number of its iterations.

    ** Not modelled

    Every line of the two files under src/ is translated except the
    imports and the [@Component] and [@Injectable] decorators.  What is
    left is either not in the repository or framework code that runs
    none of the component's code:
    - The template's rendering (todo.component.html is not in the
      repository): the events it binds are modelled in [TodoPage], and
      whether the Add button is disabled on an invalid form is not
      known.
    - Angular's bootstrapping, modules and change detection: they run
      none of the component's code.  Creation and destruction are
      modelled in [Lifecycle].
    - Real time: a tick is an event, so liveness is stated as the
      existence of a sequence of events, not as a deadline.
    - A stored text that is valid JSON but not an array of task
      records.  The code assigns it unchecked; the model stops with
      [IllTypedStorage].
    - Numbers in stored JSON are kept as lexemes: task records contain
      none.
    - Floating point: the interval input is a rational and periods are
      integers, so the rounding of doubles is not modelled.
*)

From Stdlib Require Import ZArith Lia.
From stdpp Require Import base list gmap strings.

Declare Scope todo_scope.
Delimit Scope todo_scope with todo.
Open Scope todo_scope.

Create HintDb todo.
Create Rewrite HintDb todo_rw.

(** ** JavaScript strings

    A JavaScript string is a sequence of UTF-16 code units; we keep it as
    a list of integers, each in [0, 65536).  Literals of the source (all
    ASCII) are converted from Rocq strings by [js]. *)

Abbreviation jsstr := (list Z).

Definition js (s : string) : jsstr :=
  map (fun a => Z.of_N (Ascii.N_of_ascii a)) (String.list_ascii_of_string s).

Arguments js s%_string.

Definition code_unit (c : Z) : Prop := (0 <= c < 65536)%Z.

Definition wf_jsstr (s : jsstr) : Prop := Forall code_unit s.

#[export] Instance code_unit_dec c : Decision (code_unit c).
Proof. unfold code_unit. apply _. Defined.
#[export] Instance wf_jsstr_dec s : Decision (wf_jsstr s).
Proof. unfold wf_jsstr. apply _. Defined.

(** ** Outcomes and the component monad

    A method of the component reads and writes the page's state and may
    throw; an exception keeps the writes made before it, as in
    JavaScript.  [st S E A] is that effect: a state transformer that
    returns a value or an exception together with the new state. *)

Inductive outcome (E A : Type) : Type :=
  | Ok (a : A)
  | Throw (e : E).
Arguments Ok {E A} a.
Arguments Throw {E A} e.

Definition st (S E A : Type) : Type := S -> outcome E A * S.

Definition st_ret {S E A} (a : A) : st S E A := fun s => (Ok a, s).

Definition st_bind {S E A B} (m : st S E A) (k : A -> st S E B) : st S E B :=
  fun s => match m s with
           | (Ok a, s') => k a s'
           | (Throw e, s') => (Throw e, s')
           end.

Definition st_get {S E} : st S E S := fun s => (Ok s, s).
Definition st_put {S E} (s : S) : st S E unit := fun _ => (Ok tt, s).
Definition st_modify {S E} (f : S -> S) : st S E unit := fun s => (Ok tt, f s).
Definition st_throw {S E A} (e : E) : st S E A := fun s => (Throw e, s).

Notation "'let*' x ':=' m 'in' k" := (st_bind m (fun x => k))
  (at level 10, x name, m at level 100, k at level 200) : todo_scope.

(** Running a computation to its final state. *)
Definition exec {S E A} (m : st S E A) (s : S) : S := snd (m s).

(** [insert_at i x l] puts [x] before position [i]; with stdpp's list
    [delete] it is the reference semantics of the array helpers. *)
Definition insert_at {A} (i : nat) (x : A) (l : list A) : list A :=
  take i l ++ x :: drop i l.

Lemma st_bind_ok {S E A B} (m : st S E A) (k : A -> st S E B) s a s' :
  m s = (Ok a, s') -> st_bind m k s = k a s'.
Proof. intros H. unfold st_bind. by rewrite H. Qed.

Lemma st_bind_throw {S E A B} (m : st S E A) (k : A -> st S E B) s e s' :
  m s = (Throw e, s') -> st_bind m k s = (Throw e, s').
Proof. intros H. unfold st_bind. by rewrite H. Qed.

#[export] Hint Rewrite @st_bind_ok @st_bind_throw : todo_rw.

(** ** List lemmas *)


Lemma length_insert_at {A} i (x : A) l :
  length (insert_at i x l) = S (length l).
Proof.
  unfold insert_at. rewrite length_app; simpl. rewrite length_take, length_drop. lia.
Qed.

Lemma insert_at_perm {A} i (x : A) l : insert_at i x l ≡ₚ x :: l.
Proof.
  unfold insert_at. rewrite <-Permutation_middle. by rewrite take_drop.
Qed.

Lemma lookup_insert_at_eq {A} i (x : A) l :
  i <= length l -> insert_at i x l !! i = Some x.
Proof.
  intros Hi. unfold insert_at.
  rewrite lookup_app_r; rewrite length_take; [|lia].
  by replace (i - i `min` length l) with 0 by lia.
Qed.

Lemma delete_perm {A} i (x : A) l :
  l !! i = Some x -> l ≡ₚ x :: delete i l.
Proof.
  intros Hi. rewrite delete_take_drop.
  rewrite <-(take_drop_middle l i x Hi) at 1. by rewrite <-Permutation_middle.
Qed.

Lemma length_delete_lt {A} i (l : list A) :
  i < length l -> length (delete i l) = length l - 1.
Proof. intros Hi. rewrite length_delete; [done|]. by apply lookup_lt_is_Some_2. Qed.

#[export] Hint Resolve insert_at_perm delete_perm : todo.
#[export] Hint Rewrite @length_insert_at : todo_rw.

Lemma lookup_insert_at {A} i (x : A) l j :
  i <= length l ->
  insert_at i x l !! j =
    if decide (j < i) then l !! j
    else if decide (j = i) then Some x else l !! (j - 1).
Proof.
  intros Hi. unfold insert_at.
  assert (length (take i l) = i) as Ht by (rewrite length_take; lia).
  case_decide.
  - rewrite lookup_app_l by lia. by rewrite lookup_take_lt.
  - rewrite lookup_app_r by lia. rewrite Ht.
    case_decide; [subst; by replace (i - i) with 0 by lia|].
    replace (j - i) with (S (j - 1 - i)) by lia. simpl.
    rewrite lookup_drop. f_equal. lia.
Qed.

(** Case analysis on the index of a lookup in a list built by [insert],
    [insert_at] and [delete]: rewrite the lookups, split every decision,
    and close each case by arithmetic on indices. *)
Ltac lookup_cases :=
  repeat first
    [ rewrite list_lookup_insert
    | rewrite lookup_insert_at by lia
    | rewrite list_lookup_delete ];
  repeat case_decide; destruct_and?; try lia;
  try (f_equal; lia); try congruence; try (subst; congruence).

(** Linear arithmetic with division and remainder by constants. *)
Ltac zdiv_lia := Z.div_mod_to_equations; lia.

(** Sums of a list mapped through two functions compare pointwise. *)
Lemma list_sum_map_le {A} (f g : A -> nat) (l : list A) :
  Forall (fun x => f x <= g x) l -> list_sum (map f l) <= list_sum (map g l).
Proof. induction 1; simpl; lia. Qed.

(** A decidable proposition that holds on concrete data: decide it by
    evaluation. *)
Ltac decide_true := apply (bool_decide_unpack _); vm_compute; reflexivity.

(** A finite set listed by [l] has at most [length l] elements. *)
Lemma size_list_to_set_le `{Countable K} (l : list K) :
  size (list_to_set (C := gset K) l) <= length l.
Proof.
  induction l as [|x l IH]; cbn [list_to_set length]; [by rewrite size_empty|].
  rewrite size_union_alt, size_singleton.
  pose proof (subseteq_size (list_to_set (C := gset K) l ∖ {[x]}) (list_to_set l)
                ltac:(set_solver)). lia.
Qed.

Lemma length_omap_le {A B} (f : A -> option B) (l : list A) : length (omap f l) <= length l.
Proof. induction l as [|x l IH]; cbn; [lia|]. destruct (f x); cbn; fold (omap f l); lia. Qed.
