(* ===== verification/ArrayOps.v ===== *)
(** * Arrays: the ECMAScript primitives and the CDK drag-and-drop helpers

    The component changes its arrays through [push], [splice] and
    [indexOf] (src/src/app/todo/todo.component.ts) and through the two
    helpers it imports from [@angular/cdk/drag-drop], [moveItemInArray]
    and [transferArrayItem].  None of these is under src/: they are
    modelled here from the ECMAScript specification (Array.prototype
    .push, .splice, .indexOf) and from the CDK source (drag-utils.ts),
    the loop of [moveItemInArray] included, and proved equal to the
    remove-then-insert reference semantics.

    An array is a [list A]; JavaScript numbers used as indices are [Z]. *)

From Stdlib Require Import ZArith Lia.
From stdpp Require Import base list.
From S2P Require Import Prelude.

Section Arrays.
Context {A : Type}.
Implicit Types (l : list A) (x : A).

(** ** ECMAScript primitives *)

(** [Array.prototype.splice(start, deleteCount, ...items)] on an
    array of length [len]: a negative [start] counts from the end, both
    bounds are clamped, and the call returns the removed elements
    together with the updated array. *)
Definition js_splice (start deleteCount : Z) (items : list A) l
    : list A * list A :=
  let len := Z.of_nat (length l) in
  let actualStart :=
    if (start <? 0)%Z then Z.max (len + start) 0 else Z.min start len in
  let actualDeleteCount := Z.min (Z.max deleteCount 0) (len - actualStart) in
  let s := Z.to_nat actualStart in
  let d := Z.to_nat actualDeleteCount in
  (take d (drop s l), take s l ++ items ++ drop (s + d) l).

(** [array.push(x)]. *)
Definition js_push x l : list A := l ++ [x].

(** [array.indexOf(x)] with [===]: for objects, identity, which is
    the decidable equality of their references. *)
Fixpoint js_indexOf `{EqDecision A} x l : Z :=
  match l with
  | [] => (-1)%Z
  | y :: l' =>
      if decide (y = x) then 0%Z
      else let i := js_indexOf x l' in if (i <? 0)%Z then i else (i + 1)%Z
  end.

(** ** The CDK helpers (drag-utils.ts) *)

(** [clamp(value, max) = Math.max(0, Math.min(max, value))]. *)
Definition clamp (value max : Z) : Z := Z.max 0 (Z.min max value).

(** The body of the loop of [moveItemInArray]:
    [array[i] = array[i + delta]].  The read is always in range
    ([move_read_in_range] below); the [None] branch is dead. *)
Definition move_step (i delta : Z) l : list A :=
  match l !! Z.to_nat (i + delta) with
  | Some v => <[Z.to_nat i := v]> l
  | None => l
  end.

(** [for (let i = from; i !== to; i += delta) array[i] = array[i + delta];]
    with fuel; [move_fuel] below is always enough. *)
Fixpoint move_loop (fuel : nat) (i to delta : Z) l : list A :=
  match fuel with
  | O => l
  | S fuel' =>
      if (i =? to)%Z then l
      else move_loop fuel' (i + delta)%Z to delta (move_step i delta l)
  end.

Definition move_fuel (from to : Z) : nat := S (Z.abs_nat (to - from)).

(** [moveItemInArray(array, fromIndex, toIndex)]. *)
Definition moveItemInArray l (fromIndex toIndex : Z) : list A :=
  let from := clamp fromIndex (Z.of_nat (length l) - 1) in
  let to := clamp toIndex (Z.of_nat (length l) - 1) in
  if (from =? to)%Z then l
  else
    match l !! Z.to_nat from with
    | Some target =>
        let delta := if (to <? from)%Z then (-1)%Z else 1%Z in
        <[Z.to_nat to := target]> (move_loop (move_fuel from to) from to delta l)
    | None => l
    end.

(** [transferArrayItem(currentArray, targetArray, currentIndex,
    targetIndex)]: returns the two arrays after
    [targetArray.splice(to, 0, currentArray.splice(from, 1)[0])]. *)
Definition transferArrayItem (currentArray targetArray : list A)
    (currentIndex targetIndex : Z) : list A * list A :=
  let from := clamp currentIndex (Z.of_nat (length currentArray) - 1) in
  let to := clamp targetIndex (Z.of_nat (length targetArray)) in
  if negb (Nat.eqb (length currentArray) 0) then
    let '(removed, currentArray') := js_splice from 1 [] currentArray in
    match removed with
    | x :: _ => (currentArray', snd (js_splice to 0 [x] targetArray))
    | [] => (currentArray', targetArray)
    end
  else (currentArray, targetArray).

(** ** Reference semantics *)

(** Remove the element at [from], insert it at [to]. *)
Definition list_move (from to : nat) l : list A :=
  match l !! from with
  | Some x => insert_at to x (delete from l)
  | None => l
  end.

End Arrays.

Section ArrayLemmas.
Context {A : Type}.
Implicit Types (l : list A) (x : A).

Lemma length_move_step i delta l : length (move_step i delta l) = length l.
Proof. unfold move_step. destruct (_ !! _); [apply length_insert|done]. Qed.

Lemma length_move_loop fuel i to delta l :
  length (move_loop fuel i to delta l) = length l.
Proof.
  revert i l. induction fuel as [|fuel IH]; intros i l; simpl; [done|].
  destruct (i =? to)%Z; [done|]. by rewrite IH, length_move_step.
Qed.

(** The loop run upwards from [i] to [i + k]: each cell of the window
    receives its right neighbour. *)
Lemma move_loop_up k fuel (i : nat) l j :
  k < fuel -> i + k < length l ->
  move_loop fuel (Z.of_nat i) (Z.of_nat (i + k)) 1 l !! j =
    if decide (i <= j < i + k) then l !! S j else l !! j.
Proof.
  revert fuel i l j. induction k as [|k IH]; intros fuel i l j Hf Hk;
    destruct fuel as [|fuel]; try lia; simpl.
  - rewrite Nat.add_0_r, Z.eqb_refl. case_decide; [lia|done].
  - rewrite (proj2 (Z.eqb_neq _ _)) by lia.
    unfold move_step.
    replace (Z.to_nat (Z.of_nat i + 1)) with (S i) by lia.
    destruct (lookup_lt_is_Some_2 l (S i)) as [v Hv]; [lia|]. rewrite Hv.
    replace (Z.of_nat i + 1)%Z with (Z.of_nat (S i)) by lia.
    replace (i + S k) with (S i + k) by lia.
    rewrite IH by (rewrite ?length_insert; lia).
    rewrite Nat2Z.id. lookup_cases.
Qed.

(** The loop run downwards from [i] to [i - k]: each cell of the
    window receives its left neighbour. *)
Lemma move_loop_down k fuel (i : nat) l j :
  k < fuel -> k <= i -> i < length l ->
  move_loop fuel (Z.of_nat i) (Z.of_nat (i - k)) (-1) l !! j =
    if decide (i - k < j <= i) then l !! (j - 1) else l !! j.
Proof.
  revert fuel i l j. induction k as [|k IH]; intros fuel i l j Hf Hk Hi;
    destruct fuel as [|fuel]; try lia; simpl.
  - rewrite Nat.sub_0_r, Z.eqb_refl. case_decide; [lia|done].
  - rewrite (proj2 (Z.eqb_neq _ _)) by lia.
    unfold move_step.
    replace (Z.to_nat (Z.of_nat i + -1)) with (i - 1) by lia.
    destruct (lookup_lt_is_Some_2 l (i - 1)) as [v Hv]; [lia|]. rewrite Hv.
    replace (Z.of_nat i + -1)%Z with (Z.of_nat (i - 1)) by lia.
    replace (i - S k) with (i - 1 - k) by lia.
    rewrite IH by (rewrite ?length_insert; lia).
    rewrite Nat2Z.id. lookup_cases.
Qed.
End ArrayLemmas.

Section MoveSpec.
Context {A : Type}.
Implicit Types (l : list A) (x : A).

Lemma clamp_bounds v m : (0 <= m)%Z -> (0 <= clamp v m <= m)%Z.
Proof. unfold clamp. lia. Qed.

Lemma clamp_neg v m : (m < 0)%Z -> clamp v m = 0%Z.
Proof. unfold clamp. lia. Qed.

Lemma insert_at_delete i x l : l !! i = Some x -> insert_at i x (delete i l) = l.
Proof.
  intros Hi. pose proof (lookup_lt_Some _ _ _ Hi).
  apply list_eq. intros j.
  rewrite lookup_insert_at by (rewrite length_delete_lt; lia).
  lookup_cases.
Qed.

(** The read [array[from]] of [moveItemInArray] is in range whenever
    the array is not empty. *)
Lemma move_read_in_range l v :
  length l <> 0 ->
  is_Some (l !! Z.to_nat (clamp v (Z.of_nat (length l) - 1))).
Proof.
  intros Hl. apply lookup_lt_is_Some_2.
  pose proof (clamp_bounds v (Z.of_nat (length l) - 1)). lia.
Qed.
End MoveSpec.

Section MoveCases.
Context {A : Type}.
Implicit Types (l : list A) (x : A).

Lemma moveItemInArray_up l (f t : nat) x :
  f < t < length l -> l !! f = Some x ->
  <[t := x]> (move_loop (move_fuel (Z.of_nat f) (Z.of_nat t)) (Z.of_nat f)
                (Z.of_nat t) 1 l) = insert_at t x (delete f l).
Proof.
  intros Hft Hx. apply list_eq. intros j.
  rewrite list_lookup_insert, length_move_loop.
  replace (Z.of_nat t) with (Z.of_nat (f + (t - f))) by lia.
  rewrite move_loop_up by (unfold move_fuel; lia).
  rewrite lookup_insert_at by (rewrite length_delete_lt; lia).
  lookup_cases.
Qed.

Lemma moveItemInArray_down l (f t : nat) x :
  t < f < length l -> l !! f = Some x ->
  <[t := x]> (move_loop (move_fuel (Z.of_nat f) (Z.of_nat t)) (Z.of_nat f)
                (Z.of_nat t) (-1) l) = insert_at t x (delete f l).
Proof.
  intros Hft Hx. apply list_eq. intros j.
  rewrite list_lookup_insert, length_move_loop.
  replace (Z.of_nat t) with (Z.of_nat (f - (f - t))) by lia.
  rewrite move_loop_down by (unfold move_fuel; lia).
  rewrite lookup_insert_at by (rewrite length_delete_lt; lia).
  lookup_cases.
Qed.
End MoveCases.

(** ** [moveItemInArray] refines the reference semantics *)

(** C-level statement: the shifting loop of the CDK computes exactly
    "remove at the clamped source index, insert at the clamped target
    index". *)
Lemma moveItemInArray_spec {A} (l : list A) (fromIndex toIndex : Z) :
  moveItemInArray l fromIndex toIndex =
  list_move (Z.to_nat (clamp fromIndex (Z.of_nat (length l) - 1)))
            (Z.to_nat (clamp toIndex (Z.of_nat (length l) - 1))) l.
Proof.
  unfold moveItemInArray, list_move.
  destruct (decide (length l = 0)) as [H0|H0].
  { apply nil_length_inv in H0. subst l.
    rewrite (clamp_neg fromIndex), (clamp_neg toIndex) by (simpl; lia). done. }
  destruct (move_read_in_range l fromIndex H0) as [x Hx]. rewrite Hx.
  pose proof (clamp_bounds fromIndex (Z.of_nat (length l) - 1)) as Hf.
  pose proof (clamp_bounds toIndex (Z.of_nat (length l) - 1)) as Ht.
  revert Hx Hf Ht.
  generalize (clamp fromIndex (Z.of_nat (length l) - 1)) as cf.
  generalize (clamp toIndex (Z.of_nat (length l) - 1)) as ct.
  intros ct cf Hx Hf Ht.
  destruct (Z_of_nat_complete cf) as [nf ->]; [lia|].
  destruct (Z_of_nat_complete ct) as [nt ->]; [lia|].
  rewrite !Nat2Z.id in *.
  destruct (Z.eqb_spec (Z.of_nat nf) (Z.of_nat nt)) as [Heq|Hne].
  - assert (nf = nt) as <- by lia. by rewrite insert_at_delete.
  - destruct (Z.ltb_spec (Z.of_nat nt) (Z.of_nat nf)).
    + apply moveItemInArray_down; [lia|done].
    + apply moveItemInArray_up; [lia|done].
Qed.

Section SpliceSpec.
Context {A : Type}.
Implicit Types (l : list A) (x : A).

(** [array.splice(i, 1)] with [i] in range removes exactly element [i]. *)
Lemma js_splice_remove l (i : nat) x :
  l !! i = Some x -> js_splice (Z.of_nat i) 1 [] l = ([x], delete i l).
Proof.
  intros Hi. pose proof (lookup_lt_Some _ _ _ Hi).
  unfold js_splice. rewrite (proj2 (Z.ltb_ge _ _)) by lia.
  replace (Z.to_nat (Z.min (Z.of_nat i) (Z.of_nat (length l)))) with i by lia.
  replace (Z.to_nat (Z.min (Z.max 1 0) (Z.of_nat (length l) - Z.min (Z.of_nat i) (Z.of_nat (length l)))))
    with 1 by lia.
  rewrite delete_take_drop. simpl. f_equal.
  rewrite <-(take_drop_middle l i x Hi) at 1.
  rewrite drop_app_length'; [done|]. rewrite length_take. lia.
  by rewrite Nat.add_1_r.
Qed.

(** [array.splice(i, 0, x)] with [0 <= i <= length] inserts [x] before
    position [i]. *)
Lemma js_splice_insert l (i : nat) x :
  i <= length l -> snd (js_splice (Z.of_nat i) 0 [x] l) = insert_at i x l.
Proof.
  intros Hi. unfold js_splice, insert_at. simpl.
  rewrite (proj2 (Z.ltb_ge _ _)) by lia.
  replace (Z.to_nat (Z.min (Z.of_nat i) (Z.of_nat (length l)))) with i by lia.
  do 3 f_equal. lia.
Qed.

(** [transferArrayItem] removes the element at the clamped source index
    and inserts it at the clamped target index; on an empty source
    nothing changes. *)
Lemma transferArrayItem_spec (cur tgt : list A) ci ti :
  transferArrayItem cur tgt ci ti =
  let from := Z.to_nat (clamp ci (Z.of_nat (length cur) - 1)) in
  let to := Z.to_nat (clamp ti (Z.of_nat (length tgt))) in
  match cur !! from with
  | Some x => (delete from cur, insert_at to x tgt)
  | None => (cur, tgt)
  end.
Proof.
  unfold transferArrayItem. cbv zeta.
  destruct (Nat.eqb_spec (length cur) 0) as [H0|H0]; cbn [negb].
  { apply nil_length_inv in H0. by subst cur. }
  destruct (move_read_in_range cur ci H0) as [x Hx]. rewrite Hx.
  pose proof (clamp_bounds ci (Z.of_nat (length cur) - 1) ltac:(lia)).
  pose proof (clamp_bounds ti (Z.of_nat (length tgt)) ltac:(lia)).
  rewrite <-(Z2Nat.id (clamp ci _)) by lia.
  rewrite js_splice_remove with (x := x) by done. cbn iota beta.
  rewrite <-(Z2Nat.id (clamp ti _)) at 1 by lia.
  rewrite js_splice_insert by lia. by rewrite Nat2Z.id.
Qed.

(** Neither helper loses or duplicates an element. *)
Lemma transferArrayItem_perm (cur tgt : list A) ci ti :
  let '(cur', tgt') := transferArrayItem cur tgt ci ti in
  cur ++ tgt ≡ₚ cur' ++ tgt'.
Proof.
  rewrite transferArrayItem_spec. simpl.
  destruct (cur !! _) as [x|] eqn:Hx; [|done].
  rewrite insert_at_perm, (delete_perm _ _ _ Hx) at 1.
  by rewrite <-Permutation_middle.
Qed.

Lemma list_move_perm f t l : list_move f t l ≡ₚ l.
Proof.
  unfold list_move. destruct (l !! f) as [x|] eqn:Hx; [|done].
  rewrite insert_at_perm. symmetry. by apply delete_perm.
Qed.

Lemma moveItemInArray_perm l f t : moveItemInArray l f t ≡ₚ l.
Proof. rewrite moveItemInArray_spec. apply list_move_perm. Qed.

Lemma length_list_move f t l : f < length l -> t < length l ->
  length (list_move f t l) = length l.
Proof.
  intros Hf Ht. unfold list_move.
  destruct (lookup_lt_is_Some_2 l f Hf) as [x ->].
  rewrite length_insert_at, length_delete_lt; lia.
Qed.
End SpliceSpec.

Section IndexOf.
Context {A : Type} `{EqDecision A}.
Implicit Types (l : list A) (x : A).

(** [indexOf] returns [-1] exactly when the element is absent, and
    otherwise the position of its first occurrence. *)
Lemma js_indexOf_spec x l :
  (js_indexOf x l = -1 /\ x ∉ l)%Z \/
  exists i, js_indexOf x l = Z.of_nat i /\ l !! i = Some x /\ x ∉ take i l.
Proof.
  induction l as [|y l IH]; simpl.
  - left. split; [done|]. apply not_elem_of_nil.
  - case_decide as Hy.
    + right. exists 0. subst. split; [done|]. split; [done|]. apply not_elem_of_nil.
    + destruct IH as [[-> Hn]|(i & -> & Hi & Hn)].
      * left. simpl. split; [done|]. rewrite elem_of_cons. intuition congruence.
      * right. exists (S i). rewrite (proj2 (Z.ltb_ge _ _)) by lia.
        split; [lia|]. split; [done|]. simpl. rewrite elem_of_cons. intuition congruence.
Qed.
End IndexOf.

