(* ===== verification/Json.v ===== *)
(** * JSON text: [JSON.stringify] and [JSON.parse]

    [updateLocalStorage] writes [JSON.stringify(this.tasks)] and
    [JSON.stringify(this.done)]; [ngOnInit] reads them back with
    [JSON.parse] (src/src/app/todo/todo.component.ts).  Both functions belong
    to the JavaScript engine, not to src/: they are modelled from the
    ECMAScript specification (SerializeJSONProperty, QuoteJSONString with
    the ES2019 escaping of lone surrogates, and the JSON grammar of
    ECMA-404 that JSON.parse accepts).

    Values are the JSON values the program meets.  A number keeps its
    lexeme: the program never serialises a number (a task has none), so
    only the syntax of numbers matters, for what [JSON.parse] accepts.

    The parser is three mutually recursive functions with fuel;
    [parse_fuel] shows that more fuel than the code units a parse reads
    never changes its result, so [JSON.parse]'s fuel is never what
    fails.  [stringify_wf] shows that the serialiser writes code units. *)

From Stdlib Require Import ZArith Lia Wf_nat.
From stdpp Require Import base list strings.
From S2P Require Import Prelude.

Local Open Scope Z_scope.
#[local] Set Warnings "-register-all".

Inductive json : Type :=
  | JNull
  | JBool (b : bool)
  | JNumber (lexeme : jsstr)
  | JString (s : jsstr)
  | JArray (vs : list json)
  | JObject (fields : list (jsstr * json)).

(** ** Code units of the grammar *)
Module Ch.
Definition quote : Z := 34.
Definition backslash : Z := 92.
Definition slash : Z := 47.
Definition comma : Z := 44.
Definition colon : Z := 58.
Definition lbracket : Z := 91.
Definition rbracket : Z := 93.
Definition lbrace : Z := 123.
Definition rbrace : Z := 125.
Definition minus : Z := 45.
Definition plus : Z := 43.
Definition dot : Z := 46.
Definition zero : Z := 48.
Definition u : Z := 117.
End Ch.

Definition is_ws (c : Z) : bool :=
  (c =? 32) || (c =? 9) || (c =? 10) || (c =? 13).

Definition is_digit (c : Z) : bool := (48 <=? c) && (c <=? 57).

Definition is_high_surrogate (c : Z) : bool := (55296 <=? c) && (c <=? 56319).
Definition is_low_surrogate (c : Z) : bool := (56320 <=? c) && (c <=? 57343).

(** ** JSON.stringify *)

(** One lowercase hexadecimal digit. *)
Definition hex_digit (n : Z) : Z := if n <? 10 then 48 + n else 87 + n.

(** UnicodeEscape(C): [\u] and four lowercase hexadecimal digits. *)
Definition unicode_escape (c : Z) : jsstr :=
  [Ch.backslash; Ch.u; hex_digit (c / 4096); hex_digit ((c / 256) mod 16);
   hex_digit ((c / 16) mod 16); hex_digit (c mod 16)].

(** The short escapes of QuoteJSONString's table. *)
Definition short_escape (c : Z) : option Z :=
  if c =? 8 then Some 98 else if c =? 9 then Some 116
  else if c =? 10 then Some 110 else if c =? 12 then Some 102
  else if c =? 13 then Some 114 else if c =? 34 then Some 34
  else if c =? 92 then Some 92 else None.

(** QuoteJSONString, code point by code point: a surrogate pair is
    copied, a lone surrogate and a control character are escaped. *)
Fixpoint quote_units (s : jsstr) : jsstr :=
  match s with
  | [] => []
  | c :: r =>
      if is_high_surrogate c then
        match r with
        | d :: r' =>
            if is_low_surrogate d then c :: d :: quote_units r'
            else unicode_escape c ++ quote_units r
        | [] => unicode_escape c
        end
      else if is_low_surrogate c then unicode_escape c ++ quote_units r
      else match short_escape c with
           | Some e => [Ch.backslash; e] ++ quote_units r
           | None =>
               if c <? 32 then unicode_escape c ++ quote_units r
               else c :: quote_units r
           end
  end.

Definition quote (s : jsstr) : jsstr := Ch.quote :: quote_units s ++ [Ch.quote].

Fixpoint join (sep : Z) (parts : list jsstr) : jsstr :=
  match parts with
  | [] => []
  | [p] => p
  | p :: ps => p ++ sep :: join sep ps
  end.

(** SerializeJSONProperty without indentation. *)
Fixpoint stringify (v : json) : jsstr :=
  match v with
  | JNull => js "null"
  | JBool true => js "true"
  | JBool false => js "false"
  | JNumber n => n
  | JString s => quote s
  | JArray vs => Ch.lbracket :: join Ch.comma (map stringify vs) ++ [Ch.rbracket]
  | JObject fs =>
      Ch.lbrace ::
        join Ch.comma (map (fun '(k, x) => quote k ++ Ch.colon :: stringify x) fs)
        ++ [Ch.rbrace]
  end.

(** ** JSON.parse *)

Fixpoint skip_ws (s : jsstr) : jsstr :=
  match s with
  | c :: r => if is_ws c then skip_ws r else s
  | [] => []
  end.

Definition hex_val (h : Z) : option Z :=
  if (48 <=? h) && (h <=? 57) then Some (h - 48)
  else if (97 <=? h) && (h <=? 102) then Some (h - 87)
  else if (65 <=? h) && (h <=? 70) then Some (h - 55)
  else None.

Definition hex4 (a b c d : Z) : option Z :=
  match hex_val a, hex_val b, hex_val c, hex_val d with
  | Some a, Some b, Some c, Some d => Some (4096 * a + 256 * b + 16 * c + d)
  | _, _, _, _ => None
  end.

(** The character an escape [\e] stands for, [\u] apart. *)
Definition unescape (e : Z) : option Z :=
  if e =? 34 then Some 34 else if e =? 92 then Some 92
  else if e =? 47 then Some 47 else if e =? 98 then Some 8
  else if e =? 102 then Some 12 else if e =? 110 then Some 10
  else if e =? 114 then Some 13 else if e =? 116 then Some 9 else None.

Definition cons_fst (c : Z) (r : option (jsstr * jsstr)) : option (jsstr * jsstr) :=
  match r with Some (s, rest) => Some (c :: s, rest) | None => None end.

(** The characters of a string literal after its opening quote, up to
    and including the closing quote. *)
Fixpoint parse_chars (s : jsstr) : option (jsstr * jsstr) :=
  match s with
  | [] => None
  | c :: r =>
      if c =? Ch.quote then Some ([], r)
      else if c =? Ch.backslash then
        match r with
        | e :: r' =>
            if e =? Ch.u then
              match r' with
              | h1 :: h2 :: h3 :: h4 :: r'' =>
                  match hex4 h1 h2 h3 h4 with
                  | Some x => cons_fst x (parse_chars r'')
                  | None => None
                  end
              | _ => None
              end
            else match unescape e with
                 | Some x => cons_fst x (parse_chars r')
                 | None => None
                 end
        | [] => None
        end
      else if c <? 32 then None
      else cons_fst c (parse_chars r)
  end.

Definition parse_string (s : jsstr) : option (jsstr * jsstr) :=
  match s with
  | c :: r => if c =? Ch.quote then parse_chars r else None
  | [] => None
  end.

(** Number lexemes: [-? (0 | [1-9][0-9]* ) (. [0-9]+)? ([eE] [+-]? [0-9]+)?]. *)
Fixpoint span_digits (s : jsstr) : jsstr * jsstr :=
  match s with
  | c :: r => if is_digit c then let '(d, rest) := span_digits r in (c :: d, rest)
              else ([], s)
  | [] => ([], [])
  end.

Definition lex_digits1 (s : jsstr) : option (jsstr * jsstr) :=
  match span_digits s with
  | ([], _) => None
  | (d, rest) => Some (d, rest)
  end.

Definition lex_int (s : jsstr) : option (jsstr * jsstr) :=
  match s with
  | c :: r => if c =? Ch.zero then Some ([c], r) else lex_digits1 s
  | [] => None
  end.

Definition lex_frac (s : jsstr) : option (jsstr * jsstr) :=
  match s with
  | c :: r =>
      if c =? Ch.dot then
        match lex_digits1 r with Some (d, rest) => Some (c :: d, rest) | None => None end
      else Some ([], s)
  | [] => Some ([], [])
  end.

Definition lex_exp (s : jsstr) : option (jsstr * jsstr) :=
  match s with
  | c :: r =>
      if (c =? 101) || (c =? 69) then
        let '(sg, r') := match r with
                         | d :: r'' => if (d =? Ch.plus) || (d =? Ch.minus) then ([d], r'') else ([], r)
                         | [] => ([], r)
                         end in
        match lex_digits1 r' with Some (d, rest) => Some (c :: sg ++ d, rest) | None => None end
      else Some ([], s)
  | [] => Some ([], [])
  end.

Definition lex_number (s : jsstr) : option (jsstr * jsstr) :=
  let '(sg, r) := match s with
                  | c :: r => if c =? Ch.minus then ([c], r) else ([], s)
                  | [] => ([], s)
                  end in
  match lex_int r with
  | Some (i, r1) =>
      match lex_frac r1 with
      | Some (f, r2) =>
          match lex_exp r2 with
          | Some (e, r3) => Some (sg ++ i ++ f ++ e, r3)
          | None => None
          end
      | None => None
      end
  | None => None
  end.

(** [strip_prefix p s] removes the literal [p] from the front of [s]. *)
Fixpoint strip_prefix (p s : jsstr) : option jsstr :=
  match p, s with
  | [], _ => Some s
  | a :: p', b :: s' => if a =? b then strip_prefix p' s' else None
  | _ :: _, [] => None
  end.

(** A value, an array's elements after [[], an object's members after
    [{].  Each nested call spends one unit of fuel; [json_parse] gives
    one more than the length of the text, which is enough
    ([parse_stringify] below). *)
Fixpoint parse_value (fuel : nat) (s : jsstr) : option (json * jsstr) :=
  match fuel with
  | O => None
  | S f =>
      match skip_ws s with
      | [] => None
      | c :: r =>
          if c =? Ch.lbracket then
            match skip_ws r with
            | d :: r' => if d =? Ch.rbracket then Some (JArray [], r') else parse_elements f (skip_ws r)
            | [] => None
            end
          else if c =? Ch.lbrace then
            match skip_ws r with
            | d :: r' => if d =? Ch.rbrace then Some (JObject [], r') else parse_members f (skip_ws r)
            | [] => None
            end
          else if c =? Ch.quote then
            match parse_chars r with Some (x, rest) => Some (JString x, rest) | None => None end
          else match strip_prefix (js "null") (c :: r) with
               | Some rest => Some (JNull, rest)
               | None =>
                 match strip_prefix (js "true") (c :: r) with
                 | Some rest => Some (JBool true, rest)
                 | None =>
                   match strip_prefix (js "false") (c :: r) with
                   | Some rest => Some (JBool false, rest)
                   | None =>
                       match lex_number (c :: r) with
                       | Some (n, rest) => Some (JNumber n, rest)
                       | None => None
                       end
                   end
                 end
               end
      end
  end
with parse_elements (fuel : nat) (s : jsstr) : option (json * jsstr) :=
  match fuel with
  | O => None
  | S f =>
      match parse_value f s with
      | Some (v, r) =>
          match skip_ws r with
          | c :: r' =>
              if c =? Ch.comma then
                match parse_elements f r' with
                | Some (JArray vs, rest) => Some (JArray (v :: vs), rest)
                | _ => None
                end
              else if c =? Ch.rbracket then Some (JArray [v], r')
              else None
          | [] => None
          end
      | None => None
      end
  end
with parse_members (fuel : nat) (s : jsstr) : option (json * jsstr) :=
  match fuel with
  | O => None
  | S f =>
      match parse_string (skip_ws s) with
      | Some (k, r) =>
          match skip_ws r with
          | c :: r' =>
              if c =? Ch.colon then
                match parse_value f r' with
                | Some (v, r'') =>
                    match skip_ws r'' with
                    | d :: r3 =>
                        if d =? Ch.comma then
                          match parse_members f r3 with
                          | Some (JObject fs, rest) => Some (JObject ((k, v) :: fs), rest)
                          | _ => None
                          end
                        else if d =? Ch.rbrace then Some (JObject [(k, v)], r3)
                        else None
                    | [] => None
                    end
                | None => None
                end
              else None
          | [] => None
          end
      | None => None
      end
  end.

(** [JSON.parse(text)]: [None] is the SyntaxError it throws. *)
Definition json_parse (s : jsstr) : option json :=
  match parse_value (S (length s)) s with
  | Some (v, rest) => match skip_ws rest with [] => Some v | _ => None end
  | None => None
  end.

(** ** Well-formed values

    The values [JSON.stringify] meets in this program: no numbers, and
    every string a sequence of UTF-16 code units. *)
Inductive json_wf : json -> Prop :=
  | wf_null : json_wf JNull
  | wf_bool b : json_wf (JBool b)
  | wf_string s : wf_jsstr s -> json_wf (JString s)
  | wf_array vs : Forall json_wf vs -> json_wf (JArray vs)
  | wf_object fs :
      Forall (fun kv => wf_jsstr kv.1 /\ json_wf kv.2) fs -> json_wf (JObject fs).

(** What [JSON.parse] returns on a text of code units: numbers may
    occur, and every string is a sequence of code units. *)
Inductive strings_wf : json -> Prop :=
  | sw_null : strings_wf JNull
  | sw_bool b : strings_wf (JBool b)
  | sw_number n : strings_wf (JNumber n)
  | sw_string s : wf_jsstr s -> strings_wf (JString s)
  | sw_array vs : Forall strings_wf vs -> strings_wf (JArray vs)
  | sw_object fs :
      Forall (fun kv => wf_jsstr kv.1 /\ strings_wf kv.2) fs -> strings_wf (JObject fs).

(** ** Induction, size and the round-trip predicate *)

(** Induction over values, with the hypothesis on every element of an
    array and on every member of an object. *)
Section JsonInd.
Variable P : json -> Prop.
Hypothesis Hnull : P JNull.
Hypothesis Hbool : forall b, P (JBool b).
Hypothesis Hnum : forall n, P (JNumber n).
Hypothesis Hstr : forall s, P (JString s).
Hypothesis Harr : forall vs, Forall P vs -> P (JArray vs).
Hypothesis Hobj : forall fs, Forall (fun kv => P kv.2) fs -> P (JObject fs).

Fixpoint json_ind' (v : json) : P v :=
  match v with
  | JNull => Hnull
  | JBool b => Hbool b
  | JNumber n => Hnum n
  | JString s => Hstr s
  | JArray vs =>
      Harr vs ((fix go (l : list json) : Forall P l :=
                  match l with
                  | [] => Forall_nil_2 _
                  | x :: l' => Forall_cons_2 _ x l' (json_ind' x) (go l')
                  end) vs)
  | JObject fs =>
      Hobj fs ((fix go (l : list (jsstr * json)) : Forall (fun kv => P kv.2) l :=
                  match l with
                  | [] => Forall_nil_2 _
                  | (k, x) :: l' => Forall_cons_2 _ (k, x) l' (json_ind' x) (go l')
                  end) fs)
  end.
End JsonInd.

(** The fuel [parse_value] spends on a value: one per value, and one
    per element or member for the loop that reads it. *)
Fixpoint json_size (v : json) : nat :=
  match v with
  | JArray vs => S (list_sum (map (fun x => S (json_size x)) vs))
  | JObject fs => S (list_sum (map (fun '(_, x) => S (json_size x)) fs))
  | _ => 1
  end.

Definition member_text (kv : jsstr * json) : jsstr :=
  let '(k, x) := kv in quote k ++ Ch.colon :: stringify x.

Definition parses_back (v : json) : Prop :=
  json_wf v -> forall fuel rest, (json_size v <= fuel)%nat ->
  parse_value fuel (stringify v ++ rest) = Some (v, rest).

(** What the parser's correctness lemmas say of one of its three
    functions at one fuel: [parse_keeps_wf] that on code units it
    produces strings of code units and leaves a suffix; [fuel_stable]
    that it leaves a suffix and any fuel above the code units it read
    gives the same result. *)
Definition parse_keeps_wf (p : nat -> jsstr -> option (json * jsstr)) (n : nat) : Prop :=
  forall s v r, wf_jsstr s -> p n s = Some (v, r) -> strings_wf v /\ suffix r s.

Definition fuel_stable (p : nat -> jsstr -> option (json * jsstr)) (n : nat) : Prop :=
  forall s v r, p n s = Some (v, r) -> suffix r s /\
    forall m, (length s - length r < m)%nat -> p m s = Some (v, r).

(** ** Round trip of string literals *)

Lemma hex_val_digit n : 0 <= n < 16 -> hex_val (hex_digit n) = Some n.
Proof.
  intros Hn. unfold hex_digit, hex_val.
  destruct (Z.ltb_spec n 10);
    repeat match goal with
    | |- context [(?a <=? ?b)] => destruct (Z.leb_spec a b)
    end; simpl; f_equal; lia.
Qed.

Lemma hex4_escape c : code_unit c ->
  hex4 (hex_digit (c / 4096)) (hex_digit ((c / 256) mod 16))
       (hex_digit ((c / 16) mod 16)) (hex_digit (c mod 16)) = Some c.
Proof.
  intros Hc. unfold code_unit in Hc. unfold hex4.
  rewrite !hex_val_digit by zdiv_lia.
  f_equal. zdiv_lia.
Qed.

(** After the opening quote: each way [quote_units] writes a code unit
    is read back as that code unit. *)
Lemma parse_chars_escape c rest : code_unit c ->
  parse_chars (unicode_escape c ++ rest) = cons_fst c (parse_chars rest).
Proof. intros Hc. simpl. by rewrite hex4_escape. Qed.

Lemma parse_chars_short c e rest : short_escape c = Some e ->
  parse_chars ([Ch.backslash; e] ++ rest) = cons_fst c (parse_chars rest).
Proof.
  unfold short_escape. intros He.
  repeat match goal with
  | H : context [(?a =? ?b)] |- _ => destruct (Z.eqb_spec a b); subst
  end; simplify_eq; reflexivity.
Qed.

Lemma parse_chars_plain c rest :
  32 <= c -> c <> Ch.quote -> c <> Ch.backslash ->
  parse_chars (c :: rest) = cons_fst c (parse_chars rest).
Proof.
  intros H1 H2 H3. simpl.
  rewrite (proj2 (Z.eqb_neq _ _) H2), (proj2 (Z.eqb_neq _ _) H3).
  by rewrite (proj2 (Z.ltb_ge _ _) H1).
Qed.

Lemma short_escape_None c :
  short_escape c = None -> c <> Ch.quote /\ c <> Ch.backslash.
Proof.
  unfold short_escape, Ch.quote, Ch.backslash. intros H.
  repeat match goal with
  | H : context [(?a =? ?b)] |- _ => destruct (Z.eqb_spec a b)
  end; simplify_eq; lia.
Qed.

Lemma parse_chars_quote s rest : wf_jsstr s ->
  parse_chars (quote_units s ++ Ch.quote :: rest) = Some (s, rest).
Proof.
  revert rest.
  induction s as [s IH] using (induction_ltof1 _ (@length Z)); unfold ltof in IH.
  intros rest Hs. destruct s as [|c r]; [reflexivity|].
  inversion Hs as [|? ? Hc Hr]; subst. unfold code_unit in Hc.
  assert (forall r' : jsstr, (length r' < length (c :: r))%nat -> wf_jsstr r' ->
          cons_fst c (parse_chars (quote_units r' ++ Ch.quote :: rest)) = Some (c :: r', rest))
    as Step by (intros r' ? ?; by rewrite IH).
  cbn [quote_units].
  destruct (is_high_surrogate c) eqn:Hh.
  - unfold is_high_surrogate in Hh. apply andb_prop in Hh as [Hh1 Hh2].
    apply Z.leb_le in Hh1.
    destruct r as [|d r'].
    + by rewrite parse_chars_escape.
    + destruct (is_low_surrogate d) eqn:Hl.
      * unfold is_low_surrogate in Hl. apply andb_prop in Hl as [Hl1 _].
        apply Z.leb_le in Hl1. inversion Hr; subst.
        cbn [app]. rewrite parse_chars_plain by (unfold Ch.quote, Ch.backslash; lia).
        rewrite parse_chars_plain by (unfold Ch.quote, Ch.backslash; lia).
        rewrite IH by (simpl; lia || done). done.
      * rewrite <-app_assoc, parse_chars_escape by done. apply Step; [simpl; lia|done].
  - destruct (is_low_surrogate c) eqn:Hl.
    + rewrite <-app_assoc, parse_chars_escape by done. apply Step; [simpl; lia|done].
    + destruct (short_escape c) as [e|] eqn:He.
      * rewrite <-app_assoc, (parse_chars_short c e) by done. apply Step; [simpl; lia|done].
      * destruct (Z.ltb_spec c 32).
        -- rewrite <-app_assoc, parse_chars_escape by done. apply Step; [simpl; lia|done].
        -- apply short_escape_None in He as [Hq Hb].
           cbn [app]. rewrite parse_chars_plain by done. apply Step; [simpl; lia|done].
Qed.

Lemma parse_string_quote s rest : wf_jsstr s ->
  parse_string (quote s ++ rest) = Some (s, rest).
Proof.
  intros Hs. unfold quote. cbn [app parse_string]. rewrite Z.eqb_refl.
  rewrite <-app_assoc. by apply parse_chars_quote.
Qed.

(** ** Round trip of values *)



Lemma stringify_head v : json_wf v ->
  exists c r, stringify v = c :: r /\ is_ws c = false /\
              c <> Ch.rbracket /\ c <> Ch.rbrace.
Proof.
  intros Hv. unfold Ch.rbracket, Ch.rbrace.
  destruct Hv as [| [] | | |]; simpl; do 2 eexists; split; try reflexivity;
    split; try reflexivity; vm_compute; split; congruence.
Qed.

Lemma skip_ws_stringify v rest : json_wf v ->
  skip_ws (stringify v ++ rest) = stringify v ++ rest.
Proof.
  intros Hv. destruct (stringify_head v Hv) as (c & r & -> & Hc & _).
  simpl. by rewrite Hc.
Qed.



Lemma stringify_object fs :
  stringify (JObject fs) = Ch.lbrace :: join Ch.comma (map member_text fs) ++ [Ch.rbrace].
Proof. reflexivity. Qed.

Lemma join_cons_ne p ps : ps <> [] -> join Ch.comma (p :: ps) = p ++ Ch.comma :: join Ch.comma ps.
Proof. by destruct ps. Qed.

Lemma join_cons2 p q ps : join Ch.comma (p :: q :: ps) = p ++ Ch.comma :: join Ch.comma (q :: ps).
Proof. reflexivity. Qed.

(** The first code unit of a non-empty list of elements or members is
    neither white space nor a closing bracket. *)
Lemma join_elements_head vs rest : vs <> [] -> Forall json_wf vs ->
  exists c r, join Ch.comma (map stringify vs) ++ rest = c :: r /\ is_ws c = false /\
              c <> Ch.rbracket /\ c <> Ch.rbrace.
Proof.
  intros Hne Hw. destruct vs as [|v [|v2 vs]]; [done| |];
    inversion Hw as [|? ? Hv]; subst;
    destruct (stringify_head v Hv) as (c & r & Hs & ?); cbn [map join];
    rewrite Hs; by eexists c, _.
Qed.

Lemma join_members_head fs rest : fs <> [] ->
  exists r, join Ch.comma (map member_text fs) ++ rest = Ch.quote :: r.
Proof.
  intros Hne. destruct fs as [|[k x] [|kv2 fs]]; [done| |]; cbn [map join member_text];
    unfold quote; by eexists.
Qed.

Lemma skip_ws_cons c r : is_ws c = false -> skip_ws (c :: r) = c :: r.
Proof. intros Hc. simpl. by rewrite Hc. Qed.

Lemma skip_ws_punct c r : c = Ch.comma \/ c = Ch.colon \/ c = Ch.rbracket \/ c = Ch.rbrace ->
  skip_ws (c :: r) = c :: r.
Proof. intros Hc. apply skip_ws_cons. by destruct_or! Hc; subst. Qed.

Lemma parse_elements_stringify vs : vs <> [] ->
  Forall parses_back vs -> Forall json_wf vs ->
  forall fuel rest, (list_sum (map (fun x => S (json_size x)) vs) <= fuel)%nat ->
  parse_elements fuel (join Ch.comma (map stringify vs) ++ Ch.rbracket :: rest) =
    Some (JArray vs, rest).
Proof.
  induction vs as [|v vs IH]; intros Hne Hp Hw fuel rest Hf; [done|].
  inversion Hp as [|? ? Hv Hps]; inversion Hw as [|? ? Hwv Hws]; subst.
  destruct fuel as [|fuel]; simpl in Hf; [lia|].
  destruct (decide (vs = [])) as [->|Hne'].
  - cbn [map join parse_elements]. rewrite Hv by (done || lia).
    rewrite skip_ws_punct by auto. reflexivity.
  - rewrite map_cons, join_cons_ne by (by intros ?%map_eq_nil).
    rewrite <-app_assoc. cbn [app parse_elements].
    rewrite Hv by (done || lia). rewrite skip_ws_punct by auto.
    rewrite Z.eqb_refl. rewrite IH by (done || lia).
    reflexivity.
Qed.

Lemma skip_ws_quote k r : skip_ws (quote k ++ r) = quote k ++ r.
Proof. reflexivity. Qed.

Lemma parse_members_stringify fs : fs <> [] ->
  Forall (fun kv => parses_back kv.2) fs ->
  Forall (fun kv => wf_jsstr kv.1 /\ json_wf kv.2) fs ->
  forall fuel rest, (list_sum (map (fun '(_, x) => S (json_size x)) fs) <= fuel)%nat ->
  parse_members fuel (join Ch.comma (map member_text fs) ++ Ch.rbrace :: rest) =
    Some (JObject fs, rest).
Proof.
  induction fs as [|[k x] fs IH]; intros Hne Hp Hw fuel rest Hf; [done|].
  inversion Hp as [|? ? Hv Hps]; inversion Hw as [|? ? [Hk Hx] Hws]; subst; simpl in Hv, Hk, Hx.
  destruct fuel as [|fuel]; simpl in Hf; [lia|].
  destruct (decide (fs = [])) as [->|Hne'].
  - cbn [map join parse_members member_text].
    rewrite <-app_assoc, skip_ws_quote, parse_string_quote by done.
    cbn [app]. rewrite skip_ws_punct, Z.eqb_refl by auto.
    rewrite Hv by (done || lia). rewrite skip_ws_punct by auto. reflexivity.
  - rewrite map_cons, join_cons_ne by (by intros ?%map_eq_nil).
    change (member_text (k, x)) with (quote k ++ Ch.colon :: stringify x).
    rewrite <-!app_assoc. cbn [parse_members]. rewrite skip_ws_quote, parse_string_quote by done.
    cbn [app]. rewrite skip_ws_punct, Z.eqb_refl by auto.
    rewrite Hv by (done || lia). cbn [app]. rewrite skip_ws_punct, Z.eqb_refl by auto.
    rewrite IH by (done || lia). reflexivity.
Qed.

(** Every well-formed value is read back from its text, whatever follows
    it, given the fuel [json_size]. *)
Lemma parse_value_stringify v : parses_back v.
Proof.
  induction v as [| b | n | s | vs IH | fs IH] using json_ind';
    intros Hw fuel rest Hf; destruct fuel as [|fuel]; simpl in Hf; try lia;
    inversion Hw as [| | s' Hs | vs' Hvs | fs' Hfs]; subst.
  - reflexivity.
  - by destruct b.
  - cbn [stringify]. unfold quote. cbn [app parse_value].
    rewrite skip_ws_cons by reflexivity. simpl.
    rewrite <-app_assoc. cbn [app]. rewrite parse_chars_quote by done. reflexivity.
  - cbn [stringify app parse_value]. rewrite skip_ws_cons, Z.eqb_refl by reflexivity.
    rewrite <-app_assoc. cbn [app].
    destruct (decide (vs = [])) as [->|Hne]; [reflexivity|].
    destruct (join_elements_head vs (Ch.rbracket :: rest) Hne Hvs)
      as (c & r & Heq & Hc & Hc1 & _).
    rewrite Heq, skip_ws_cons by done.
    rewrite (proj2 (Z.eqb_neq _ _) Hc1), <-Heq.
    apply parse_elements_stringify; [done..|lia].
  - rewrite stringify_object. cbn [app parse_value].
    rewrite skip_ws_cons by reflexivity. simpl.
    rewrite <-app_assoc. cbn [app].
    destruct (decide (fs = [])) as [->|Hne]; [reflexivity|].
    destruct (join_members_head fs (Ch.rbrace :: rest) Hne) as (r & Heq).
    rewrite Heq, skip_ws_cons by reflexivity. simpl. rewrite <-Heq.
    apply parse_members_stringify; [done..|lia].
Qed.

Lemma length_join ps : ps <> [] ->
  S (length (join Ch.comma ps)) = list_sum (map (fun p => S (length p)) ps).
Proof.
  induction ps as [|p ps IH]; intros Hne; [done|].
  destruct (decide (ps = [])) as [->|Hne']; [simpl; lia|].
  rewrite join_cons_ne by done. rewrite length_app. simpl.
  rewrite <-IH by done. lia.
Qed.

Lemma length_quote k : (2 <= length (quote k))%nat.
Proof. unfold quote. simpl. rewrite length_app. simpl. lia. Qed.

(** The text of a well-formed value has at least [json_size] code units,
    so [json_parse]'s fuel is enough. *)
Lemma json_size_le v : json_wf v -> (json_size v <= length (stringify v))%nat.
Proof.
  induction v as [| b | n | s | vs IH | fs IH] using json_ind'; intros Hw;
    inversion Hw as [| | s' Hs | vs' Hvs | fs' Hfs]; subst.
  - simpl. lia.
  - destruct b; simpl; lia.
  - cbn [stringify json_size]. pose proof (length_quote s). lia.
  - cbn [stringify json_size]. simpl length. rewrite length_app. simpl length.
    destruct (decide (vs = [])) as [->|Hne]; [simpl; lia|].
    enough (list_sum (map (fun x => S (json_size x)) vs) <=
            S (length (join Ch.comma (map stringify vs))))%nat by lia.
    rewrite length_join by (by intros ?%map_eq_nil). rewrite map_map.
    apply list_sum_map_le. rewrite Forall_forall in IH, Hvs |- *.
    intros x Hx. specialize (IH x Hx (Hvs x Hx)). lia.
  - rewrite stringify_object. cbn [json_size]. simpl length. rewrite length_app. simpl length.
    destruct (decide (fs = [])) as [->|Hne]; [simpl; lia|].
    enough (list_sum (map (fun '(_, x) => S (json_size x)) fs) <=
            S (length (join Ch.comma (map member_text fs))))%nat by lia.
    rewrite length_join by (by intros ?%map_eq_nil). rewrite map_map.
    apply list_sum_map_le. rewrite Forall_forall in IH, Hfs |- *.
    intros [k x] Hx. destruct (Hfs _ Hx) as [_ Hwx]. specialize (IH _ Hx Hwx).
    simpl in IH |- *. rewrite length_app. simpl. pose proof (length_quote k). lia.
Qed.

(** [JSON.parse(JSON.stringify(v))] gives [v] back. *)
Theorem json_parse_stringify v : json_wf v -> json_parse (stringify v) = Some v.
Proof.
  intros Hw. unfold json_parse.
  rewrite <-(app_nil_r (stringify v)) at 2.
  rewrite (parse_value_stringify v Hw) by (pose proof (json_size_le v Hw); lia).
  reflexivity.
Qed.

(** ** What JSON.parse returns on a text of code units

    Every parser returns the rest of its input as a suffix of it, and
    every string it builds is made of code units: copied ones, short
    escapes, or four hexadecimal digits. *)

Lemma wf_suffix r s : suffix r s -> wf_jsstr s -> wf_jsstr r.
Proof. intros [k ->] Hs. unfold wf_jsstr in *. by apply Forall_app in Hs as [_ ?]. Qed.

Lemma skip_ws_suffix s : suffix (skip_ws s) s.
Proof. induction s as [|c r IH]; simpl; [done|]. destruct (is_ws c); [by apply suffix_cons_r|done]. Qed.

Lemma strip_prefix_suffix p s r : strip_prefix p s = Some r -> suffix r s.
Proof.
  revert s. induction p as [|a p IH]; intros s H; simpl in H; [by simplify_eq|].
  destruct s as [|b s]; [done|]. destruct (a =? b); [|done].
  apply suffix_cons_r. by apply IH.
Qed.

Lemma span_digits_suffix s d r : span_digits s = (d, r) -> suffix r s.
Proof.
  revert d. induction s as [|c s IH]; intros d H; simpl in H; [by simplify_eq|].
  destruct (is_digit c); [|by simplify_eq].
  destruct (span_digits s) eqn:E. simplify_eq. apply suffix_cons_r. by eapply IH.
Qed.

Lemma lex_digits1_suffix s d r : lex_digits1 s = Some (d, r) -> suffix r s.
Proof.
  unfold lex_digits1. destruct (span_digits s) as [[|? ?] ?] eqn:E; intros H; simplify_eq.
  by eapply span_digits_suffix.
Qed.

#[local] Hint Resolve suffix_cons_r skip_ws_suffix lex_digits1_suffix : core.

Lemma lex_int_suffix s i r : lex_int s = Some (i, r) -> suffix r s.
Proof. unfold lex_int. destruct s as [|c s]; [done|]. destruct (c =? Ch.zero); intros; simplify_eq; eauto. Qed.

Lemma lex_frac_suffix s f r : lex_frac s = Some (f, r) -> suffix r s.
Proof.
  unfold lex_frac. destruct s as [|c s]; intros H; [by simplify_eq|].
  destruct (c =? Ch.dot); [|by simplify_eq].
  destruct (lex_digits1 s) as [[d rest]|] eqn:E; simplify_eq; eauto.
Qed.

Lemma lex_exp_suffix s e r : lex_exp s = Some (e, r) -> suffix r s.
Proof.
  unfold lex_exp. destruct s as [|c s]; intros H; [by simplify_eq|].
  destruct (_ || _); [|by simplify_eq].
  destruct (match s with d :: r'' => _ | [] => _ end) as [sg r'] eqn:Esg.
  assert (suffix r' s) by (destruct s as [|d ?]; [|destruct (_ || _)]; simplify_eq; auto).
  destruct (lex_digits1 r') as [[d rest]|] eqn:E; simplify_eq.
  apply suffix_cons_r. etrans; [eapply lex_digits1_suffix, E|done].
Qed.

Lemma lex_number_suffix s n r : lex_number s = Some (n, r) -> suffix r s.
Proof.
  unfold lex_number.
  destruct (match s with c :: r1 => _ | [] => _ end) as [sg r0] eqn:E0.
  assert (suffix r0 s) by (destruct s as [|c ?]; [|destruct (c =? Ch.minus)]; simplify_eq; auto).
  destruct (lex_int r0) as [[i r1]|] eqn:E1; [|done].
  destruct (lex_frac r1) as [[f r2]|] eqn:E2; [|done].
  destruct (lex_exp r2) as [[e r3]|] eqn:E3; [|done].
  intros; simplify_eq.
  etrans; [eapply lex_exp_suffix; eauto|]. etrans; [eapply lex_frac_suffix; eauto|].
  etrans; [eapply lex_int_suffix; eauto|]. done.
Qed.

Lemma hex4_code_unit a b c d x : hex4 a b c d = Some x -> code_unit x.
Proof.
  unfold hex4, hex_val, code_unit.
  repeat (case_match; try done); intros; simplify_eq; rewrite ?andb_true_iff, ?Z.leb_le in *; lia.
Qed.

Lemma unescape_code_unit e x : unescape e = Some x -> code_unit x.
Proof. unfold unescape, code_unit. intros H. repeat case_match; simplify_eq; lia. Qed.

Lemma parse_chars_spec s x r : parse_chars s = Some (x, r) ->
  suffix r s /\ (wf_jsstr s -> wf_jsstr x).
Proof.
  revert x r. induction s as [s IH] using (induction_ltof1 _ (@length Z)).
  intros x r H. destruct s as [|c s]; [done|]. simpl in H.
  assert (forall y t, suffix t s -> (length t < S (length s))%nat ->
            (wf_jsstr (c :: s) -> code_unit y) ->
            cons_fst y (parse_chars t) = Some (x, r) ->
            suffix r (c :: s) /\ (wf_jsstr (c :: s) -> wf_jsstr x)) as Hcons.
  { intros y t Ht Hl Hy Hc. unfold cons_fst in Hc.
    destruct (parse_chars t) as [[x' r']|] eqn:E; [|done]. injection Hc as <- <-.
    destruct (IH t Hl x' r' E) as [Hr Hx]. split; [apply suffix_cons_r; by etrans|].
    intros Hs. constructor; [by apply Hy|]. apply Hx, (wf_suffix t (c :: s)); [by apply suffix_cons_r|done]. }
  destruct (c =? Ch.quote); [simplify_eq; split; [auto|constructor]|].
  destruct (c =? Ch.backslash);
    [|destruct (c <? 32); [done|]; apply (Hcons c s); auto; intros Hs; by apply Forall_inv in Hs].
  destruct s as [|e s']; [done|]. destruct (e =? Ch.u).
  - destruct s' as [|h1 [|h2 [|h3 [|h4 s'']]]]; try done.
    destruct (hex4 h1 h2 h3 h4) eqn:Eh; [|done].
    apply (Hcons z s''); [by do 5 apply suffix_cons_r|simpl; lia|intros; by eapply hex4_code_unit|done].
  - destruct (unescape e) eqn:Ee; [|done].
    apply (Hcons z s'); [by apply suffix_cons_r|simpl; lia|intros; by eapply unescape_code_unit|done].
Qed.

Lemma parse_chars_wf s x r : wf_jsstr s -> parse_chars s = Some (x, r) ->
  wf_jsstr x /\ suffix r s.
Proof. intros Hs H. destruct (parse_chars_spec s x r H) as [? Hx]. auto. Qed.

Lemma suffix_step (r t s : jsstr) : suffix r t -> suffix t s -> suffix r s.
Proof. intros. by etrans. Qed.

Lemma suffix_cons_step (r s : jsstr) c : suffix r s -> suffix r (c :: s).
Proof. apply suffix_cons_r. Qed.

Lemma skip_cons_suffix (s0 s r : jsstr) c : suffix s s0 -> skip_ws s = c :: r -> suffix r s0.
Proof.
  intros Hs E. etrans; [|exact Hs]. apply (suffix_cons_l _ _ c). rewrite <-E. apply skip_ws_suffix.
Qed.

(** The facts a parser step gives: the rest after [skip_ws], after a
    literal or a number, is a suffix. *)
Ltac parse_facts :=
  repeat match goal with
  | H : skip_ws ?s = ?t |- _ =>
      let Hs := fresh "Hsuf" in
      assert (suffix t s) as Hs by (rewrite <-H; apply skip_ws_suffix); clear H
  | H : strip_prefix _ ?s = Some ?t |- _ => apply strip_prefix_suffix in H
  | H : lex_number ?s = Some (_, ?t) |- _ => apply lex_number_suffix in H
  end.

#[local] Hint Resolve suffix_step suffix_cons_step wf_suffix : core.

Lemma parse_value_wf f :
  parse_keeps_wf parse_elements f -> parse_keeps_wf parse_members f ->
  parse_keeps_wf parse_value (S f).
Proof.
  intros IHe IHm s v r Hs H. cbn [parse_value] in H.
  destruct (skip_ws s) as [|c r0] eqn:E0; [done|].
  pose proof (skip_ws_suffix r0) as Hw0.
  destruct (c =? Ch.lbracket).
  { destruct (skip_ws r0) as [|d r'] eqn:E1; [done|]. parse_facts.
    destruct (d =? Ch.rbracket); [simplify_eq; split; [repeat constructor|eauto 6]|].
    apply IHe in H as [? ?]; [split; eauto 6|eauto 6]. }
  destruct (c =? Ch.lbrace).
  { destruct (skip_ws r0) as [|d r'] eqn:E1; [done|]. parse_facts.
    destruct (d =? Ch.rbrace); [simplify_eq; split; [repeat constructor|eauto 6]|].
    apply IHm in H as [? ?]; [split; eauto 6|eauto 6]. }
  parse_facts.
  destruct (c =? Ch.quote).
  { destruct (parse_chars r0) as [[x rest]|] eqn:E; [|done]. injection H as Hv Hr; subst v r.
    destruct (parse_chars_wf r0 x rest) as [? ?]; [eauto 6|done|]. split; [by constructor|eauto]. }
  destruct (strip_prefix (js "null") (c :: r0)) eqn:En;
    [injection H as <- <-; parse_facts; split; [constructor|eauto]|].
  destruct (strip_prefix (js "true") (c :: r0)) eqn:Et;
    [injection H as <- <-; parse_facts; split; [constructor|eauto]|].
  destruct (strip_prefix (js "false") (c :: r0)) eqn:Ef;
    [injection H as <- <-; parse_facts; split; [constructor|eauto]|].
  destruct (lex_number (c :: r0)) as [[n rest]|] eqn:El; [|done].
  injection H as <- <-. parse_facts. split; [constructor|eauto].
Qed.

Lemma parse_elements_wf f :
  parse_keeps_wf parse_value f -> parse_keeps_wf parse_elements f ->
  parse_keeps_wf parse_elements (S f).
Proof.
  intros IHv IHe s v r Hs H. simpl in H.
  destruct (parse_value f s) as [[v0 r0]|] eqn:E0; [|done].
  destruct (IHv _ _ _ Hs E0) as [Hv0 Hr0].
  destruct (skip_ws r0) as [|c r1] eqn:E1; [done|].
  pose proof (skip_cons_suffix _ _ _ _ Hr0 E1) as S1.
  destruct (c =? Ch.comma).
  + destruct (parse_elements f r1) as [[[| | | | vs |] rest]|] eqn:E2; try done. simplify_eq.
    apply IHe in E2 as [Hvs Hrest]; [|exact (wf_suffix _ _ S1 Hs)]. inversion Hvs; subst.
    split; [by repeat constructor|by etrans].
  + destruct (c =? Ch.rbracket); [simplify_eq|done]. split; [by repeat constructor|done].
Qed.

Lemma parse_members_wf f :
  parse_keeps_wf parse_value f -> parse_keeps_wf parse_members f ->
  parse_keeps_wf parse_members (S f).
Proof.
  intros IHv IHm s v r Hs H. simpl in H.
  destruct (parse_string (skip_ws s)) as [[k r0]|] eqn:E0; [|done].
  assert (wf_jsstr k /\ suffix r0 s) as [Hk Hr0].
  { pose proof (skip_ws_suffix s). destruct (skip_ws s) as [|q t]; [done|]. simpl in E0.
    destruct (q =? Ch.quote); [|done]. destruct (parse_chars_wf t k r0); eauto 6. }
  destruct (skip_ws r0) as [|c r1] eqn:E1; [done|].
  pose proof (skip_cons_suffix _ _ _ _ Hr0 E1) as S1.
  destruct (c =? Ch.colon); [|done].
  destruct (parse_value f r1) as [[v0 r2]|] eqn:E2; [|done].
  apply IHv in E2 as [Hv0 Hr2]; [|exact (wf_suffix _ _ S1 Hs)].
  assert (suffix r2 s) as S2 by (by etrans).
  destruct (skip_ws r2) as [|d r3] eqn:E3; [done|].
  pose proof (skip_cons_suffix _ _ _ _ S2 E3) as S3.
  destruct (d =? Ch.comma).
  + destruct (parse_members f r3) as [[[| | | | | fs] rest]|] eqn:E4; try done. simplify_eq.
    apply IHm in E4 as [Hfs Hrest]; [|exact (wf_suffix _ _ S3 Hs)]. inversion Hfs; subst.
    split; [by repeat constructor|by etrans].
  + destruct (d =? Ch.rbrace); [simplify_eq|done]. split; [by repeat constructor|done].
Qed.

Lemma parse_wf f :
  parse_keeps_wf parse_value f /\ parse_keeps_wf parse_elements f /\ parse_keeps_wf parse_members f.
Proof.
  induction f as [|f (IHv & IHe & IHm)]; [split_and!; intros ?????; discriminate|].
  split_and!; [apply parse_value_wf|apply parse_elements_wf|apply parse_members_wf]; done.
Qed.

Lemma json_parse_wf s v : wf_jsstr s -> json_parse s = Some v -> strings_wf v.
Proof.
  unfold json_parse. intros Hs H.
  destruct (parse_value _ s) as [[v0 r]|] eqn:E; [|done].
  destruct (skip_ws r); [|done]. simplify_eq. by eapply (proj1 (parse_wf _)).
Qed.

(** ** Fuel is never what fails

    A parse that succeeds with some fuel succeeds, with the same result,
    with any fuel larger than the number of code units it consumed.  So
    the [S (length s)] that [json_parse] gives is enough: it returns
    [None] only on texts that no amount of fuel parses. *)

Lemma suffix_cons_lt (c : Z) (r s : jsstr) : suffix (c :: r) s -> (length r < length s)%nat.
Proof. intros H%suffix_length. simpl in H. lia. Qed.

Lemma parse_string_suffix s k r : parse_string s = Some (k, r) -> suffix r s.
Proof.
  destruct s as [|c s]; [done|]. simpl. destruct (c =? Ch.quote); [|done].
  intros H. apply suffix_cons_r. exact (proj1 (parse_chars_spec _ _ _ H)).
Qed.

(** Rewrites the equations a case analysis left, reducing the matches
    they decide. *)
Ltac replay :=
  repeat (match goal with
          | E : ?a = _ |- context [?a] => tryif is_var a then fail else rewrite E
          end; cbv beta iota).

Ltac suffix_lia :=
  repeat match goal with H : suffix _ _ |- _ => apply suffix_length in H end;
  cbn [length] in *; lia.

(** Closes [suffix a b] along the suffix facts of the context. *)
Ltac suffix_chain :=
  match goal with
  | H : suffix ?a ?b |- suffix ?a ?b => exact H
  | H : suffix (_ :: ?a) ?b |- suffix ?a ?b => exact (suffix_cons_l _ _ _ H)
  | H : suffix ?a ?t |- suffix ?a _ => transitivity t; [exact H|suffix_chain]
  | H : suffix (_ :: ?a) ?t |- suffix ?a _ => transitivity t; [exact (suffix_cons_l _ _ _ H)|suffix_chain]
  end.

Lemma parse_value_fuel f :
  fuel_stable parse_elements f -> fuel_stable parse_members f -> fuel_stable parse_value (S f).
Proof.
  intros IHe IHm s v r H. cbn [parse_value] in H.
  destruct (skip_ws s) as [|c r0] eqn:E0; [done|].
  assert (suffix (c :: r0) s) as S0 by (rewrite <-E0; apply skip_ws_suffix).
  destruct (c =? Ch.lbracket) eqn:Eb.
  { destruct (skip_ws r0) as [|d r'] eqn:E1; [done|].
    assert (suffix (d :: r') r0) as S1 by (rewrite <-E1; apply skip_ws_suffix).
    destruct (d =? Ch.rbracket) eqn:Ed.
    - injection H as <- <-. split; [suffix_chain|]. intros [|m] Hm; [lia|]. cbn [parse_value]. by replay.
    - destruct (IHe _ _ _ H) as [Sr F]. split; [suffix_chain|]. intros [|m] Hm; [lia|].
      cbn [parse_value]. replay. apply F. suffix_lia. }
  destruct (c =? Ch.lbrace) eqn:Ec.
  { destruct (skip_ws r0) as [|d r'] eqn:E1; [done|].
    assert (suffix (d :: r') r0) as S1 by (rewrite <-E1; apply skip_ws_suffix).
    destruct (d =? Ch.rbrace) eqn:Ed.
    - injection H as <- <-. split; [suffix_chain|]. intros [|m] Hm; [lia|]. cbn [parse_value]. by replay.
    - destruct (IHm _ _ _ H) as [Sr F]. split; [suffix_chain|]. intros [|m] Hm; [lia|].
      cbn [parse_value]. replay. apply F. suffix_lia. }
  assert (forall x rest, suffix rest (c :: r0) -> Some (x, rest) = Some (v, r) ->
            (forall m, parse_value (S m) s = Some (x, rest)) ->
            suffix r s /\ forall m, (length s - length r < m)%nat -> parse_value m s = Some (v, r))
    as Hleaf.
  { intros x rest Hs Hx Hm. injection Hx as <- <-. split; [by etrans|]. intros [|m] ?; [lia|done]. }
  destruct (c =? Ch.quote) eqn:Eq.
  { destruct (parse_chars r0) as [[x rest]|] eqn:E; [|done].
    apply (Hleaf (JString x) rest); [|done|intros; cbn [parse_value]; by replay].
    apply suffix_cons_r. exact (proj1 (parse_chars_spec _ _ _ E)). }
  destruct (strip_prefix (js "null") (c :: r0)) as [rest|] eqn:En.
  { apply (Hleaf JNull rest); [by eapply strip_prefix_suffix|done|intros; cbn [parse_value]; by replay]. }
  destruct (strip_prefix (js "true") (c :: r0)) as [rest|] eqn:Et.
  { apply (Hleaf (JBool true) rest); [by eapply strip_prefix_suffix|done|intros; cbn [parse_value]; by replay]. }
  destruct (strip_prefix (js "false") (c :: r0)) as [rest|] eqn:Ef.
  { apply (Hleaf (JBool false) rest); [by eapply strip_prefix_suffix|done|intros; cbn [parse_value]; by replay]. }
  destruct (lex_number (c :: r0)) as [[x rest]|] eqn:El; [|done].
  apply (Hleaf (JNumber x) rest); [by eapply lex_number_suffix|done|intros; cbn [parse_value]; by replay].
Qed.

Lemma parse_elements_fuel f :
  fuel_stable parse_value f -> fuel_stable parse_elements f -> fuel_stable parse_elements (S f).
Proof.
  intros IHv IHe s v r H. cbn [parse_elements] in H.
  destruct (parse_value f s) as [[v0 r0]|] eqn:E0; [|done].
  destruct (IHv _ _ _ E0) as [S0 F0]. clear E0.
  destruct (skip_ws r0) as [|c r1] eqn:E1; [done|].
  assert (suffix (c :: r1) r0) as S1 by (rewrite <-E1; apply skip_ws_suffix).
  destruct (c =? Ch.comma) eqn:Ec.
  + destruct (parse_elements f r1) as [[[| | | | vs |] rest]|] eqn:E2; try done.
    destruct (IHe _ _ _ E2) as [S2 F2]. clear E2. injection H as <- <-.
    split; [suffix_chain|]. intros [|m] Hm; [lia|]. cbn [parse_elements].
    rewrite F0 by suffix_lia. cbv beta iota. replay. rewrite F2 by suffix_lia. done.
  + destruct (c =? Ch.rbracket) eqn:Ed; [|done]. injection H as <- <-.
    split; [suffix_chain|]. intros [|m] Hm; [lia|]. cbn [parse_elements].
    rewrite F0 by suffix_lia. cbv beta iota. by replay.
Qed.

Lemma parse_members_fuel f :
  fuel_stable parse_value f -> fuel_stable parse_members f -> fuel_stable parse_members (S f).
Proof.
  intros IHv IHm s v r H. cbn [parse_members] in H.
  destruct (parse_string (skip_ws s)) as [[k r0]|] eqn:E0; [|done].
  assert (suffix r0 s) as S0 by (etrans; [exact (parse_string_suffix _ _ _ E0)|apply skip_ws_suffix]).
  destruct (skip_ws r0) as [|c r1] eqn:E1; [done|].
  assert (suffix (c :: r1) r0) as S1 by (rewrite <-E1; apply skip_ws_suffix).
  destruct (c =? Ch.colon) eqn:Ec; [|done].
  destruct (parse_value f r1) as [[v0 r2]|] eqn:E2; [|done].
  destruct (IHv _ _ _ E2) as [S2 F2]. clear E2.
  destruct (skip_ws r2) as [|d r3] eqn:E3; [done|].
  assert (suffix (d :: r3) r2) as S3 by (rewrite <-E3; apply skip_ws_suffix).
  destruct (d =? Ch.comma) eqn:Ed.
  + destruct (parse_members f r3) as [[[| | | | | fs] rest]|] eqn:E4; try done.
    destruct (IHm _ _ _ E4) as [S4 F4]. clear E4. injection H as <- <-.
    split; [suffix_chain|]. intros [|m] Hm; [lia|]. cbn [parse_members]. replay.
    rewrite F2 by suffix_lia. cbv beta iota. replay. rewrite F4 by suffix_lia. done.
  + destruct (d =? Ch.rbrace) eqn:Ee; [|done]. injection H as <- <-.
    split; [suffix_chain|]. intros [|m] Hm; [lia|]. cbn [parse_members]. replay.
    rewrite F2 by suffix_lia. cbv beta iota. by replay.
Qed.

Lemma parse_fuel n :
  fuel_stable parse_value n /\ fuel_stable parse_elements n /\ fuel_stable parse_members n.
Proof.
  induction n as [|f (IHv & IHe & IHm)]; [split_and!; intros ????; discriminate|].
  split_and!; [apply parse_value_fuel|apply parse_elements_fuel|apply parse_members_fuel]; done.
Qed.

Lemma json_parse_complete n s v r :
  parse_value n s = Some (v, r) -> skip_ws r = [] -> json_parse s = Some v.
Proof.
  intros H Hr. destruct (proj1 (parse_fuel n) s v r H) as [_ F].
  unfold json_parse. rewrite F by lia. by rewrite Hr.
Qed.

(** ** [JSON.stringify] writes code units

    On a value whose strings are sequences of code units, the text is a
    sequence of code units too: every escape is ASCII. *)

Lemma hex_digit_code_unit n : 0 <= n < 16 -> code_unit (hex_digit n).
Proof. unfold hex_digit, code_unit. destruct (Z.ltb_spec n 10); lia. Qed.

Lemma unicode_escape_wf c : code_unit c -> wf_jsstr (unicode_escape c).
Proof.
  unfold code_unit. intros Hc. unfold unicode_escape, wf_jsstr.
  repeat apply Forall_cons_2; try apply Forall_nil_2;
    try (apply hex_digit_code_unit; zdiv_lia); unfold code_unit, Ch.backslash, Ch.u; lia.
Qed.

Lemma short_escape_code_unit c e : short_escape c = Some e -> code_unit e.
Proof. unfold short_escape, code_unit. intros H. repeat case_match; simplify_eq; lia. Qed.

Lemma quote_units_wf s : wf_jsstr s -> wf_jsstr (quote_units s).
Proof.
  induction s as [s IH] using (induction_ltof1 _ (@length Z)); unfold ltof in IH.
  intros Hs. destruct s as [|c r]; [constructor|]. unfold wf_jsstr in *.
  inversion Hs as [|? ? Hc Hr]; subst. cbn [quote_units].
  assert (wf_jsstr (quote_units r)) as Hq by (apply IH; [simpl; lia|done]).
  assert (wf_jsstr (unicode_escape c ++ quote_units r)) as He
    by (apply Forall_app; split; [by apply unicode_escape_wf|done]).
  destruct (is_high_surrogate c).
  { destruct r as [|d r']; [by apply unicode_escape_wf|].
    destruct (is_low_surrogate d); [|done]. inversion Hr; subst.
    constructor; [done|]. constructor; [done|]. apply IH; [simpl; lia|done]. }
  destruct (is_low_surrogate c); [done|].
  destruct (short_escape c) as [e|] eqn:Ee.
  - constructor; [unfold code_unit, Ch.backslash; lia|].
    constructor; [by eapply short_escape_code_unit|done].
  - destruct (c <? 32); [done|by constructor].
Qed.

Lemma quote_wf s : wf_jsstr s -> wf_jsstr (quote s).
Proof.
  intros Hs. constructor; [unfold code_unit, Ch.quote; lia|].
  apply Forall_app. split; [by apply quote_units_wf|]. constructor; [unfold code_unit, Ch.quote; lia|done].
Qed.

Lemma join_wf sep parts : code_unit sep -> Forall wf_jsstr parts -> wf_jsstr (join sep parts).
Proof.
  intros Hsep. induction 1 as [|p ps Hp Hps IH]; [constructor|].
  destruct ps as [|q qs]; [done|]. cbn [join]. apply Forall_app. split; [done|by constructor].
Qed.

Lemma stringify_wf v : json_wf v -> wf_jsstr (stringify v).
Proof.
  induction v as [| b | n | s | vs IH | fs IH] using json_ind'; intros Hv; inversion Hv; subst.
  - decide_true.
  - destruct b; decide_true.
  - by apply quote_wf.
  - constructor; [unfold code_unit, Ch.lbracket; lia|]. apply Forall_app. split; [|decide_true].
    apply join_wf; [unfold code_unit, Ch.comma; lia|]. apply Forall_fmap.
    eapply Forall_impl; [apply Forall_and; split; [exact IH|eassumption]|]. intros x [Hx Hw]. by apply Hx.
  - constructor; [unfold code_unit, Ch.lbrace; lia|]. apply Forall_app. split; [|decide_true].
    apply join_wf; [unfold code_unit, Ch.comma; lia|]. apply Forall_fmap.
    eapply Forall_impl; [apply Forall_and; split; [exact IH|eassumption]|].
    intros [k x] [Hx [Hk Hw]]. cbn [fst snd] in *. cbv beta iota. apply Forall_app. split; [by apply quote_wf|].
    constructor; [unfold code_unit, Ch.colon; lia|by apply Hx].
Qed.
