(* ===== verification/Browser.v ===== *)
(** * The browser: localStorage, timers and the Notification API

    The component and the service reach the browser through globals:
    [localStorage.getItem]/[setItem], [setInterval]/[clearInterval],
    [Notification.permission], [Notification.requestPermission()],
    [new Notification(title, {body})] and [console.log].  None of them is
    under src/; they are modelled from the Web specifications (HTML's
    Web Storage and timer sections, WebIDL's conversion of the [long]
    timeout, the Notifications API), all marked spec_modelled.

    The browser is one record; each primitive is a function on it, or a
    computation of [st browser js_error] when it can throw. *)

From Stdlib Require Import ZArith Lia.
From stdpp Require Import base list gmap strings.
From S2P Require Import Prelude.

(** The exceptions the modelled code can raise.  [IllTypedStorage] is
    not a JavaScript exception: it marks the point where a value read
    back from storage is well-formed JSON but not an array of task
    records, which the TypeScript type [ITask[]] assumes and the model
    does not follow further. *)
Inductive js_error : Type :=
  | SyntaxError
  | QuotaExceededError
  | TypeError
  | IllTypedStorage.

(** [NotificationPermission]: "default", "granted" or "denied". *)
Inductive permission : Type :=
  | PermDefault
  | PermGranted
  | PermDenied.

#[export] Instance permission_eq_dec : EqDecision permission.
Proof. solve_decision. Defined.

Record notification : Type := mkNotification { title : jsstr; body : jsstr }.

Record browser : Type := mkBrowser {
  storage : gmap jsstr jsstr;       (** localStorage *)
  quota : nat;                      (** code units the origin may store *)
  timers : gmap positive Z;         (** live intervals: id, delay in ms *)
  next_timer : positive;            (** the next id setInterval returns *)
  notification_api : bool;          (** ['Notification' in window] *)
  permission_state : permission;    (** [Notification.permission] *)
  pending_requests : nat;           (** unsettled requestPermission() promises *)
  shown : list notification;        (** notifications displayed, oldest first *)
  console : list jsstr;             (** console.log output *)
}.

(** ** localStorage *)

Definition storage_used (m : gmap jsstr jsstr) : nat :=
  list_sum (map (fun kv => length kv.1 + length kv.2) (map_to_list m)).

Definition set_storage (m : gmap jsstr jsstr) (b : browser) : browser :=
  mkBrowser m (quota b) (timers b) (next_timer b) (notification_api b)
    (permission_state b) (pending_requests b) (shown b) (console b).

(** [localStorage.getItem(key)]: [None] is [null]. *)
Definition getItem (key : jsstr) (b : browser) : option jsstr := storage b !! key.

(** [localStorage.setItem(key, value)]: throws QuotaExceededError, and
    changes nothing, when the new contents would not fit. *)
Definition setItem (key value : jsstr) : st browser js_error unit :=
  fun b =>
    let m := <[key := value]> (storage b) in
    if decide (storage_used m <= quota b) then (Ok tt, set_storage m b)
    else (Throw QuotaExceededError, b).

(** ** Timers *)

(** WebIDL's conversion of a number to [long]: wrap modulo 2^32 into
    the signed range. *)
Definition to_int32 (x : Z) : Z :=
  let m := (x mod 2 ^ 32)%Z in
  if (m <? 2 ^ 31)%Z then m else (m - 2 ^ 32)%Z.

(** HTML's timer initialisation: a negative timeout becomes 0. *)
Definition timer_delay (timeout : Z) : Z := Z.max 0 (to_int32 timeout).

Definition set_timers (t : gmap positive Z) (n : positive) (b : browser) : browser :=
  mkBrowser (storage b) (quota b) t n (notification_api b)
    (permission_state b) (pending_requests b) (shown b) (console b).

(** [setInterval(handler, timeout)]: a fresh positive id. *)
Definition setInterval (timeout : Z) : st browser js_error positive :=
  fun b =>
    let id := next_timer b in
    (Ok id, set_timers (<[id := timer_delay timeout]> (timers b)) (Pos.succ id) b).

(** [clearInterval(id)]. *)
Definition clearInterval (id : positive) : st browser js_error unit :=
  fun b => (Ok tt, set_timers (delete id (timers b)) (next_timer b) b).

(** ** Notifications and the console *)

Definition set_notify (p : permission) (n : nat) (sh : list notification)
    (con : list jsstr) (b : browser) : browser :=
  mkBrowser (storage b) (quota b) (timers b) (next_timer b) (notification_api b)
    p n sh con.

(** [new Notification(title, { body })]. *)
Definition new_Notification (t msg : jsstr) (b : browser) : browser :=
  set_notify (permission_state b) (pending_requests b)
    (shown b ++ [mkNotification t msg]) (console b) b.

(** [Notification.requestPermission()]: a promise the user settles later. *)
Definition Notification_requestPermission (b : browser) : browser :=
  set_notify (permission_state b) (S (pending_requests b)) (shown b) (console b) b.

(** The user answers a pending request: only a permission still at
    "default" can change. *)
Definition settle_permission (answer : permission) (b : browser) : permission * browser :=
  let p := match permission_state b with PermDefault => answer | q => q end in
  (p, set_notify p (pred (pending_requests b)) (shown b) (console b) b).

(** [console.log(msg)]. *)
Definition console_log (msg : jsstr) (b : browser) : browser :=
  set_notify (permission_state b) (pending_requests b) (shown b)
    (console b ++ [msg]) b.

(** ** What the component's storage and timers see

    Two browsers agree on storage and timers when every read of
    localStorage and of the timer table gives the same answer.  It is
    the relation the notification primitives preserve. *)
Definition same_store (b1 b2 : browser) : Prop :=
  storage b1 = storage b2 /\ quota b1 = quota b2 /\
  timers b1 = timers b2 /\ next_timer b1 = next_timer b2.

#[export] Instance same_store_equiv : Equivalence same_store.
Proof.
  split; unfold same_store.
  - intros b. done.
  - intros b1 b2 (? & ? & ? & ?). done.
  - intros b1 b2 b3 (? & ? & ? & ?) (? & ? & ? & ?). split_and!; congruence.
Qed.

#[export] Instance getItem_proper key : Proper (same_store ==> eq) (getItem key).
Proof. intros b1 b2 (Hs & _). unfold getItem. by rewrite Hs. Qed.

Lemma same_store_set_notify p n sh con b : same_store (set_notify p n sh con b) b.
Proof. done. Qed.

#[export] Hint Resolve same_store_set_notify : todo.

(** ** Bounds of the timer delay *)

Lemma to_int32_small x : (0 <= x < 2 ^ 31)%Z -> to_int32 x = x.
Proof.
  intros Hx. unfold to_int32.
  rewrite Z.mod_small by lia. by rewrite (proj2 (Z.ltb_lt _ _)) by lia.
Qed.

Lemma to_int32_wraps x : (2 ^ 31 <= x < 2 ^ 32)%Z -> to_int32 x = (x - 2 ^ 32)%Z.
Proof.
  intros Hx. unfold to_int32.
  rewrite Z.mod_small by lia. by rewrite (proj2 (Z.ltb_ge _ _)) by lia.
Qed.

Lemma to_int32_range x : (- 2 ^ 31 <= to_int32 x < 2 ^ 31)%Z.
Proof.
  unfold to_int32. pose proof (Z.mod_pos_bound x (2 ^ 32) ltac:(lia)).
  destruct (Z.ltb_spec (x mod 2 ^ 32) (2 ^ 31)); lia.
Qed.

Lemma timer_delay_range t : (0 <= timer_delay t < 2 ^ 31)%Z.
Proof. unfold timer_delay. pose proof (to_int32_range t). lia. Qed.

(** A period of [n] minutes is [n * 60000] ms: exact up to 35791
    minutes, and wrapped to a negative number, so a delay of 0, from
    35792 to 71582 minutes. *)
Lemma timer_delay_minutes n : (0 <= n <= 35791)%Z -> timer_delay (n * 60000) = (n * 60000)%Z.
Proof. intros Hn. unfold timer_delay. rewrite to_int32_small by lia. lia. Qed.

Lemma timer_delay_minutes_wrap n : (35792 <= n <= 71582)%Z -> timer_delay (n * 60000) = 0%Z.
Proof. intros Hn. unfold timer_delay. rewrite to_int32_wraps by lia. lia. Qed.
