(* ===== verification/NotificationService.v ===== *)
(** * NotificationService (src/src/app/notification.service.ts)

    The service has two methods.  [showNotification(message)] displays a
    notification titled "Todo List" when the browser has the
    Notification API and the permission is "granted", and does nothing
    otherwise.  [requestPermission()] asks for the permission unless it
    is already granted; the promise's callback logs a line when the user
    grants it.

    The component only uses the service through what it promises, the
    class [NotificationPort]: a shown message is displayed exactly when
    the port is enabled, requesting displays nothing, and neither touches
    storage or timers, and whether it is enabled does not depend on
    storage.  [NotificationService_port] is the service's
    instance; the component's theorems are proved against the class. *)

From Stdlib Require Import ZArith Lia.
From stdpp Require Import base list gmap strings.
From S2P Require Import Prelude Browser.

(** ** The service *)

Module NotificationService.

(** [showNotification(message)], lines 7-12. *)
Definition showNotification (message : jsstr) (b : browser) : browser :=
  if notification_api b && bool_decide (permission_state b = PermGranted)
  then new_Notification (js "Todo List") message b
  else b.

(** [requestPermission()], lines 14-23: the request itself. *)
Definition requestPermission (b : browser) : browser :=
  if notification_api b && bool_decide (permission_state b <> PermGranted)
  then Notification_requestPermission b
  else b.

(** The callback of [.then] in [requestPermission], lines 17-21. *)
Definition requestPermission_then (p : permission) (b : browser) : browser :=
  if bool_decide (p = PermGranted)
  then console_log (js "Notification permission granted!") b
  else b.

(** The port's [np_enabled]: the instance's law [np_show_bodies]
    checks it against the guard [showNotification] tests itself. *)
Definition can_show (b : browser) : bool :=
  notification_api b && bool_decide (permission_state b = PermGranted).

End NotificationService.

(** ** What the component relies on *)

Definition bodies (b : browser) : list jsstr := map body (shown b).

Class NotificationPort : Type := {
  np_show : jsstr -> browser -> browser;
  np_request : browser -> browser;
  np_enabled : browser -> bool;
  np_show_bodies m b :
    bodies (np_show m b) = bodies b ++ (if np_enabled b then [m] else []);
  np_show_store m b : same_store (np_show m b) b;
  np_show_enabled m b : np_enabled (np_show m b) = np_enabled b;
  np_request_bodies b : bodies (np_request b) = bodies b;
  np_request_store b : same_store (np_request b) b;
  np_request_enabled b : np_enabled (np_request b) = np_enabled b;
  np_enabled_storage m b : np_enabled (set_storage m b) = np_enabled b;
}.

#[export] Instance NotificationService_port : NotificationPort.
Proof.
  refine {| np_show := NotificationService.showNotification;
            np_request := NotificationService.requestPermission;
            np_enabled := NotificationService.can_show |};
    intros; unfold NotificationService.showNotification,
      NotificationService.requestPermission, NotificationService.can_show, bodies;
    destruct b as [? ? ? ? [] [] ? ? ?]; simpl; rewrite ?map_app, ?app_nil_r; done.
Defined.

(** ** The service's behaviour *)

(** C25: [showNotification(message)] displays one notification titled
    "Todo List" with the message as body when the browser has the
    Notification API and the permission is "granted"; when the API is
    missing, or the permission is "default" or "denied", it displays
    nothing; it never touches storage or timers. *)
Theorem showNotification_spec m b :
  (notification_api b = true -> permission_state b = PermGranted ->
     shown (NotificationService.showNotification m b) =
       shown b ++ [mkNotification (js "Todo List") m]) /\
  (notification_api b = false \/ permission_state b <> PermGranted ->
     shown (NotificationService.showNotification m b) = shown b) /\
  same_store (NotificationService.showNotification m b) b.
Proof.
  unfold NotificationService.showNotification.
  destruct (notification_api b); simpl; try case_bool_decide; simpl;
    split_and!; intros; try done; naive_solver.
Qed.

(** C26: [requestPermission()] opens one permission request when the API
    exists and the permission is not "granted" (also when it is
    "denied"), and none otherwise; its callback logs only a grant. *)
Theorem requestPermission_spec b p :
  pending_requests (NotificationService.requestPermission b) =
    pending_requests b +
    (if notification_api b && bool_decide (permission_state b <> PermGranted) then 1 else 0) /\
  console (NotificationService.requestPermission_then p b) =
    console b ++ (if bool_decide (p = PermGranted) then [js "Notification permission granted!"] else []).
Proof.
  unfold NotificationService.requestPermission, NotificationService.requestPermission_then.
  split; destruct (_ && _) || destruct (bool_decide _); simpl; try lia; by rewrite ?app_nil_r.
Qed.

(** [showNotification_spec] on a browser with the API: granted, it shows
    the notification; denied, nothing. *)
Lemma showNotification_spec_witness :
  shown (NotificationService.showNotification (js "Walk the dog")
           (mkBrowser ∅ 100 ∅ 1 true PermGranted 0 [] [])) =
    [mkNotification (js "Todo List") (js "Walk the dog")] /\
  shown (NotificationService.showNotification (js "Walk the dog")
           (mkBrowser ∅ 100 ∅ 1 true PermDenied 0 [] [])) = [].
Proof.
  split.
  - etrans; [apply (proj1 (showNotification_spec _ _)); reflexivity|reflexivity].
  - etrans; [apply (proj1 (proj2 (showNotification_spec _ _))); right; discriminate|reflexivity].
Defined.
