(* ===== verification/TodoComponent.v ===== *)
(** * TodoComponent (src/src/app/todo/todo.component.ts)

    The component's fields are the record [todo].  Its two arrays hold
    references to task objects, so the tasks live in a heap ([heap],
    keyed by [loc]) and the arrays are lists of references: [editTask]
    mutates an object in place and [deleteTask] finds it by identity
    ([indexOf] uses [===]), as in JavaScript.  A method is a computation
    of [M] = [st page js_error] over the component and the browser
    together ([page]); an exception keeps the writes made before it.

    The methods are written in a Section over the [NotificationPort] the
    component is injected with; [NotificationService_port] instantiates
    it.  [ITask] (src/src/app/model/task.ts, not among the sources) is
    modelled from the spec. *)

From Stdlib Require Import ZArith QArith Qround Lia.
From stdpp Require Import base list gmap strings.
From S2P Require Import Prelude ArrayOps Json Browser NotificationService.

(** ** Data *)

Module ITask.
(** [{ description: string; done: boolean; editing: boolean }]; the
    description is [null] when the task was added from a reset form. *)
Record t : Type := mk {
  description : option jsstr;
  done : bool;
  editing : bool;
}.
End ITask.

Abbreviation loc := positive.

(** The fields of [TodoComponent], lines 13-19. *)
Record todo : Type := mkTodo {
  todoForm : option (option jsstr);    (** [todoForm.value.item]; [None]: not built yet *)
  heap : gmap loc ITask.t;             (** the task objects *)
  next_loc : loc;
  tasks : list loc;                    (** [this.tasks], pending *)
  done : list loc;                     (** [this.done] *)
  notificationInterval : Z;            (** minutes *)
  notificationIntervalId : option positive;  (** [undefined] until set *)
  newNotificationInterval : option Q;  (** the number input, [null] when empty *)
}.

(** The field initialisers and the constructor, lines 12-21. *)
Definition constructor : todo := mkTodo None ∅ 1 [] [] 1 None None.

Record page : Type := mkPage { comp : todo; env : browser }.

Definition M (A : Type) : Type := st page js_error A.

(** ** Field updates *)

Definition set_todoForm f c :=
  mkTodo f (heap c) (next_loc c) (tasks c) (done c) (notificationInterval c)
    (notificationIntervalId c) (newNotificationInterval c).
Definition set_heap h n c :=
  mkTodo (todoForm c) h n (tasks c) (done c) (notificationInterval c)
    (notificationIntervalId c) (newNotificationInterval c).
Definition set_tasks l c :=
  mkTodo (todoForm c) (heap c) (next_loc c) l (done c) (notificationInterval c)
    (notificationIntervalId c) (newNotificationInterval c).
Definition set_done l c :=
  mkTodo (todoForm c) (heap c) (next_loc c) (tasks c) l (notificationInterval c)
    (notificationIntervalId c) (newNotificationInterval c).
Definition set_interval n c :=
  mkTodo (todoForm c) (heap c) (next_loc c) (tasks c) (done c) n
    (notificationIntervalId c) (newNotificationInterval c).
Definition set_intervalId i c :=
  mkTodo (todoForm c) (heap c) (next_loc c) (tasks c) (done c)
    (notificationInterval c) i (newNotificationInterval c).
Definition set_newInterval x c :=
  mkTodo (todoForm c) (heap c) (next_loc c) (tasks c) (done c)
    (notificationInterval c) (notificationIntervalId c) x.

(** ** Access to the component and the browser *)

Definition get_comp : M todo := fun p => (Ok (comp p), p).
Definition update_comp (f : todo -> todo) : M unit :=
  fun p => (Ok tt, mkPage (f (comp p)) (env p)).
Definition lift {A} (m : st browser js_error A) : M A :=
  fun p => let '(r, b) := m (env p) in (r, mkPage (comp p) b).
Definition lift_fn (f : browser -> browser) : M unit :=
  fun p => (Ok tt, mkPage (comp p) (f (env p))).

(** Reading a property of the object [x] refers to; a reference to no
    object is [undefined], whose properties throw a TypeError. *)
Definition deref (x : loc) : M ITask.t :=
  fun p => match heap (comp p) !! x with
           | Some t => (Ok t, p)
           | None => (Throw TypeError, p)
           end.

(** Writing the object [x] refers to. *)
Definition write (x : loc) (t : ITask.t) : M unit :=
  update_comp (fun c => set_heap (<[x := t]> (heap c)) (next_loc c) c).

(** An object literal or an object built by JSON.parse: a fresh reference. *)
Definition alloc (t : ITask.t) : M loc :=
  fun p => let c := comp p in
           (Ok (next_loc c),
            mkPage (set_heap (<[next_loc c := t]> (heap c)) (Pos.succ (next_loc c)) c) (env p)).

Fixpoint alloc_all (ts : list ITask.t) : M (list loc) :=
  match ts with
  | [] => st_ret []
  | t :: ts' => let* x := alloc t in let* xs := alloc_all ts' in st_ret (x :: xs)
  end.

(** [list.some((task) => !task.done)], stopping at the first hit. *)
Fixpoint some_pending (l : list loc) : M bool :=
  match l with
  | [] => st_ret false
  | x :: l' =>
      let* t := deref x in
      if negb (ITask.done t) then st_ret true else some_pending l'
  end.

(** ** JSON form of the task arrays *)

Definition desc_json (d : option jsstr) : json :=
  match d with Some s => JString s | None => JNull end.

Definition task_json (t : ITask.t) : json :=
  JObject [(js "description", desc_json (ITask.description t));
           (js "done", JBool (ITask.done t));
           (js "editing", JBool (ITask.editing t))].

Definition array_json (h : gmap loc ITask.t) (l : list loc) : json :=
  JArray (map (fun x => match h !! x with Some t => task_json t | None => JNull end) l).

(** The value of member [k]; when a key repeats, JSON.parse keeps the
    last one. *)
Fixpoint field (k : jsstr) (fs : list (jsstr * json)) : option json :=
  match fs with
  | [] => None
  | (k', v) :: fs' =>
      match field k fs' with
      | Some w => Some w
      | None => if decide (k = k') then Some v else None
      end
  end.

Definition decode_task (v : json) : option ITask.t :=
  match v with
  | JObject fs =>
      match field (js "description") fs, field (js "done") fs, field (js "editing") fs with
      | Some (JString s), Some (JBool d), Some (JBool e) => Some (ITask.mk (Some s) d e)
      | Some JNull, Some (JBool d), Some (JBool e) => Some (ITask.mk None d e)
      | _, _, _ => None
      end
  | _ => None
  end.

Definition decode_tasks (v : json) : option (list ITask.t) :=
  match v with
  | JArray vs => mapM decode_task vs
  | _ => None
  end.

(** [JSON.parse(stored)] assigned to a task array. *)
Definition parse_stored (s : jsstr) : M (list loc) :=
  match json_parse s with
  | None => st_throw SyntaxError
  | Some v =>
      match decode_tasks v with
      | None => st_throw IllTypedStorage
      | Some ts => alloc_all ts
      end
  end.

(** ** The methods *)

(** A string is truthy when it is not empty. *)
Definition truthy (s : jsstr) : bool := negb (bool_decide (s = [])).

(** [string + value] for a description that may be [null]. *)
Definition desc_text (d : option jsstr) : jsstr :=
  match d with Some s => s | None => js "null" end.

(** [prompt(...) || task.description]: a cancelled prompt ([None]) or
    an empty answer keeps the old description. *)
Definition prompt_or (answer : option jsstr) (old : option jsstr) : option jsstr :=
  match answer with
  | Some s => if truthy s then Some s else old
  | None => old
  end.

(** The [list] argument of [deleteTask] picks this array. *)
Inductive target : Type := TargetTasks | TargetDone | TargetNone.

Definition select_list (list : jsstr) : target :=
  if decide (list = js "tasks") then TargetTasks
  else if decide (list = js "done") then TargetDone
  else TargetNone.

(** The two drop lists of the template; their data are [this.tasks] and
    [this.done]. *)
Inductive drop_list : Type := CTasks | CDone.

#[export] Instance drop_list_eq_dec : EqDecision drop_list.
Proof. solve_decision. Defined.

Record drop_event : Type := mkDrop {
  previousContainer : drop_list;
  container : drop_list;
  previousIndex : Z;
  currentIndex : Z;
}.

Definition data (k : drop_list) (c : todo) : list loc :=
  match k with CTasks => tasks c | CDone => done c end.

Definition set_data (k : drop_list) (l : list loc) (c : todo) : todo :=
  match k with CTasks => set_tasks l c | CDone => set_done l c end.

(** [this.newNotificationInterval || 0]: [null] and zero are falsy. *)
Definition or_zero (x : option Q) : Q :=
  match x with
  | Some q => if Qeq_bool q 0%Q then 0%Q else q
  | None => 0%Q
  end.

(** [Math.max(1, Math.abs(Math.floor(x || 0)))], line 128. *)
Definition coerce_interval (x : option Q) : Z :=
  Z.max 1 (Z.abs (Qfloor (or_zero x))).

Section Methods.
Context `{NP : NotificationPort}.

(** [updateLocalStorage()], lines 160-163. *)
Definition updateLocalStorage : M unit :=
  let* c := get_comp in
  let* _ := lift (setItem (js "tasks") (stringify (array_json (heap c) (tasks c)))) in
  let* c := get_comp in
  lift (setItem (js "done") (stringify (array_json (heap c) (done c)))).

(** [checkAndNotify()], lines 150-158. *)
Definition checkAndNotify : M unit :=
  let* c := get_comp in
  let* hasPendingTasks := some_pending (tasks c) in
  if hasPendingTasks
  then lift_fn (np_show (js "You have pending tasks in the Todo list!"))
  else st_ret tt.

(** The array a stored entry is read into, lines 29-37. *)
Definition restore (key : jsstr) (assign : list loc -> todo -> todo) : M unit :=
  let* p := st_get in
  match getItem key (env p) with
  | Some s => if truthy s then let* xs := parse_stored s in update_comp (assign xs)
              else st_ret tt
  | None => st_ret tt
  end.

(** [ngOnInit()], lines 23-49. *)
Definition ngOnInit : M unit :=
  let* _ := update_comp (set_todoForm (Some (Some []))) in
  let* _ := restore (js "tasks") set_tasks in
  let* _ := restore (js "done") set_done in
  let* _ := lift_fn np_request in
  let* _ := checkAndNotify in
  let* c := get_comp in
  let* id := lift (setInterval (notificationInterval c * 60000)) in
  update_comp (set_intervalId (Some id)).

(** [addTask()], lines 51-69. *)
Definition addTask : M unit :=
  let* c := get_comp in
  match todoForm c with
  | None => st_throw TypeError
  | Some item =>
      let* x := alloc (ITask.mk item false false) in
      let* _ := update_comp (fun c => set_tasks (js_push x (tasks c)) c) in
      let* _ := updateLocalStorage in
      let* _ := update_comp (set_todoForm (Some None)) in
      let* c := get_comp in
      let* hasPendingTasks := some_pending (tasks c) in
      if hasPendingTasks
      then lift_fn (np_show (js "New Task added: " ++ desc_text item))
      else st_ret tt
  end.

(** [editTask(task)], lines 71-76; [answer] is what [prompt] returned. *)
Definition editTask (task : loc) (answer : option jsstr) : M unit :=
  let* t := deref task in
  let* _ := write task (ITask.mk (prompt_or answer (ITask.description t))
                                 (ITask.done t) (ITask.editing t)) in
  updateLocalStorage.

(** [deleteTask(task, list)], lines 78-97: the selected array is
    spliced in place; the default case splices a fresh empty array. *)
Definition deleteTask (task : loc) (list : jsstr) : M unit :=
  let* c := get_comp in
  let sel := select_list list in
  let targetList := match sel with
                    | TargetTasks => tasks c
                    | TargetDone => done c
                    | TargetNone => []
                    end in
  let index := js_indexOf task targetList in
  if (index >? -1)%Z then
    let targetList' := snd (js_splice index 1 [] targetList) in
    let* _ := update_comp (fun c => match sel with
                                    | TargetTasks => set_tasks targetList' c
                                    | TargetDone => set_done targetList' c
                                    | TargetNone => c
                                    end) in
    updateLocalStorage
  else st_ret tt.

(** [drop(event)], lines 99-124. *)
Definition drop (event : drop_event) : M unit :=
  let* c := get_comp in
  let* _ :=
    if decide (previousContainer event = container event) then
      update_comp (set_data (container event)
        (moveItemInArray (data (container event) c) (previousIndex event) (currentIndex event)))
    else
      let '(src, dst) := transferArrayItem (data (previousContainer event) c)
                           (data (container event) c) (previousIndex event) (currentIndex event) in
      update_comp (fun c => set_data (container event) dst
                              (set_data (previousContainer event) src c)) in
  let* _ := updateLocalStorage in
  let* c := get_comp in
  let* hasPendingTasks := some_pending (tasks c) in
  if negb hasPendingTasks
  then lift_fn (np_show (js "All tasks completed!"))
  else st_ret tt.

(** [restartNotificationInterval()], lines 138-148. *)
Definition restartNotificationInterval : M unit :=
  let* c := get_comp in
  let* _ := match notificationIntervalId c with
            | Some id => lift (clearInterval id)
            | None => st_ret tt
            end in
  let* c := get_comp in
  let* id := lift (setInterval (notificationInterval c * 60000)) in
  update_comp (set_intervalId (Some id)).

(** [updateNotificationInterval()], lines 126-136. *)
Definition updateNotificationInterval : M unit :=
  let* c := get_comp in
  let* _ := update_comp (set_interval (coerce_interval (newNotificationInterval c))) in
  let* _ := restartNotificationInterval in
  update_comp (set_newInterval None).

End Methods.
