(* ===== verification/Samples.v ===== *)
(** * Sample states

    Concrete browsers and components on which the theorems of the later
    files are applied: a browser with room in storage and notifications
    granted, and components whose arrays share no object, one whose
    description needs escaping, one with two equal records that are
    different objects, one with a single pending task. *)

From Stdlib Require Import ZArith QArith.
From stdpp Require Import base list gmap strings.
From S2P Require Import Prelude Json Browser TodoComponent.

(** Nothing stored, 1000 code units of quota, no timer, permission granted. *)
Definition sample_browser : browser :=
  mkBrowser ∅ 1000 ∅ 1 true PermGranted 0 [] [].

(** The same browser with 100 code units of quota. *)
Definition sample_small_browser : browser :=
  mkBrowser ∅ 100 ∅ 1 true PermGranted 0 [] [].

Definition milk : ITask.t := ITask.mk (Some (js "Buy milk")) false false.

(** A description with a quote, a backslash, a surrogate pair and a
    newline. *)
Definition tricky : ITask.t := ITask.mk (Some [34; 92; 55357; 56832; 10]%Z) false false.

Definition mail : ITask.t := ITask.mk (Some (js "Send mail")) false false.

(** Two pending tasks and one done task; the form holds "Read". *)
Definition sample_todo : todo :=
  mkTodo (Some (Some (js "Read"))) {[1%positive := milk; 2%positive := tricky; 3%positive := mail]} 4
         [1%positive; 2%positive] [3%positive] 1 None None.

(** [tasks] refers to object 1; object 2 is an equal record. *)
Definition sample_alias : todo :=
  mkTodo (Some None) {[1%positive := milk; 2%positive := milk]} 3 [1%positive] [] 1 None None.

(** One pending task, one done task. *)
Definition sample_last : todo :=
  mkTodo (Some None) {[1%positive := milk; 2%positive := mail]} 3 [1%positive] [2%positive] 1 None None.

(** No pending task, two done tasks. *)
Definition sample_all_done : todo :=
  mkTodo (Some None) {[1%positive := milk; 2%positive := mail]} 3 [] [1%positive; 2%positive] 1 None None.
