(* ===== verification/TodoFacts.v ===== *)
(** * What each method of TodoComponent does

    The invariant of the component's heap ([wf_todo]), the contents
    [updateLocalStorage] writes ([snapshot]), and one lemma per method
    giving its effect on every branch: the arrays, the storage (with the
    QuotaExceededError paths), the notifications shown through the
    [NotificationPort], and the timers.  The theorems: what a successful
    [updateLocalStorage] writes reads back, a reload restores both
    arrays, and the second write can fail after the first succeeded. *)

From Stdlib Require Import ZArith QArith Qround Lia.
From stdpp Require Import base list gmap strings.
From S2P Require Import Prelude ArrayOps Json Browser NotificationService TodoComponent Samples.

(** ** Definitions *)

(** A description is [null] or a well-formed string. *)
Definition desc_wf (d : option jsstr) : Prop :=
  match d with Some s => wf_jsstr s | None => True end.

#[export] Instance desc_wf_dec d : Decision (desc_wf d).
Proof. destruct d; simpl; apply _. Defined.

(** Every reference in the two arrays points to a task object, no task
    is in both arrays or twice in one, [next_loc] is fresh, and every
    description is a well-formed string. *)
Record wf_todo (c : todo) : Prop := {
  wf_alloc : Forall (fun x => is_Some (heap c !! x)) (tasks c ++ done c);
  wf_nodup : NoDup (tasks c ++ done c);
  wf_fresh : map_Forall (fun x _ => (x < next_loc c)%positive) (heap c);
  wf_descr : map_Forall (fun _ t => desc_wf (ITask.description t)) (heap c);
}.

#[export] Instance wf_todo_dec c : Decision (wf_todo c).
Proof.
  destruct (decide (Forall (fun x => is_Some (heap c !! x)) (tasks c ++ done c) /\
                    NoDup (tasks c ++ done c) /\
                    map_Forall (fun x _ => (x < next_loc c)%positive) (heap c) /\
                    map_Forall (fun _ t => desc_wf (ITask.description t)) (heap c)))
    as [(?&?&?&?)|Hn]; [left; by constructor|right; intros []; naive_solver].
Defined.

(** The value of [tasks.some((task) => !task.done)] on allocated arrays. *)
Definition has_pending (h : gmap loc ITask.t) (l : list loc) : bool :=
  existsb (fun x => match h !! x with Some t => negb (ITask.done t) | None => false end) l.

(** The storage after the first and after both [setItem] calls of
    [updateLocalStorage]. *)
Definition snapshot1 (c : todo) (m : gmap jsstr jsstr) : gmap jsstr jsstr :=
  <[js "tasks" := stringify (array_json (heap c) (tasks c))]> m.
Definition snapshot (c : todo) (m : gmap jsstr jsstr) : gmap jsstr jsstr :=
  <[js "done" := stringify (array_json (heap c) (done c))]> (snapshot1 c m).

(** Both writes fit in the quota. *)
Definition persist_fits (c : todo) (b : browser) : Prop :=
  storage_used (snapshot1 c (storage b)) <= quota b /\
  storage_used (snapshot c (storage b)) <= quota b.

#[export] Instance persist_fits_dec c b : Decision (persist_fits c b).
Proof. unfold persist_fits. apply _. Defined.

(** The task records an array refers to. *)
Definition view (h : gmap loc ITask.t) (l : list loc) : list ITask.t :=
  omap (fun x => h !! x) l.

(** What a reload reads from one entry of local storage: the task
    records of the JSON array; [[]] when the entry is absent or empty,
    the [if (storedTasks)] of lines 30 and 35 leaving the array as the
    constructor made it; [None] when [JSON.parse] throws or the value is
    not an [ITask[]]. *)
Definition stored_view (m : gmap jsstr jsstr) (key : jsstr) : option (list ITask.t) :=
  match m !! key with
  | Some s => if truthy s then json_parse s ≫= decode_tasks else Some []
  | None => Some []
  end.

(** The component after the first two statements of [addTask]: a new
    task object pushed on [tasks]. *)
Definition pushed (item : option jsstr) (c : todo) : todo :=
  set_tasks (tasks c ++ [next_loc c])
    (set_heap (<[next_loc c := ITask.mk item false false]> (heap c)) (Pos.succ (next_loc c)) c).

(** The object [task] after [editTask] read [answer] from the prompt. *)
Definition edited (answer : option jsstr) (t : ITask.t) : ITask.t :=
  ITask.mk (prompt_or answer (ITask.description t)) (ITask.done t) (ITask.editing t).

(** The array the [list] argument of [deleteTask] selects. *)
Definition target_array (sel : target) (c : todo) : list loc :=
  match sel with TargetTasks => tasks c | TargetDone => done c | TargetNone => [] end.

(** The component after the splice of [deleteTask]. *)
Definition deleted (task : loc) (list : jsstr) (c : todo) : todo :=
  let sel := select_list list in
  let targetList := target_array sel c in
  let targetList' := snd (js_splice (js_indexOf task targetList) 1 [] targetList) in
  match sel with
  | TargetTasks => set_tasks targetList' c
  | TargetDone => set_done targetList' c
  | TargetNone => c
  end.

(** The component after the CDK helper of [drop]. *)
Definition dropped (event : drop_event) (c : todo) : todo :=
  if decide (previousContainer event = container event) then
    set_data (container event)
      (moveItemInArray (data (container event) c) (previousIndex event) (currentIndex event)) c
  else
    let '(src, dst) := transferArrayItem (data (previousContainer event) c)
                         (data (container event) c) (previousIndex event) (currentIndex event) in
    set_data (container event) dst (set_data (previousContainer event) src c).

(** The objects [JSON.parse] builds, allocated in order from [n]. *)
Fixpoint alloc_heap (h : gmap loc ITask.t) (n : loc) (ts : list ITask.t)
    : gmap loc ITask.t * loc * list loc :=
  match ts with
  | [] => (h, n, [])
  | t :: ts' =>
      let '(h', n', xs) := alloc_heap (<[n := t]> h) (Pos.succ n) ts' in (h', n', n :: xs)
  end.

(** The browser after the clearInterval of [restartNotificationInterval]. *)
Definition cleared (c : todo) (b : browser) : browser :=
  match notificationIntervalId c with
  | Some id => set_timers (delete id (timers b)) (next_timer b) b
  | None => b
  end.

(** ** The monad on pages *)

Lemma page_eta p : mkPage (comp p) (env p) = p.
Proof. by destruct p. Qed.

Lemma st_bind_get_comp {A} (k : todo -> M A) p : st_bind get_comp k p = k (comp p) p.
Proof. done. Qed.

Lemma st_bind_update_comp {A} f (k : unit -> M A) p :
  st_bind (update_comp f) k p = k tt (mkPage (f (comp p)) (env p)).
Proof. done. Qed.

Lemma st_bind_lift_fn {A} f (k : unit -> M A) p :
  st_bind (lift_fn f) k p = k tt (mkPage (comp p) (f (env p))).
Proof. done. Qed.

Lemma lift_setItem k v c b :
  lift (setItem k v) (mkPage c b) =
  if decide (storage_used (<[k := v]> (storage b)) <= quota b)
  then (Ok tt, mkPage c (set_storage (<[k := v]> (storage b)) b))
  else (Throw QuotaExceededError, mkPage c b).
Proof. unfold lift, setItem. simpl. by case_decide. Qed.

(** [updateLocalStorage] on every branch: both writes done, only the
    first one (the [tasks] entry is new and the [done] entry is stale),
    or none. *)
Lemma updateLocalStorage_spec `{NotificationPort} p :
  updateLocalStorage p =
  if decide (storage_used (snapshot1 (comp p) (storage (env p))) <= quota (env p)) then
    if decide (storage_used (snapshot (comp p) (storage (env p))) <= quota (env p)) then
      (Ok tt, mkPage (comp p) (set_storage (snapshot (comp p) (storage (env p))) (env p)))
    else (Throw QuotaExceededError,
          mkPage (comp p) (set_storage (snapshot1 (comp p) (storage (env p))) (env p)))
  else (Throw QuotaExceededError, p).
Proof.
  destruct p as [c b]. unfold updateLocalStorage, snapshot, snapshot1.
  rewrite st_bind_get_comp.
  unfold st_bind at 1. rewrite lift_setItem. cbn [comp env].
  case_decide; cbv beta iota; [|done].
  rewrite st_bind_get_comp.
  rewrite lift_setItem. cbn [comp env storage set_storage quota]. by case_decide.
Qed.

Lemma updateLocalStorage_fits `{NotificationPort} c b :
  persist_fits c b ->
  updateLocalStorage (mkPage c b) = (Ok tt, mkPage c (set_storage (snapshot c (storage b)) b)).
Proof.
  intros [H1 H2]. rewrite updateLocalStorage_spec. simpl. by rewrite !decide_True.
Qed.

Lemma updateLocalStorage_comp `{NotificationPort} p : comp (snd (updateLocalStorage p)) = comp p.
Proof. rewrite updateLocalStorage_spec. by repeat case_decide. Qed.

Lemma updateLocalStorage_store_rest `{NotificationPort} p :
  let b' := env (snd (updateLocalStorage p)) in
  timers b' = timers (env p) /\ next_timer b' = next_timer (env p) /\
  bodies b' = bodies (env p) /\ quota b' = quota (env p).
Proof. rewrite updateLocalStorage_spec. by repeat case_decide. Qed.

(** [some_pending] neither throws nor changes anything on allocated
    references. *)
Lemma some_pending_ok (l : list loc) p :
  Forall (fun x => is_Some (heap (comp p) !! x)) l ->
  some_pending l p = (Ok (has_pending (heap (comp p)) l), p).
Proof.
  induction 1 as [|x l [t Ht] _ IH]; [done|].
  cbv beta iota delta [some_pending st_bind deref st_ret]. fold some_pending.
  rewrite Ht. unfold has_pending. simpl. rewrite Ht.
  destruct (ITask.done t); simpl; [apply IH|done].
Qed.

Lemma has_pending_app h l1 l2 :
  has_pending h (l1 ++ l2) = has_pending h l1 || has_pending h l2.
Proof. apply existsb_app. Qed.

Lemma has_pending_nil h : has_pending h [] = false.
Proof. done. Qed.

#[export] Hint Rewrite has_pending_app has_pending_nil : todo_rw.

Lemma st_bind_alloc {A} t (k : loc -> M A) c b :
  st_bind (alloc t) k (mkPage c b) =
  k (next_loc c) (mkPage (set_heap (<[next_loc c := t]> (heap c)) (Pos.succ (next_loc c)) c) b).
Proof. done. Qed.

Lemma st_bind_some_pending {A} l (k : bool -> M A) p :
  Forall (fun x => is_Some (heap (comp p) !! x)) l ->
  st_bind (some_pending l) k p = k (has_pending (heap (comp p)) l) p.
Proof. intros Hl. unfold st_bind at 1. by rewrite some_pending_ok. Qed.

Lemma st_bind_updateLocalStorage `{NotificationPort} {A} (k : unit -> M A) p :
  st_bind updateLocalStorage k p =
  match updateLocalStorage p with
  | (Ok _, p') => k tt (mkPage (comp p) (env p'))
  | (Throw e, p') => (Throw e, p')
  end.
Proof.
  unfold st_bind. pose proof (updateLocalStorage_comp p) as Hc.
  destruct (updateLocalStorage p) as [[[]|e] [c' b']]; simpl in *; by subst.
Qed.

Lemma alloc_is_Some (h : gmap loc ITask.t) x t (l : list loc) :
  Forall (fun y => is_Some (h !! y)) l ->
  Forall (fun y => is_Some (<[x := t]> h !! y)) (l ++ [x]).
Proof.
  intros Hl. apply Forall_app. split.
  - eapply Forall_impl; [done|]. intros y Hy. rewrite lookup_insert_is_Some'. by right.
  - constructor; [|done]. rewrite lookup_insert_eq. by eexists.
Qed.

Lemma wf_tasks_alloc c : wf_todo c -> Forall (fun x => is_Some (heap c !! x)) (tasks c).
Proof. intros Hw. pose proof (wf_alloc _ Hw) as Ha. by apply Forall_app in Ha as [? _]. Qed.

Lemma wf_done_alloc c : wf_todo c -> Forall (fun x => is_Some (heap c !! x)) (done c).
Proof. intros Hw. pose proof (wf_alloc _ Hw) as Ha. by apply Forall_app in Ha as [_ ?]. Qed.

#[export] Hint Resolve wf_tasks_alloc wf_done_alloc alloc_is_Some : todo.


(** [addTask] on a built form: the new task is pushed, the arrays are
    persisted, and only if both writes succeed is the form reset and the
    "New Task added" notification requested. *)
Lemma addTask_spec `{NotificationPort} c b item :
  todoForm c = Some item -> wf_todo c ->
  addTask (mkPage c b) =
    match updateLocalStorage (mkPage (pushed item c) b) with
    | (Ok _, p') => (Ok tt, mkPage (set_todoForm (Some None) (pushed item c))
                              (np_show (js "New Task added: " ++ desc_text item) (env p')))
    | (Throw e, p') => (Throw e, p')
    end.
Proof.
  intros Hf Hw. unfold addTask. rewrite st_bind_get_comp. cbn [comp]. rewrite Hf.
  rewrite st_bind_alloc, st_bind_update_comp, st_bind_updateLocalStorage. cbn [comp env].
  change (set_tasks ?a ?b) with (pushed item c).
  destruct (updateLocalStorage (mkPage (pushed item c) b)) as [[[]|e] p']; [|done].
  rewrite st_bind_update_comp, st_bind_get_comp. cbn [comp env].
  rewrite st_bind_some_pending by (simpl; auto with todo).
  simpl. rewrite has_pending_app. unfold has_pending at 2. simpl.
  rewrite lookup_insert_eq, orb_true_r. done.
Qed.

Lemma addTask_form_undefined `{NotificationPort} c b :
  todoForm c = None -> addTask (mkPage c b) = (Throw TypeError, mkPage c b).
Proof. intros Hf. unfold addTask. rewrite st_bind_get_comp. cbn [comp]. by rewrite Hf. Qed.

Lemma editTask_spec `{NotificationPort} c b task answer t :
  heap c !! task = Some t ->
  editTask task answer (mkPage c b) =
  updateLocalStorage (mkPage (set_heap (<[task := edited answer t]> (heap c)) (next_loc c) c) b).
Proof. intros Ht. unfold editTask, st_bind at 1, deref. cbn [comp]. by rewrite Ht. Qed.

Lemma editTask_dangling `{NotificationPort} c b task answer :
  heap c !! task = None -> editTask task answer (mkPage c b) = (Throw TypeError, mkPage c b).
Proof. intros Ht. unfold editTask, st_bind at 1, deref. cbn [comp]. by rewrite Ht. Qed.

Lemma deleteTask_spec `{NotificationPort} c b task list :
  deleteTask task list (mkPage c b) =
  if (js_indexOf task (target_array (select_list list) c) >? -1)%Z
  then updateLocalStorage (mkPage (deleted task list c) b)
  else (Ok tt, mkPage c b).
Proof.
  unfold deleteTask, deleted. rewrite st_bind_get_comp. cbn [comp].
  unfold target_array. by destruct (_ >? _)%Z.
Qed.

Lemma drop_spec `{NotificationPort} c b event :
  Forall (fun x => is_Some (heap c !! x)) (tasks (dropped event c)) ->
  heap (dropped event c) = heap c ->
  drop event (mkPage c b) =
  match updateLocalStorage (mkPage (dropped event c) b) with
  | (Ok _, p') =>
      (Ok tt, mkPage (dropped event c)
                (if has_pending (heap c) (tasks (dropped event c)) then env p'
                 else np_show (js "All tasks completed!") (env p')))
  | (Throw e, p') => (Throw e, p')
  end.
Proof.
  intros Ha Hh. unfold drop. rewrite st_bind_get_comp. cbn [comp].
  assert (st_bind (if decide (previousContainer event = container event) then
       update_comp (set_data (container event)
         (moveItemInArray (data (container event) c) (previousIndex event) (currentIndex event)))
     else let '(src, dst) := transferArrayItem (data (previousContainer event) c)
              (data (container event) c) (previousIndex event) (currentIndex event) in
          update_comp (fun c0 => set_data (container event) dst (set_data (previousContainer event) src c0)))
     (fun _ => let* _ := updateLocalStorage in
               let* c0 := get_comp in
               let* hasPendingTasks := some_pending (tasks c0) in
               if negb hasPendingTasks then lift_fn (np_show (js "All tasks completed!"))
               else st_ret tt) (mkPage c b) =
    st_bind updateLocalStorage (fun _ =>
               let* c0 := get_comp in
               let* hasPendingTasks := some_pending (tasks c0) in
               if negb hasPendingTasks then lift_fn (np_show (js "All tasks completed!"))
               else st_ret tt) (mkPage (dropped event c) b)) as ->.
  { unfold dropped. case_decide; [done|]. by destruct (transferArrayItem _ _ _ _). }
  rewrite st_bind_updateLocalStorage. cbn [comp env].
  destruct (updateLocalStorage (mkPage (dropped event c) b)) as [[[]|e] p']; [|done].
  rewrite st_bind_get_comp. cbn [comp]. rewrite st_bind_some_pending by (cbn [comp]; by rewrite Hh).
  cbn [comp]. rewrite Hh. by destruct (has_pending _ _).
Qed.

Lemma checkAndNotify_spec `{NotificationPort} c b :
  Forall (fun x => is_Some (heap c !! x)) (tasks c) ->
  checkAndNotify (mkPage c b) =
  (Ok tt, mkPage c (if has_pending (heap c) (tasks c)
                    then np_show (js "You have pending tasks in the Todo list!") b else b)).
Proof.
  intros Ha. unfold checkAndNotify. rewrite st_bind_get_comp.
  rewrite st_bind_some_pending by done. cbn [comp]. by destruct (has_pending _ _).
Qed.

Lemma st_bind_lift_setInterval {A} t (k : positive -> M A) c b :
  st_bind (lift (setInterval t)) k (mkPage c b) =
  k (next_timer b) (mkPage c (set_timers (<[next_timer b := timer_delay t]> (timers b))
                                (Pos.succ (next_timer b)) b)).
Proof. done. Qed.

(** [restartNotificationInterval] clears the timer it knows of and
    starts one at the current period. *)
Lemma restartNotificationInterval_spec `{NotificationPort} c b :
  let b1 := cleared c b in
  restartNotificationInterval (mkPage c b) =
  (Ok tt, mkPage (set_intervalId (Some (next_timer b1)) c)
            (set_timers (<[next_timer b1 := timer_delay (notificationInterval c * 60000)]> (timers b1))
               (Pos.succ (next_timer b1)) b1)).
Proof.
  unfold restartNotificationInterval, cleared. rewrite st_bind_get_comp. cbn [comp].
  destruct (notificationIntervalId c) as [id|]; reflexivity.
Qed.

Lemma updateNotificationInterval_spec `{NotificationPort} c b :
  let c1 := set_interval (coerce_interval (newNotificationInterval c)) c in
  let b1 := cleared c1 b in
  updateNotificationInterval (mkPage c b) =
  (Ok tt, mkPage (set_newInterval None (set_intervalId (Some (next_timer b1)) c1))
            (set_timers (<[next_timer b1 := timer_delay (notificationInterval c1 * 60000)]> (timers b1))
               (Pos.succ (next_timer b1)) b1)).
Proof.
  unfold updateNotificationInterval. rewrite st_bind_get_comp, st_bind_update_comp.
  unfold st_bind at 1. cbn [comp env]. rewrite restartNotificationInterval_spec. reflexivity.
Qed.

Lemma alloc_all_spec ts c b :
  alloc_all ts (mkPage c b) =
  let '(h', n', xs) := alloc_heap (heap c) (next_loc c) ts in (Ok xs, mkPage (set_heap h' n' c) b).
Proof.
  revert c. induction ts as [|t ts IH]; intros c; [by destruct c|].
  cbn [alloc_all]. rewrite st_bind_alloc. unfold st_bind at 1. rewrite IH. cbn [alloc_heap heap next_loc set_heap].
  by destruct (alloc_heap _ _ ts) as [[h' n'] xs].
Qed.

(** What [JSON.parse] allocates: fresh references in increasing order,
    holding the parsed records, the older objects untouched. *)
Lemma alloc_heap_props h n ts :
  let '(h', n', xs) := alloc_heap h n ts in
  (forall y, (y < n)%positive -> h' !! y = h !! y) /\ (n <= n')%positive /\
  Forall (fun x => (n <= x < n')%positive) xs /\ NoDup xs /\ view h' xs = ts /\
  (forall y, is_Some (h' !! y) -> is_Some (h !! y) \/ (n <= y < n')%positive) /\
  Forall (fun x => is_Some (h' !! x)) xs.
Proof.
  revert h n. induction ts as [|t ts IH]; intros h n; simpl.
  { split_and!; [done|lia|constructor|constructor|done| |constructor]. intros y Hy. by left. }
  specialize (IH (<[n := t]> h) (Pos.succ n)).
  destruct (alloc_heap _ _ ts) as [[h' n'] xs].
  destruct IH as (Hold & Hle & Hxs & Hnd & Hv & Hdom & Hal).
  split_and!.
  - intros y Hy. rewrite Hold by lia. rewrite lookup_insert_ne by lia. done.
  - lia.
  - constructor; [lia|]. eapply Forall_impl; [exact Hxs|]. intros x Hx. simpl in Hx. lia.
  - constructor; [|done]. intros Hin. eapply Forall_forall in Hxs; [|done]. lia.
  - unfold view. simpl. rewrite Hold by lia. rewrite lookup_insert_eq. simpl. by f_equal.
  - intros y Hy. destruct (Hdom y Hy) as [Hy'|Hy']; [|right; lia].
    rewrite lookup_insert_is_Some' in Hy'. destruct Hy' as [->|Hy']; [right; lia|by left].
  - constructor; [|done]. rewrite Hold by lia. rewrite lookup_insert_eq. by eexists.
Qed.

Lemma restore_spec `{NotificationPort} key assign c b :
  restore key assign (mkPage c b) =
  match getItem key b with
  | Some s =>
      if truthy s then
        match json_parse s with
        | None => (Throw SyntaxError, mkPage c b)
        | Some v =>
            match decode_tasks v with
            | None => (Throw IllTypedStorage, mkPage c b)
            | Some ts =>
                let '(h', n', xs) := alloc_heap (heap c) (next_loc c) ts in
                (Ok tt, mkPage (assign xs (set_heap h' n' c)) b)
            end
        end
      else (Ok tt, mkPage c b)
  | None => (Ok tt, mkPage c b)
  end.
Proof.
  unfold restore, st_bind at 1, st_get. cbn [env].
  destruct (getItem key b) as [s|]; [|done]. destruct (truthy s); [|done].
  unfold parse_stored. destruct (json_parse s) as [v|]; [|done].
  destruct (decode_tasks v) as [ts|]; [|done].
  unfold st_bind at 1. rewrite alloc_all_spec. by destruct (alloc_heap _ _ _) as [[h' n'] xs].
Qed.

(** ** Encoding and decoding the task arrays *)

Lemma decode_task_json t : decode_task (task_json t) = Some t.
Proof. by destruct t as [[d|] [] []]. Qed.

Lemma array_json_alloc h l :
  Forall (fun x => is_Some (h !! x)) l ->
  array_json h l = JArray (map task_json (view h l)).
Proof.
  unfold array_json, view. intros Hl. f_equal.
  induction Hl as [|x l [t Ht] _ IH]; [done|]. simpl. rewrite Ht. simpl. by f_equal.
Qed.

Lemma decode_tasks_json ts : decode_tasks (JArray (map task_json ts)) = Some ts.
Proof.
  unfold decode_tasks. apply (mapM_fmap_Some decode_task task_json), decode_task_json.
Qed.

Lemma task_json_wf t :
  desc_wf (ITask.description t) -> json_wf (task_json t).
Proof.
  intros Hd. unfold task_json. constructor.
  repeat constructor; simpl; try done; try (apply Forall_forall; intros c Hc;
    repeat (destruct Hc as [<-|Hc]; [unfold code_unit; lia|]); inversion Hc).
  destruct t as [[d|] ? ?]; simpl in *; constructor; done.
Qed.

(** The array [updateLocalStorage] serialises is a JSON value of
    well-formed strings; a dangling reference becomes [null]. *)
Lemma array_json_wf h l :
  map_Forall (fun _ t => desc_wf (ITask.description t)) h -> json_wf (array_json h l).
Proof.
  intros Hh. unfold array_json. constructor. apply Forall_fmap, Forall_forall. intros x _. simpl.
  destruct (h !! x) as [t|] eqn:Ht; [apply task_json_wf, (Hh x t Ht)|constructor].
Qed.

Lemma view_descr_wf h l :
  map_Forall (fun _ t => desc_wf (ITask.description t)) h ->
  Forall (fun t => desc_wf (ITask.description t)) (view h l).
Proof.
  intros Hh. unfold view. induction l as [|x l IH]; simpl; [done|].
  destruct (h !! x) as [t|] eqn:Ht; [|done]. constructor; [|done]. by apply (Hh x).
Qed.

(** The text [updateLocalStorage] writes for an array parses and decodes
    back to the records the array refers to. *)
Lemma stored_array_roundtrip h l :
  Forall (fun x => is_Some (h !! x)) l ->
  map_Forall (fun _ t => desc_wf (ITask.description t)) h ->
  json_parse (stringify (array_json h l)) ≫= decode_tasks = Some (view h l).
Proof.
  intros Hl Hh. rewrite json_parse_stringify.
  - rewrite array_json_alloc by done. apply decode_tasks_json.
  - rewrite array_json_alloc by done. constructor. apply Forall_fmap.
    eapply Forall_impl; [by apply view_descr_wf|]. intros t Ht. by apply task_json_wf.
Qed.

Lemma truthy_stringify_array h l : truthy (stringify (array_json h l)) = true.
Proof. done. Qed.

Lemma snapshot_tasks c m :
  snapshot c m !! js "tasks" = Some (stringify (array_json (heap c) (tasks c))).
Proof. unfold snapshot, snapshot1. rewrite lookup_insert_ne by done. apply lookup_insert_eq. Qed.

Lemma snapshot_done c m :
  snapshot c m !! js "done" = Some (stringify (array_json (heap c) (done c))).
Proof. unfold snapshot. apply lookup_insert_eq. Qed.

Lemma view_agree (h h' : gmap loc ITask.t) l :
  Forall (fun x => h' !! x = h !! x) l -> view h' l = view h l.
Proof.
  intros Hl. unfold view. apply list_omap_ext, Forall_Forall2_diag.
  eapply Forall_impl; [exact Hl|]. done.
Qed.

Lemma stored_view_snapshot_tasks c m : wf_todo c ->
  stored_view (snapshot c m) (js "tasks") = Some (view (heap c) (tasks c)).
Proof.
  intros Hw. unfold stored_view. rewrite snapshot_tasks, truthy_stringify_array.
  apply stored_array_roundtrip; [auto with todo|apply Hw].
Qed.

Lemma stored_view_snapshot_done c m : wf_todo c ->
  stored_view (snapshot c m) (js "done") = Some (view (heap c) (done c)).
Proof.
  intros Hw. unfold stored_view. rewrite snapshot_done, truthy_stringify_array.
  apply stored_array_roundtrip; [auto with todo|apply Hw].
Qed.

(** [restore] of an entry that reads as [l], into an empty array: the
    records of [l] are allocated and the array refers to them. *)
Lemma restore_view `{NotificationPort} key k c b l : data k c = [] ->
  stored_view (storage b) key = Some l ->
  restore key (set_data k) (mkPage c b) =
  let '(h', n', xs) := alloc_heap (heap c) (next_loc c) l in
  (Ok tt, mkPage (set_data k xs (set_heap h' n' c)) b).
Proof.
  intros Hk Hv. rewrite restore_spec. unfold getItem, stored_view in *.
  destruct (storage b !! key) as [s|]; [destruct (truthy s)|];
    [destruct (json_parse s); simpl in Hv; [by rewrite Hv|done]| |];
    injection Hv as <-; destruct c, k; simpl in *; by subst.
Qed.

(** [restore] of an entry that does not read throws and changes nothing. *)
Lemma restore_throws `{NotificationPort} key assign c b : stored_view (storage b) key = None ->
  exists e, restore key assign (mkPage c b) = (Throw e, mkPage c b).
Proof.
  intros Hv. rewrite restore_spec. unfold getItem, stored_view in *.
  destruct (storage b !! key) as [s|]; [|done]. destruct (truthy s); [|done].
  destruct (json_parse s) as [v|]; [simpl in Hv; rewrite Hv|]; by eexists.
Qed.

(** A reload over any storage whose two entries read as [l1] and [l2]
    completes, writes nothing, and gives arrays with these records. *)
Lemma ngOnInit_reload `{NotificationPort} b l1 l2 :
  stored_view (storage b) (js "tasks") = Some l1 -> stored_view (storage b) (js "done") = Some l2 ->
  exists c' b', ngOnInit (mkPage constructor b) = (Ok tt, mkPage c' b') /\ storage b' = storage b /\
    view (heap c') (tasks c') = l1 /\ view (heap c') (done c') = l2.
Proof.
  intros H1 H2. unfold ngOnInit. rewrite st_bind_update_comp. cbn [comp env].
  change (restore (js "tasks") set_tasks) with (restore (js "tasks") (set_data CTasks)).
  change (restore (js "done") set_done) with (restore (js "done") (set_data CDone)).
  unfold st_bind at 1. rewrite (restore_view _ CTasks _ _ l1) by done.
  cbn [heap next_loc set_todoForm constructor].
  pose proof (alloc_heap_props ∅ 1 l1) as P1.
  destruct (alloc_heap _ _ l1) as [[h1 n1] xs1].
  destruct P1 as (_ & Hle1 & Hr1 & _ & Hv1 & _ & Ha1). cbv iota beta.
  unfold st_bind at 1. rewrite (restore_view _ CDone _ _ l2) by done.
  cbn [heap next_loc set_data set_tasks set_heap].
  pose proof (alloc_heap_props h1 n1 l2) as P2.
  destruct (alloc_heap _ _ l2) as [[h2 n2] xs2].
  destruct P2 as (Hold2 & _ & _ & _ & Hv2 & _ & Ha2). cbv iota beta.
  assert (Forall (fun x => h2 !! x = h1 !! x) xs1) as Hag.
  { eapply Forall_impl; [exact Hr1|]. intros x Hx. apply Hold2. simpl in Hx. lia. }
  rewrite st_bind_lift_fn. unfold st_bind at 1.
  rewrite checkAndNotify_spec.
  2: { cbn [comp set_data set_done set_heap set_tasks heap tasks].
       eapply Forall_impl; [exact (proj2 (Forall_and _ _) (conj Ha1 Hag))|].
       intros x [Hx Hx']. simpl in *. by rewrite Hx'. }
  cbv iota beta. rewrite st_bind_get_comp. cbn [comp].
  rewrite st_bind_lift_setInterval. eexists _, _. split; [reflexivity|].
  cbn [comp heap tasks done storage set_timers set_intervalId set_data set_done set_heap set_tasks].
  split_and!; [|by rewrite (view_agree h1 h2 xs1 Hag)|done].
  cbn [env storage set_timers]. destruct (has_pending _ _); [rewrite (proj1 (np_show_store _ _))|];
    apply np_request_store.
Qed.

(** A reload that completes read both entries. *)
Lemma ngOnInit_read `{NotificationPort} b p : ngOnInit (mkPage constructor b) = (Ok tt, p) ->
  is_Some (stored_view (storage b) (js "tasks")) /\ is_Some (stored_view (storage b) (js "done")).
Proof.
  intros E. unfold ngOnInit in E. rewrite st_bind_update_comp in E. cbn [comp env] in E.
  change (restore (js "tasks") set_tasks) with (restore (js "tasks") (set_data CTasks)) in E.
  change (restore (js "done") set_done) with (restore (js "done") (set_data CDone)) in E.
  unfold st_bind at 1 in E.
  destruct (stored_view (storage b) (js "tasks")) as [l1|] eqn:H1;
    [|destruct (restore_throws (js "tasks") (set_data CTasks) (set_todoForm (Some (Some [])) constructor) b H1)
        as [e He]; by rewrite He in E].
  rewrite (restore_view _ CTasks _ _ l1) in E by done.
  destruct (alloc_heap _ _ l1) as [[h1 n1] xs1]. cbv iota beta in E. unfold st_bind at 1 in E.
  destruct (stored_view (storage b) (js "done")) as [l2|] eqn:H2; [by split; eexists|].
  destruct (restore_throws (js "done") (set_data CDone) (set_data CTasks xs1 (set_heap h1 n1
    (set_todoForm (Some (Some [])) constructor))) b H2) as [e He]. by rewrite He in E.
Qed.

(** C3: Reloading the page: [ngOnInit] on a new component, over storage
    that [updateLocalStorage] wrote from [c], succeeds and gives back the
    two arrays of [c], record for record and in order. *)
Theorem ngOnInit_restores `{NotificationPort} c m b :
  wf_todo c -> storage b = snapshot c m ->
  exists c' b', ngOnInit (mkPage constructor b) = (Ok tt, mkPage c' b') /\
    view (heap c') (tasks c') = view (heap c) (tasks c) /\
    view (heap c') (done c') = view (heap c) (done c).
Proof.
  intros Hw Hs.
  destruct (ngOnInit_reload b (view (heap c) (tasks c)) (view (heap c) (done c))) as (c' & b' & E & _ & H1 & H2);
    rewrite ?Hs; [by apply stored_view_snapshot_tasks|by apply stored_view_snapshot_done|].
  by exists c', b'.
Qed.

(** C22: When the [tasks] entry fits and the [done] entry does not,
    [updateLocalStorage] throws QuotaExceededError after the first write:
    storage holds the new [tasks] and the old [done]. *)
Theorem updateLocalStorage_partial `{NotificationPort} c b :
  storage_used (snapshot1 c (storage b)) <= quota b ->
  ~ storage_used (snapshot c (storage b)) <= quota b ->
  updateLocalStorage (mkPage c b) =
    (Throw QuotaExceededError, mkPage c (set_storage (snapshot1 c (storage b)) b)).
Proof.
  intros H1 H2. rewrite updateLocalStorage_spec. simpl.
  rewrite decide_True by done. by rewrite decide_False.
Qed.

(** C4: What a successful [updateLocalStorage] writes reads back: each
    entry, through [getItem], [JSON.parse] and the reading of an
    [ITask[]], gives the records of its array in order. *)
Theorem updateLocalStorage_roundtrip `{NotificationPort} c b p' :
  wf_todo c -> updateLocalStorage (mkPage c b) = (Ok tt, p') ->
  ((getItem (js "tasks") (env p') ≫= json_parse) ≫= decode_tasks) = Some (view (heap c) (tasks c)) /\
  ((getItem (js "done") (env p') ≫= json_parse) ≫= decode_tasks) = Some (view (heap c) (done c)).
Proof.
  intros Hw Hu. rewrite updateLocalStorage_spec in Hu. simpl in Hu.
  destruct (decide _); [|done]. destruct (decide _); [|done]. injection Hu as <-.
  unfold getItem. simpl. rewrite snapshot_tasks, snapshot_done. simpl.
  split; apply stored_array_roundtrip; auto with todo; apply Hw.
Qed.

(** ** Witnesses *)

(** C28: [JSON.parse] in [ngOnInit] never gives up for lack of fuel: it
    throws a SyntaxError exactly when no amount of fuel parses the
    stored text to a value followed only by white space. *)
Theorem parse_stored_fuel c b s :
  fst (parse_stored s (mkPage c b)) = Throw SyntaxError <->
  (forall n v r, parse_value n s = Some (v, r) -> skip_ws r <> []).
Proof.
  unfold parse_stored. split.
  - intros H n v r E Hr. rewrite (json_parse_complete n s v r E Hr) in H.
    destruct (decode_tasks v) as [ts|]; [|done].
    rewrite alloc_all_spec in H. by destruct (alloc_heap _ _ _) as [[h' n'] xs].
  - intros H. unfold json_parse.
    destruct (parse_value _ s) as [[v r]|] eqn:E; [|done].
    destruct (skip_ws r) eqn:Er; [|done]. by destruct (H _ _ _ E).
Qed.

Lemma ngOnInit_restores_witness :
  let b := set_storage (snapshot sample_todo ∅) sample_browser in
  wf_todo sample_todo /\ storage b = snapshot sample_todo ∅ /\
  exists c' b', ngOnInit (mkPage constructor b) = (Ok tt, mkPage c' b') /\
    view (heap c') (tasks c') = [milk; tricky] /\ view (heap c') (done c') = [mail].
Proof.
  intros b. assert (wf_todo sample_todo) as Hw by decide_true.
  split; [exact Hw|]. split; [reflexivity|].
  destruct (ngOnInit_restores sample_todo ∅ b Hw eq_refl) as (c' & b' & H1 & H2 & H3).
  exists c', b'. split; [exact H1|]. split; [rewrite H2; reflexivity|rewrite H3; reflexivity].
Defined.

Lemma updateLocalStorage_partial_witness :
  storage_used (snapshot1 sample_last (storage sample_small_browser)) <= quota sample_small_browser /\
  ~ storage_used (snapshot sample_last (storage sample_small_browser)) <= quota sample_small_browser /\
  updateLocalStorage (mkPage sample_last sample_small_browser) =
    (Throw QuotaExceededError,
     mkPage sample_last (set_storage (snapshot1 sample_last (storage sample_small_browser)) sample_small_browser)).
Proof.
  assert (storage_used (snapshot1 sample_last (storage sample_small_browser)) = 62) as E1 by (vm_compute; reflexivity).
  assert (storage_used (snapshot sample_last (storage sample_small_browser)) = 124) as E2 by (vm_compute; reflexivity).
  assert (quota sample_small_browser = 100) as E3 by reflexivity.
  split; [lia|]. split; [lia|].
  apply updateLocalStorage_partial; lia.
Defined.

Lemma updateLocalStorage_roundtrip_witness :
  let p' := snd (updateLocalStorage (mkPage sample_todo sample_browser)) in
  wf_todo sample_todo /\ updateLocalStorage (mkPage sample_todo sample_browser) = (Ok tt, p') /\
  ((getItem (js "tasks") (env p') ≫= json_parse) ≫= decode_tasks) = Some [milk; tricky].
Proof.
  intros p'. assert (wf_todo sample_todo) as Hw by decide_true.
  assert (updateLocalStorage (mkPage sample_todo sample_browser) = (Ok tt, p')) as Hu
    by (vm_compute; reflexivity).
  split; [exact Hw|]. split; [exact Hu|].
  destruct (updateLocalStorage_roundtrip sample_todo sample_browser p' Hw Hu) as [-> _]. reflexivity.
Defined.
