(* ===== verification/TodoSpec.v ===== *)
(** * The component against the spec's Task Store

    [TaskStore] is the abstract specification of section 4.1 of the
    spec: two ordered lists of task records with add, edit, delete,
    reorder and transfer; an edit keeps the old text unless the new
    one is non-empty ([TaskStore.edit_text], from the spec, which
    [edited_edit_task] shows the code's [prompt_or] agrees with).  [abs] reads the component's arrays through its
    heap.  The theorems: every handler preserves [wf_todo] (each task is
    in exactly one array, once); every handler refines its [TaskStore]
    operation, whatever the outcome of the storage writes; [deleteTask]
    removes by identity; and [drop] rearranges the arrays of references
    as the CDK helpers' reference semantics say. *)

From Stdlib Require Import ZArith QArith Qround Lia.
From stdpp Require Import base list gmap strings.
From S2P Require Import Prelude ArrayOps Json Browser NotificationService TodoComponent Samples TodoFacts.

(** ** The abstract specification *)

Module TaskStore.
Definition state : Type := (list ITask.t * list ITask.t)%type.

Definition get (k : drop_list) (s : state) : list ITask.t :=
  match k with CTasks => s.1 | CDone => s.2 end.
Definition put (k : drop_list) (l : list ITask.t) (s : state) : state :=
  match k with CTasks => (l, s.2) | CDone => (s.1, l) end.

(** addTask(description): append a new pending task. *)
Definition add (d : option jsstr) (s : state) : state :=
  (s.1 ++ [ITask.mk d false false], s.2).

(** editTask(task, newDescription): the text is replaced when the new
    one is non-empty and kept otherwise (a cancelled prompt gives none);
    the flags stay. *)
Definition edit_text (answer old : option jsstr) : option jsstr :=
  match answer with Some (_ :: _) => answer | _ => old end.
Definition edit_task (answer : option jsstr) (t : ITask.t) : ITask.t :=
  ITask.mk (edit_text answer (ITask.description t)) (ITask.done t) (ITask.editing t).

(** editTask: the record at position [i] of list [k] changes its text. *)
Definition edit (k : drop_list) (i : nat) (answer : option jsstr) (s : state) : state :=
  put k (alter (edit_task answer) i (get k s)) s.

(** deleteTask: remove position [i] of list [k]. *)
Definition remove (k : drop_list) (i : nat) (s : state) : state :=
  put k (delete i (get k s)) s.

(** moveOrReorder within one list: remove at [from], insert at [to],
    both clamped to the list. *)
Definition reorder (k : drop_list) (from to : Z) (s : state) : state :=
  let l := get k s in
  put k (list_move (Z.to_nat (clamp from (Z.of_nat (length l) - 1)))
                   (Z.to_nat (clamp to (Z.of_nat (length l) - 1))) l) s.

(** moveOrReorder across lists: remove at [from] in [src], insert at
    [to] in [dst]. *)
Definition transfer (src dst : drop_list) (from to : Z) (s : state) : state :=
  let ls := get src s in
  let ld := get dst s in
  let f := Z.to_nat (clamp from (Z.of_nat (length ls) - 1)) in
  let t := Z.to_nat (clamp to (Z.of_nat (length ld))) in
  match ls !! f with
  | Some x => put dst (insert_at t x ld) (put src (delete f ls) s)
  | None => s
  end.
(** moveOrReorder(sourceList, destList, sourceIndex, destIndex). *)
Definition move_or_reorder (src dst : drop_list) (from to : Z) (s : state) : state :=
  if decide (src = dst) then reorder dst from to s else transfer src dst from to s.
End TaskStore.

(** The [list] argument the template passes to [deleteTask] for a list. *)
Definition list_name (k : drop_list) : jsstr :=
  match k with CTasks => js "tasks" | CDone => js "done" end.

(** The records the component's arrays hold. *)
Definition abs (c : todo) : TaskStore.state := (view (heap c) (tasks c), view (heap c) (done c)).

Definition dummy_task : ITask.t := ITask.mk None false false.

Definition resolve (h : gmap loc ITask.t) (x : loc) : ITask.t := default dummy_task (h !! x).

(** ** Preservation of the invariant *)

(** Rearranging the arrays over the same heap keeps the invariant when
    no reference is duplicated and none is new. *)
Lemma wf_reshape c c' :
  heap c' = heap c -> next_loc c' = next_loc c ->
  (forall x, x ∈ tasks c' ++ done c' -> x ∈ tasks c ++ done c) ->
  NoDup (tasks c' ++ done c') -> wf_todo c -> wf_todo c'.
Proof.
  intros Hh Hn Hin Hnd [Ha ? Hf Hd]. constructor; [|done|by rewrite Hn, Hh|by rewrite Hh].
  rewrite Forall_forall in Ha |- *. intros x Hx. rewrite Hh. by apply Ha, Hin.
Qed.

Lemma wf_permute c c' :
  heap c' = heap c -> next_loc c' = next_loc c ->
  tasks c' ++ done c' ≡ₚ tasks c ++ done c -> wf_todo c -> wf_todo c'.
Proof.
  intros Hh Hn Hp Hw. apply wf_reshape with c; try done.
  - intros x. by rewrite Hp.
  - rewrite Hp. apply Hw.
Qed.

Lemma wf_shrink c c' :
  heap c' = heap c -> next_loc c' = next_loc c ->
  tasks c' ++ done c' `sublist_of` tasks c ++ done c -> wf_todo c -> wf_todo c'.
Proof.
  intros Hh Hn Hs Hw. apply wf_reshape with c; try done.
  - intros x Hx. by eapply elem_of_sublist.
  - eapply sublist_NoDup; [apply Hw|done].
Qed.

(** The [splice(i, 1)] of [deleteTask] keeps a sublist. *)
Lemma take_drop_sublist {A} s d (l : list A) : take s l ++ list.drop (s + d) l `sublist_of` l.
Proof.
  rewrite <-(take_drop s l) at 3. apply sublist_app; [done|].
  rewrite <-drop_drop. apply sublist_drop.
Qed.

Lemma js_splice_sublist {A} start dc (l : list A) :
  snd (js_splice start dc [] l) `sublist_of` l.
Proof. unfold js_splice. simpl. apply take_drop_sublist. Qed.

Lemma dropped_heap ev c : heap (dropped ev c) = heap c /\ next_loc (dropped ev c) = next_loc c.
Proof.
  unfold dropped. case_decide; [by destruct (container ev)|].
  destruct (transferArrayItem _ _ _ _). by destruct (container ev), (previousContainer ev).
Qed.

Lemma dropped_perm ev c : tasks (dropped ev c) ++ done (dropped ev c) ≡ₚ tasks c ++ done c.
Proof.
  unfold dropped. case_decide as Hk.
  - destruct (container ev); simpl; by rewrite moveItemInArray_perm.
  - pose proof (transferArrayItem_perm (data (previousContainer ev) c) (data (container ev) c)
                  (previousIndex ev) (currentIndex ev)) as Hp.
    destruct (transferArrayItem _ _ _ _) as [src dst].
    destruct (container ev), (previousContainer ev); simpl in *; try done;
      first [by rewrite <-Hp | rewrite (comm (++) dst src); by rewrite <-Hp, (comm (++) (done c))].
Qed.

Theorem wf_dropped ev c : wf_todo c -> wf_todo (dropped ev c).
Proof.
  destruct (dropped_heap ev c). apply wf_permute; [done..|apply dropped_perm].
Qed.

Theorem wf_deleted task list c : wf_todo c -> wf_todo (deleted task list c).
Proof.
  apply wf_shrink; unfold deleted; destruct (select_list list); try done; simpl.
  - apply sublist_app; [apply js_splice_sublist|done].
  - apply sublist_app; [done|apply js_splice_sublist].
Qed.

Theorem wf_pushed item c : desc_wf item -> wf_todo c -> wf_todo (pushed item c).
Proof.
  intros Hi [Ha Hnd Hf Hd]. unfold pushed. constructor; simpl.
  - rewrite <-app_assoc. apply Forall_app in Ha as [Ha1 Ha2]. apply Forall_app. split.
    + eapply Forall_impl; [exact Ha1|]. intros x Hx. rewrite lookup_insert_is_Some'. by right.
    + constructor; [rewrite lookup_insert_eq; by eexists|].
      eapply Forall_impl; [exact Ha2|]. intros x Hx. rewrite lookup_insert_is_Some'. by right.
  - rewrite <-app_assoc. simpl. rewrite <-Permutation_middle.
    constructor; [|done].
    intros Hin. rewrite Forall_forall in Ha.
    destruct (Ha (next_loc c)) as [t Ht]; [done|].
    pose proof (Hf _ _ Ht). simpl in *. lia.
  - apply map_Forall_insert_2; [lia|]. eapply map_Forall_impl; [exact Hf|]. intros i x Hlt. simpl in *. lia.
  - by apply map_Forall_insert_2.
Qed.

Theorem wf_edited task answer t c :
  heap c !! task = Some t -> desc_wf answer -> wf_todo c ->
  wf_todo (set_heap (<[task := edited answer t]> (heap c)) (next_loc c) c).
Proof.
  intros Ht Ha [Hal Hnd Hf Hd]. constructor; simpl; [| done | |].
  - eapply Forall_impl; [exact Hal|]. intros x Hx. rewrite lookup_insert_is_Some'. by right.
  - apply map_Forall_insert_2; [by apply (Hf task t)|done].
  - apply map_Forall_insert_2; [|done]. unfold edited, prompt_or. simpl.
    destruct answer as [s|]; [destruct (truthy s)|]; simpl; try done; by apply (Hd task t).
Qed.

(** ** Reading arrays through the heap *)

Lemma view_cons h x l :
  view h (x :: l) = match h !! x with Some t => t :: view h l | None => view h l end.
Proof. reflexivity. Qed.

Lemma view_resolve h l :
  Forall (fun x => is_Some (h !! x)) l -> view h l = map (resolve h) l.
Proof.
  induction 1 as [|x l [t Ht] _ IH]; [done|].
  rewrite view_cons, Ht, IH. simpl. unfold resolve. by rewrite Ht.
Qed.

Lemma map_insert_at {A B} (f : A -> B) i x l : map f (insert_at i x l) = insert_at i (f x) (map f l).
Proof.
  unfold insert_at. rewrite map_app. simpl.
  change (map f) with (fmap (M := list) f). by rewrite fmap_take, fmap_drop.
Qed.

Lemma map_list_move {A B} (f : A -> B) i j l : map f (list_move i j l) = list_move i j (map f l).
Proof.
  unfold list_move. change (map f) with (fmap (M := list) f).
  rewrite list_lookup_fmap. destruct (l !! i); simpl; [|done].
  rewrite <-list_fmap_delete. apply map_insert_at.
Qed.

Lemma map_delete {A B} (f : A -> B) i l : map f (delete i l) = delete i (map f l).
Proof. change (map f) with (fmap (M := list) f). apply list_fmap_delete. Qed.

Lemma resolve_insert_ne h x t l :
  x ∉ l -> map (resolve (<[x := t]> h)) l = map (resolve h) l.
Proof.
  intros Hx. apply map_ext_in. intros y Hy. unfold resolve.
  rewrite lookup_insert_ne; [done|]. intros ->. apply Hx. by apply list_elem_of_In.
Qed.

Lemma resolve_insert_at h x t f i l :
  NoDup l -> l !! i = Some x -> h !! x = Some t ->
  map (resolve (<[x := f t]> h)) l = alter f i (map (resolve h) l).
Proof.
  intros Hnd Hi Ht. apply list_eq. intros j.
  change (map ?g) with (fmap (M := list) g).
  rewrite list_lookup_alter, !list_lookup_fmap.
  destruct (decide (i = j)) as [<-|Hij].
  - rewrite Hi. simpl. unfold resolve. by rewrite lookup_insert_eq, Ht.
  - destruct (l !! j) as [y|] eqn:Hj; [|done]. simpl. unfold resolve.
    rewrite lookup_insert_ne; [done|]. intros ->. apply Hij. by eapply NoDup_lookup.
Qed.

Lemma wf_next_fresh c : wf_todo c -> next_loc c ∉ tasks c ++ done c.
Proof.
  intros [Ha _ Hf _] Hin. rewrite Forall_forall in Ha. destruct (Ha _ Hin) as [t Ht].
  pose proof (Hf _ _ Ht). simpl in *. lia.
Qed.

Lemma wf_view_tasks c : wf_todo c -> view (heap c) (tasks c) = map (resolve (heap c)) (tasks c).
Proof. intros Hw. apply view_resolve. auto with todo. Qed.

Lemma wf_view_done c : wf_todo c -> view (heap c) (done c) = map (resolve (heap c)) (done c).
Proof. intros Hw. apply view_resolve. auto with todo. Qed.

Lemma abs_resolve c : wf_todo c ->
  abs c = (map (resolve (heap c)) (tasks c), map (resolve (heap c)) (done c)).
Proof. intros Hw. unfold abs. by rewrite wf_view_tasks, wf_view_done. Qed.

Lemma abs_pushed item c : wf_todo c -> abs (pushed item c) = TaskStore.add item (abs c).
Proof.
  intros Hw. pose proof (wf_next_fresh c Hw) as Hn. rewrite elem_of_app in Hn.
  unfold abs, pushed, TaskStore.add. cbn [heap tasks done set_tasks set_heap fst snd].
  rewrite (view_resolve _ (tasks c ++ [next_loc c])) by auto with todo.
  rewrite (view_resolve _ (done c)).
  2: { eapply Forall_impl; [by apply wf_done_alloc|]. intros x Hx.
       rewrite lookup_insert_is_Some'. by right. }
  rewrite map_app, (resolve_insert_ne _ _ _ (tasks c)), (resolve_insert_ne _ _ _ (done c)) by tauto.
  rewrite <-wf_view_tasks, <-wf_view_done by done. simpl.
  unfold resolve. by rewrite lookup_insert_eq.
Qed.

Lemma map_moveItemInArray {A B} (f : A -> B) l i j :
  map f (moveItemInArray l i j) = moveItemInArray (map f l) i j.
Proof. rewrite !moveItemInArray_spec, length_map. apply map_list_move. Qed.

Lemma map_transferArrayItem {A B} (f : A -> B) l1 l2 i j :
  let '(a, b) := transferArrayItem l1 l2 i j in
  transferArrayItem (map f l1) (map f l2) i j = (map f a, map f b).
Proof.
  rewrite !transferArrayItem_spec, !length_map. simpl.
  change (map f) with (fmap (M := list) f) at 1. rewrite list_lookup_fmap.
  destruct (l1 !! _); simpl; [|done]. by rewrite map_delete, map_insert_at.
Qed.

(** drop refines [TaskStore.move_or_reorder]: the CDK helpers applied
    to the arrays of references move the records the spec moves. *)
Lemma abs_dropped ev c : wf_todo c ->
  abs (dropped ev c) =
  TaskStore.move_or_reorder (previousContainer ev) (container ev)
    (previousIndex ev) (currentIndex ev) (abs c).
Proof.
  intros Hw. destruct (dropped_heap ev c) as [Hh _].
  rewrite (abs_resolve (dropped ev c)) by by apply wf_dropped.
  rewrite (abs_resolve c) by done. rewrite Hh.
  unfold dropped, TaskStore.move_or_reorder. case_decide as Hk.
  - rewrite <-Hk. unfold TaskStore.reorder.
    destruct (previousContainer ev); simpl;
      by rewrite map_moveItemInArray, moveItemInArray_spec.
  - pose proof (map_transferArrayItem (resolve (heap c)) (data (previousContainer ev) c)
                  (data (container ev) c) (previousIndex ev) (currentIndex ev)) as Ht.
    unfold TaskStore.transfer.
    destruct (transferArrayItem _ _ _ _) as [a b] eqn:E.
    destruct (previousContainer ev), (container ev); try done; simpl in *;
      rewrite transferArrayItem_spec in Ht; simpl in Ht;
      destruct (_ !! _); congruence.
Qed.

(** C11: drop refines [moveOrReorder]: a drop within one list reorders
    it, a drop across lists moves the task, both with the CDK's
    clamping of the indices, whether or not the writes succeed. *)
Theorem drop_refines `{NotificationPort} ev c b : wf_todo c ->
  abs (comp (snd (drop ev (mkPage c b)))) =
  TaskStore.move_or_reorder (previousContainer ev) (container ev)
    (previousIndex ev) (currentIndex ev) (abs c).
Proof.
  intros Hw. pose proof (wf_dropped ev c Hw) as Hw'. destruct (dropped_heap ev c) as [Hh _].
  rewrite drop_spec; [|rewrite <-Hh; auto with todo|done].
  pose proof (updateLocalStorage_comp (mkPage (dropped ev c) b)) as Hc.
  destruct (updateLocalStorage _) as [[[]|e] p']; simpl in *; [|rewrite Hc];
    by apply abs_dropped.
Qed.

Lemma select_list_name k :
  select_list (list_name k) = match k with CTasks => TargetTasks | CDone => TargetDone end.
Proof. by destruct k. Qed.

Lemma wf_data_nodup c k : wf_todo c -> NoDup (data k c).
Proof.
  intros Hw. pose proof (wf_nodup _ Hw) as Hnd. apply NoDup_app in Hnd as (? & _ & ?).
  by destruct k.
Qed.

Lemma wf_data_other c k x : wf_todo c -> x ∈ data k c ->
  x ∉ data (match k with CTasks => CDone | CDone => CTasks end) c.
Proof.
  intros Hw Hx. pose proof (wf_nodup _ Hw) as Hnd. apply NoDup_app in Hnd as (_ & Hd & _).
  destruct k; simpl in *; [by apply Hd|]. intros Hy. by apply (Hd x).
Qed.

(** On a list without duplicates, [indexOf] finds the position. *)
Lemma js_indexOf_nodup (l : list loc) i x :
  NoDup l -> l !! i = Some x -> js_indexOf x l = Z.of_nat i.
Proof.
  intros Hnd Hi. destruct (js_indexOf_spec x l) as [[_ Hn]|(j & -> & Hj & _)].
  - exfalso. apply Hn. by eapply list_elem_of_lookup_2.
  - f_equal. by eapply NoDup_lookup.
Qed.

(** The index [indexOf] finds for a task of list [k], by its name. *)
Lemma indexOf_list_name c k i task : wf_todo c -> data k c !! i = Some task ->
  js_indexOf task (target_array (select_list (list_name k)) c) = Z.of_nat i.
Proof.
  intros Hw Hi. rewrite select_list_name.
  replace (target_array _ c) with (data k c) by (by destruct k).
  apply js_indexOf_nodup; [by apply wf_data_nodup|done].
Qed.

Lemma abs_deleted c k i task : wf_todo c -> data k c !! i = Some task ->
  abs (deleted task (list_name k) c) = TaskStore.remove k i (abs c).
Proof.
  intros Hw Hi. pose proof (wf_deleted task (list_name k) c Hw) as Hw'.
  pose proof (indexOf_list_name c k i task Hw Hi) as Hidx.
  assert (deleted task (list_name k) c =
          match k with CTasks => set_tasks (delete i (tasks c)) c
                     | CDone => set_done (delete i (done c)) c end) as Hc'.
  { unfold deleted. rewrite Hidx. rewrite select_list_name in Hidx |- *.
    replace (target_array _ c) with (data k c) by (by destruct k).
    rewrite (js_splice_remove _ _ task) by done. by destruct k. }
  rewrite (abs_resolve _ Hw'), (abs_resolve _ Hw), Hc'.
  unfold TaskStore.remove. destruct k; simpl; by rewrite map_delete.
Qed.

(** The code's fallback ([prompt_or]: [null] and [''] keep the old
    text) is the spec's. *)
Lemma edited_edit_task answer t : edited answer t = TaskStore.edit_task answer t.
Proof. by destruct answer as [[|x s]|]. Qed.

(** The write of [editTask] to a task of list [k], at position [i]. *)
Lemma abs_edited c k i task t answer : wf_todo c -> data k c !! i = Some task -> heap c !! task = Some t ->
  abs (set_heap (<[task := edited answer t]> (heap c)) (next_loc c) c) = TaskStore.edit k i answer (abs c).
Proof.
  intros Hw Hi Ht. assert (task ∈ data k c) as Hin by (by eapply list_elem_of_lookup_2).
  rewrite edited_edit_task, (abs_resolve c Hw). unfold abs. cbn [heap tasks done set_heap].
  assert (forall l, Forall (fun x => is_Some (heap c !! x)) l ->
          view (<[task := TaskStore.edit_task answer t]> (heap c)) l =
            map (resolve (<[task := TaskStore.edit_task answer t]> (heap c))) l)
    as Hv.
  { intros l Hl. apply view_resolve. eapply Forall_impl; [exact Hl|].
    intros x Hx. rewrite lookup_insert_is_Some'. by right. }
  rewrite !Hv by auto with todo.
  pose proof (wf_data_other c k task Hw Hin) as Hother.
  pose proof (wf_data_nodup c k Hw) as Hnd.
  unfold TaskStore.edit. destruct k; cbn [data TaskStore.get TaskStore.put fst snd] in *;
    rewrite (resolve_insert_at _ _ t (TaskStore.edit_task answer) i _ Hnd Hi Ht), resolve_insert_ne by done; done.
Qed.

(** A write to an object in neither array (one a reload left behind). *)
Lemma abs_write_other c task t : task ∉ tasks c ++ done c ->
  abs (set_heap (<[task := t]> (heap c)) (next_loc c) c) = abs c.
Proof.
  intros Hn. rewrite elem_of_app in Hn. unfold abs. cbn [heap tasks done set_heap].
  f_equal; apply view_agree, Forall_forall; intros x Hx; apply lookup_insert_ne;
    intros ->; apply Hn; tauto.
Qed.

Lemma addTask_abs `{NotificationPort} c b item : wf_todo c -> todoForm c = Some item ->
  abs (comp (snd (addTask (mkPage c b)))) = abs (pushed item c).
Proof.
  intros Hw Hf. rewrite (addTask_spec c b item) by done.
  pose proof (updateLocalStorage_comp (mkPage (pushed item c) b)) as Hc.
  by destruct (updateLocalStorage _) as [[[]|e] p']; simpl in *; [|rewrite Hc].
Qed.

(** C8: addTask refines [TaskStore.add]: the arrays change the same way
    whether or not the writes to storage succeed. *)
Theorem addTask_refines `{NotificationPort} c b item :
  wf_todo c -> todoForm c = Some item ->
  abs (comp (snd (addTask (mkPage c b)))) = TaskStore.add item (abs c).
Proof. intros Hw Hf. rewrite (addTask_abs c b item) by done. by apply abs_pushed. Qed.

(** C10: deleteTask with a list name and a task of that list refines
    [TaskStore.remove] at the task's position. *)
Theorem deleteTask_refines `{NotificationPort} c b k i task :
  wf_todo c -> data k c !! i = Some task ->
  abs (comp (snd (deleteTask task (list_name k) (mkPage c b)))) = TaskStore.remove k i (abs c).
Proof.
  intros Hw Hi. rewrite deleteTask_spec, (indexOf_list_name c k i task Hw Hi).
  rewrite (proj2 (Z.gtb_lt _ _)) by lia. rewrite updateLocalStorage_comp. by apply abs_deleted.
Qed.

(** C13: deleteTask of a reference that is not in the selected array (a task
    of the other list, an equal record that is another object, or an
    unknown list name) changes nothing and writes nothing. *)
Theorem deleteTask_absent `{NotificationPort} c b task list :
  task ∉ target_array (select_list list) c ->
  deleteTask task list (mkPage c b) = (Ok tt, mkPage c b).
Proof.
  intros Hn. rewrite deleteTask_spec.
  destruct (js_indexOf_spec task (target_array (select_list list) c))
    as [[-> _]|(j & _ & Hj & _)]; [done|].
  exfalso. apply Hn. by eapply list_elem_of_lookup_2.
Qed.

(** C9: editTask on a task of list [k] refines [TaskStore.edit]: only that
    record changes, in place, in whichever array holds it. *)
Theorem editTask_refines `{NotificationPort} c b k i task answer :
  wf_todo c -> data k c !! i = Some task ->
  abs (comp (snd (editTask task answer (mkPage c b)))) = TaskStore.edit k i answer (abs c).
Proof.
  intros Hw Hi.
  assert (is_Some (heap c !! task)) as [t Ht].
  { pose proof (wf_alloc _ Hw) as Ha. rewrite Forall_forall in Ha. apply Ha.
    apply list_elem_of_lookup_2 in Hi. rewrite elem_of_app. destruct k; tauto. }
  rewrite (editTask_spec c b task answer t Ht), updateLocalStorage_comp. by apply abs_edited.
Qed.

Lemma drop_comp `{NotificationPort} ev c b : wf_todo c ->
  comp (snd (drop ev (mkPage c b))) = dropped ev c.
Proof.
  intros Hw. pose proof (wf_dropped ev c Hw) as Hw'. destruct (dropped_heap ev c) as [Hh _].
  rewrite drop_spec; [|rewrite <-Hh; auto with todo|done].
  pose proof (updateLocalStorage_comp (mkPage (dropped ev c) b)) as Hc.
  by destruct (updateLocalStorage _) as [[[]|e] p']; simpl in *.
Qed.

Lemma data_set_data k l c : data k (set_data k l c) = l.
Proof. by destruct k. Qed.

Lemma data_set_data_ne k k' l c : k <> k' -> data k' (set_data k l c) = data k' c.
Proof. by destruct k, k'. Qed.

(** C14: A drop within one list rearranges its references as the
    reference move with the CDK's clamped indices, and leaves the
    other list alone. *)
Theorem drop_reorders `{NotificationPort} c b k from to : wf_todo c ->
  let c' := comp (snd (drop (mkDrop k k from to) (mkPage c b))) in
  let n := Z.of_nat (length (data k c)) in
  data k c' = list_move (Z.to_nat (clamp from (n - 1))) (Z.to_nat (clamp to (n - 1))) (data k c) /\
  data (match k with CTasks => CDone | CDone => CTasks end) c' =
    data (match k with CTasks => CDone | CDone => CTasks end) c.
Proof.
  intros Hw. cbv zeta. rewrite drop_comp by done. unfold dropped. simpl.
  rewrite decide_True by done. rewrite data_set_data, moveItemInArray_spec.
  split; [done|]. apply data_set_data_ne. by destruct k.
Qed.

(** C15: A drop from one list to the other removes the reference at the
    clamped source index and inserts it into the target at the target
    index clamped to its length. *)
Theorem drop_transfers `{NotificationPort} c b src dst from to x :
  wf_todo c -> src <> dst ->
  let f := Z.to_nat (clamp from (Z.of_nat (length (data src c)) - 1)) in
  let t := Z.to_nat (clamp to (Z.of_nat (length (data dst c)))) in
  data src c !! f = Some x ->
  let c' := comp (snd (drop (mkDrop src dst from to) (mkPage c b))) in
  data src c' = delete f (data src c) /\ data dst c' = insert_at t x (data dst c).
Proof.
  intros Hw Hne f t Hx. cbv zeta. rewrite drop_comp by done. unfold dropped. simpl.
  rewrite decide_False by done. rewrite transferArrayItem_spec. cbv zeta. fold f t. rewrite Hx.
  rewrite data_set_data, data_set_data_ne, data_set_data by done. done.
Qed.

(** ** Witnesses *)

Lemma addTask_refines_witness :
  wf_todo sample_todo /\ todoForm sample_todo = Some (Some (js "Read")) /\
  abs (comp (snd (addTask (mkPage sample_todo sample_browser)))) =
    ([milk; tricky; ITask.mk (Some (js "Read")) false false], [mail]).
Proof.
  assert (wf_todo sample_todo) as Hw by decide_true.
  split; [exact Hw|]. split; [reflexivity|].
  rewrite (addTask_refines sample_todo sample_browser (Some (js "Read")) Hw eq_refl). reflexivity.
Defined.

Lemma editTask_refines_witness :
  wf_todo sample_todo /\ data CTasks sample_todo !! 1 = Some 2%positive /\
  abs (comp (snd (editTask 2%positive (Some (js "Pay")) (mkPage sample_todo sample_browser)))) =
    ([milk; ITask.mk (Some (js "Pay")) false false], [mail]).
Proof.
  assert (wf_todo sample_todo) as Hw by decide_true.
  split; [exact Hw|]. split; [reflexivity|].
  rewrite (editTask_refines sample_todo sample_browser CTasks 1 2%positive _ Hw eq_refl). reflexivity.
Defined.

Lemma deleteTask_refines_witness :
  wf_todo sample_todo /\ data CDone sample_todo !! 0 = Some 3%positive /\
  abs (comp (snd (deleteTask 3%positive (js "done") (mkPage sample_todo sample_browser)))) =
    ([milk; tricky], []).
Proof.
  assert (wf_todo sample_todo) as Hw by decide_true.
  split; [exact Hw|]. split; [reflexivity|].
  change (js "done") with (list_name CDone).
  rewrite (deleteTask_refines sample_todo sample_browser CDone 0 3%positive Hw eq_refl). reflexivity.
Defined.

Lemma drop_refines_witness :
  wf_todo sample_todo /\
  abs (comp (snd (drop (mkDrop CTasks CDone 0 1) (mkPage sample_todo sample_browser)))) =
    ([tricky], [mail; milk]).
Proof.
  assert (wf_todo sample_todo) as Hw by decide_true.
  split; [exact Hw|].
  rewrite (drop_refines (mkDrop CTasks CDone 0 1) sample_todo sample_browser Hw). reflexivity.
Defined.

(** Objects 1 and 2 hold equal records; [tasks] holds object 1, so
    deleting object 2 from "tasks" does nothing. *)
Lemma deleteTask_absent_witness :
  heap sample_alias !! 2%positive = heap sample_alias !! 1%positive /\
  (2%positive ∉ target_array (select_list (js "tasks")) sample_alias) /\
  deleteTask 2%positive (js "tasks") (mkPage sample_alias sample_browser) =
    (Ok tt, mkPage sample_alias sample_browser).
Proof.
  assert (2%positive ∉ target_array (select_list (js "tasks")) sample_alias) as Hn by decide_true.
  split; [reflexivity|]. split; [exact Hn|].
  apply deleteTask_absent, Hn.
Defined.

Lemma drop_reorders_witness :
  wf_todo sample_todo /\
  tasks (comp (snd (drop (mkDrop CTasks CTasks 0 5) (mkPage sample_todo sample_browser)))) =
    [2%positive; 1%positive].
Proof.
  assert (wf_todo sample_todo) as Hw by decide_true.
  split; [exact Hw|].
  destruct (drop_reorders sample_todo sample_browser CTasks 0 5 Hw) as [H1 _]. exact H1.
Defined.

Lemma drop_transfers_witness :
  wf_todo sample_todo /\ CTasks <> CDone /\ data CTasks sample_todo !! 1 = Some 2%positive /\
  done (comp (snd (drop (mkDrop CTasks CDone 1 0) (mkPage sample_todo sample_browser)))) =
    [2%positive; 3%positive].
Proof.
  assert (wf_todo sample_todo) as Hw by decide_true.
  split; [exact Hw|]. split; [done|]. split; [reflexivity|].
  destruct (drop_transfers sample_todo sample_browser CTasks CDone 1 0 2%positive Hw ltac:(done) eq_refl)
    as [_ H2]. exact H2.
Defined.
