(* ===== verification/TodoPage.v ===== *)
(** * The page as a state machine

    After [ngOnInit] the page reacts to one event at a time: a key typed
    in the task input, a number typed in the interval input, a click on
    Add, Edit (with the prompt's answer), Delete or Update, a drop of the
    drag-and-drop lists, a tick of a live timer, and the user's answer to
    a pending permission request.  [handle] runs the component's method
    for an event; [reachable] is every page the browser can show, from
    any browser state with no timer running and any stored text.

    The invariant [page_inv] of every reachable page: the component is
    well formed ([wf_todo]: each task in exactly one array, once), the
    form holds a well-formed text, every live timer is the one
    [notificationIntervalId] names, so at most one timer runs, and
    every stored text is a sequence of code units.  [page_step] is one
    event; the liveness theorems give sequences of steps that complete
    every task and that repeat the reminder.  The file also proves what the messages, the interval input and [ngOnInit] do
    in the scenarios of the spec, and where the code departs from it. *)

From Stdlib Require Import ZArith QArith Qround Lia.
From stdpp Require Import base list gmap strings.
From S2P Require Import Prelude ArrayOps Json Browser NotificationService TodoComponent Samples TodoFacts TodoSpec.

(** ** Events and their handlers *)

(** What the user and the browser can do once the page is shown. *)
Inductive event : Type :=
  | EvInput (item : option jsstr)          (** the [item] form control changes *)
  | EvIntervalInput (x : option Q)         (** [[(ngModel)]="newNotificationInterval"] *)
  | EvAdd                                  (** the Add button: [addTask()] *)
  | EvEdit (task : loc) (answer : option jsstr)   (** [editTask(task)], [prompt] answered *)
  | EvDelete (task : loc) (list : jsstr)   (** [deleteTask(task, list)] *)
  | EvDrop (ev : drop_event)               (** [(cdkDropListDropped)="drop($event)"] *)
  | EvUpdateInterval                       (** [updateNotificationInterval()] *)
  | EvTick (id : positive)                 (** the browser runs the callback of timer [id] *)
  | EvPermission (answer : permission).    (** the user answers the permission prompt *)

(** Texts coming from the browser are sequences of code units. *)
Definition event_wf (e : event) : Prop :=
  match e with
  | EvInput item => desc_wf item
  | EvEdit _ answer => desc_wf answer
  | _ => True
  end.

#[export] Instance event_wf_dec e : Decision (event_wf e).
Proof. destruct e; simpl; apply _. Defined.

(** Events are compared syntactically: an interval input by its
    numerator and denominator, a drop by its four fields. *)
#[local] Instance Q_syntactic_eq_dec : EqDecision Q.
Proof. solve_decision. Defined.

#[export] Instance drop_event_eq_dec : EqDecision drop_event.
Proof. solve_decision. Defined.

#[export] Instance event_eq_dec : EqDecision event.
Proof. solve_decision. Defined.

(** Every stored text is a sequence of code units. *)
Definition storage_wf (b : browser) : Prop := map_Forall (fun _ s => wf_jsstr s) (storage b).

(** Both entries the component reads have the type [ITask[]] that
    [ngOnInit] gives them (lines 29-37): each is absent, empty, or a
    JSON text of an array of task records, so that neither [JSON.parse]
    nor the reading as tasks fails. *)
Definition storage_typed (m : gmap jsstr jsstr) : Prop :=
  is_Some (stored_view m (js "tasks")) /\ is_Some (stored_view m (js "done")).

(** Local storage is in step with the page: each entry reads as the
    records its array shows. *)
Definition in_sync (p : page) : Prop :=
  stored_view (storage (env p)) (js "tasks") = Some (view (heap (comp p)) (tasks (comp p))) /\
  stored_view (storage (env p)) (js "done") = Some (view (heap (comp p)) (done (comp p))).

(** The form's [item] value, once built, is [null] or a well-formed text. *)
Definition form_wf (c : todo) : Prop :=
  match todoForm c with Some d => desc_wf d | None => True end.

(** [todoForm.valid]: the one control [item] carries
    [Validators.required] (line 25), which fails on [null] and on the
    empty string; before [ngOnInit] there is no form. *)
Definition form_valid (c : todo) : bool :=
  match todoForm c with
  | Some (Some s) => negb (bool_decide (s = []))
  | _ => false
  end.

(** Every live timer is the one the component holds the id of. *)
Definition timer_inv (p : page) : Prop :=
  map_Forall (fun id _ => notificationIntervalId (comp p) = Some id) (timers (env p)).

(** The live timer runs at the component's period, in milliseconds. *)
Definition period_inv (p : page) : Prop :=
  forall id d, notificationIntervalId (comp p) = Some id -> timers (env p) !! id = Some d ->
  d = timer_delay (notificationInterval (comp p) * 60000).

Record page_inv (p : page) : Prop := {
  inv_wf : wf_todo (comp p);
  inv_form : form_wf (comp p);
  inv_timer : timer_inv p;
  inv_period : period_inv p;
  inv_storage : storage_wf (env p);
  inv_interval : (1 <= notificationInterval (comp p))%Z;
}.

(** The Notification Scheduler of the spec (section 4.2): idle, or
    active with a period in minutes; [setInterval(newMinutes)], the
    Update button, makes it active at the coerced period. *)
Module Scheduler.
Inductive state : Type := Idle | Active (period : Z).

Definition step (e : event) (input : option Q) (s : state) : state :=
  match e with
  | EvUpdateInterval => Active (coerce_interval input)
  | _ => s
  end.
End Scheduler.

(** The scheduler a page shows: active at the component's period when
    the timer whose id it holds is live. *)
Definition sched_view (p : page) : Scheduler.state :=
  match notificationIntervalId (comp p) with
  | Some id => if decide (is_Some (timers (env p) !! id))
               then Scheduler.Active (notificationInterval (comp p)) else Scheduler.Idle
  | None => Scheduler.Idle
  end.

(** The position of a task object in an array, if it is there. *)
Definition position (x : loc) (l : list loc) : option nat :=
  fst <$> list_find (fun y => y = x) l.

(** What an event does to the spec's Task Store: the operation of the
    handler, at the position of the task it names. *)
Definition task_effect (e : event) (c : todo) (s : TaskStore.state) : TaskStore.state :=
  match e with
  | EvAdd => match todoForm c with Some item => TaskStore.add item s | None => s end
  | EvEdit task answer =>
      match position task (tasks c), position task (done c) with
      | Some i, _ => TaskStore.edit CTasks i answer s
      | None, Some i => TaskStore.edit CDone i answer s
      | None, None => s
      end
  | EvDelete task list =>
      match select_list list with
      | TargetTasks => match position task (tasks c) with Some i => TaskStore.remove CTasks i s | None => s end
      | TargetDone => match position task (done c) with Some i => TaskStore.remove CDone i s | None => s end
      | TargetNone => s
      end
  | EvDrop ev =>
      TaskStore.move_or_reorder (previousContainer ev) (container ev) (previousIndex ev) (currentIndex ev) s
  | _ => s
  end.

(** What the timer table, the next timer id, the component's timer id
    and its period are. *)
Definition timer_view (p : page) : gmap positive Z * positive * option positive * Z :=
  (timers (env p), next_timer (env p), notificationIntervalId (comp p), notificationInterval (comp p)).

(** [m] leaves the observation [f] of the page as it is, whatever it
    returns or throws. *)
Definition keeps_when {X A} (f : page -> X) (P : X -> Prop) (m : M A) : Prop :=
  forall p, P (f p) -> f (snd (m p)) = f p.

Definition keeps {X A} (f : page -> X) (m : M A) : Prop := keeps_when f (fun _ => True) m.

Section Page.
Context `{NP : NotificationPort}.

(** The callback of the timer [id]: [checkAndNotify()], if the timer
    is still live. *)
Definition tick (id : positive) : M unit :=
  fun p => if decide (is_Some (timers (env p) !! id)) then checkAndNotify p else (Ok tt, p).

(** The user settles a pending [Notification.requestPermission()];
    the service's callback then runs. *)
Definition answer_permission (a : permission) (b : browser) : browser :=
  if decide (pending_requests b = 0) then b
  else let '(q, b') := settle_permission a b in NotificationService.requestPermission_then q b'.

(** Typing in the form: a form control exists once [ngOnInit] built it. *)
Definition input (item : option jsstr) : M unit :=
  update_comp (fun c => match todoForm c with Some _ => set_todoForm (Some item) c | None => c end).

Definition handle (e : event) : M unit :=
  match e with
  | EvInput item => input item
  | EvIntervalInput x => update_comp (set_newInterval x)
  | EvAdd => addTask
  | EvEdit task answer => editTask task answer
  | EvDelete task list => deleteTask task list
  | EvDrop ev => drop ev
  | EvUpdateInterval => updateNotificationInterval
  | EvTick id => tick id
  | EvPermission a => lift_fn (answer_permission a)
  end.

(** The pages the browser can show: [ngOnInit] on a new component, in
    a browser with no timer and any well-formed stored text, then any
    sequence of events, whatever each handler returns or throws. *)
Inductive reachable : page -> Prop :=
  | reach_init b r p :
      timers b = ∅ -> storage_wf b ->
      ngOnInit (mkPage constructor b) = (r, p) -> reachable p
  | reach_step p e r p' :
      reachable p -> event_wf e -> handle e p = (r, p') -> reachable p'.

(** One event of the user or the browser, from one page to the next. *)
Definition page_step (p p' : page) : Prop := exists e, event_wf e /\ snd (handle e p) = p'.

(** An event whose handler completes without an exception. *)
Definition ok_step (p p' : page) : Prop := exists e, event_wf e /\ handle e p = (Ok tt, p').

(** ** Handlers that leave the timers alone *)

Lemma keeps_bind {X A B} (f : page -> X) P (m : M A) (k : A -> M B) :
  keeps_when f P m -> (forall a, keeps_when f P (k a)) -> keeps_when f P (st_bind m k).
Proof.
  intros Hm Hk p HP. unfold st_bind. specialize (Hm p HP).
  destruct (m p) as [[a|e] p']; simpl in *; [rewrite Hk; [done|congruence]|done].
Qed.

Lemma keeps_pure {X A} (f : page -> X) P (m : M A) : (forall p, snd (m p) = p) -> keeps_when f P m.
Proof. intros Hm p _. by rewrite Hm. Qed.

Lemma keeps_update P g :
  (forall c, (notificationIntervalId (g c), notificationInterval (g c)) =
             (notificationIntervalId c, notificationInterval c)) ->
  keeps_when timer_view P (update_comp g).
Proof. intros Hg p _. unfold timer_view. simpl. specialize (Hg (comp p)). congruence. Qed.

Lemma keeps_lift_fn P g : (forall b, same_store (g b) b) -> keeps_when timer_view P (lift_fn g).
Proof. intros Hg p _. unfold timer_view. simpl. by destruct (Hg (env p)) as (_ & _ & -> & ->). Qed.

Lemma keeps_lift_setItem P k v : keeps_when timer_view P (lift (setItem k v)).
Proof.
  intros [c b] _. unfold timer_view. rewrite lift_setItem. by case_decide.
Qed.

Lemma keeps_alloc P t : keeps_when timer_view P (alloc t).
Proof. by intros [c b]. Qed.

Lemma np_show_timers m b : timers (np_show m b) = timers b.
Proof. apply np_show_store. Qed.

Lemma np_request_timers b : timers (np_request b) = timers b.
Proof. apply np_request_store. Qed.

Lemma answer_permission_timers a b : timers (answer_permission a b) = timers b.
Proof.
  unfold answer_permission, NotificationService.requestPermission_then.
  case_decide; [done|]. simpl. by case_decide.
Qed.

Lemma answer_permission_same_store a b : same_store (answer_permission a b) b.
Proof.
  unfold answer_permission, NotificationService.requestPermission_then.
  case_decide; [done|]. simpl. by case_decide.
Qed.

Lemma answer_permission_storage a b : storage (answer_permission a b) = storage b.
Proof.
  unfold answer_permission, NotificationService.requestPermission_then.
  case_decide; [done|]. simpl. by case_decide.
Qed.

End Page.

Create HintDb keeps.
#[export] Hint Resolve keeps_lift_setItem keeps_alloc : keeps.
#[export] Hint Resolve np_show_timers np_request_timers answer_permission_timers : keeps.
#[export] Hint Resolve np_show_store np_request_store answer_permission_same_store : keeps.

(** Split a computation into its steps, each of which keeps [f]. *)
Ltac keeps_steps :=
  unfold keeps;
  repeat first
    [ progress intros
    | apply keeps_bind
    | apply keeps_pure; intros [? ?]; reflexivity
    | apply keeps_pure; intros [? ?]; unfold deref; simpl; case_match; reflexivity
    | apply keeps_update; intros; unfold set_data; repeat case_match; reflexivity
    | apply keeps_lift_fn; intros; solve [eauto with keeps]
    | progress case_match
    | solve [eauto with keeps] ].

Section PageFacts.
Context `{NP : NotificationPort}.

Lemma keeps_some_pending P l : keeps_when timer_view P (some_pending l).
Proof. induction l; simpl; keeps_steps. Qed.
Hint Resolve keeps_some_pending : keeps.

Lemma keeps_updateLocalStorage P : keeps_when timer_view P updateLocalStorage.
Proof. unfold updateLocalStorage. keeps_steps. Qed.
Hint Resolve keeps_updateLocalStorage : keeps.

Lemma keeps_checkAndNotify P : keeps_when timer_view P checkAndNotify.
Proof. unfold checkAndNotify. keeps_steps. Qed.
Hint Resolve keeps_checkAndNotify : keeps.

(** The task handlers, the inputs and the ticks: no timer is started
    or cleared, and the id is not touched. *)
Lemma keeps_timers_handle e :
  e <> EvUpdateInterval -> forall p, timer_view (snd (handle e p)) = timer_view p.
Proof.
  intros He. cut (keeps timer_view (handle e)); [intros Hk p; exact (Hk p I)|].
  destruct e; simpl; try done;
    unfold input, addTask, editTask, deleteTask, drop, write; keeps_steps.
  intros p. unfold tick. case_decide; [apply (keeps_checkAndNotify (fun _ => True))|done].
Qed.

(** ** The component stays well formed *)

Lemma wf_fields c c' :
  heap c' = heap c -> next_loc c' = next_loc c -> tasks c' = tasks c -> done c' = done c ->
  wf_todo c -> wf_todo c'.
Proof.
  intros Hh Hn Ht Hd Hw. apply (wf_reshape c); rewrite ?Ht, ?Hd; auto. apply Hw.
Qed.

(** The component after a handler that ends with [updateLocalStorage]. *)
Lemma updateLocalStorage_snd_comp c b : comp (snd (updateLocalStorage (mkPage c b))) = c.
Proof. apply updateLocalStorage_comp. Qed.

Lemma addTask_inv c b :
  wf_todo c -> form_wf c ->
  wf_todo (comp (snd (addTask (mkPage c b)))) /\ form_wf (comp (snd (addTask (mkPage c b)))).
Proof.
  intros Hw Hf. destruct (todoForm c) as [item|] eqn:E.
  - rewrite (addTask_spec c b item E Hw). unfold form_wf in Hf. rewrite E in Hf.
    pose proof (updateLocalStorage_snd_comp (pushed item c) b) as Hc.
    pose proof (wf_pushed item c Hf Hw) as Hw'.
    destruct (updateLocalStorage _) as [[] p']; simpl in *.
    + split; [by apply (wf_fields (pushed item c))|done].
    + rewrite Hc. split; [done|]. unfold form_wf. simpl. by rewrite E.
  - rewrite addTask_form_undefined by done. done.
Qed.

Lemma editTask_inv c b task answer :
  desc_wf answer -> wf_todo c ->
  let c' := comp (snd (editTask task answer (mkPage c b))) in
  wf_todo c' /\ todoForm c' = todoForm c.
Proof.
  intros Ha Hw. destruct (heap c !! task) as [t|] eqn:Ht.
  - rewrite (editTask_spec c b task answer t Ht), updateLocalStorage_snd_comp.
    split; [by apply wf_edited|done].
  - by rewrite editTask_dangling.
Qed.

Lemma deleteTask_inv c b task list :
  wf_todo c ->
  let c' := comp (snd (deleteTask task list (mkPage c b))) in
  wf_todo c' /\ todoForm c' = todoForm c.
Proof.
  intros Hw. rewrite deleteTask_spec. destruct (_ >? _)%Z; [|done].
  rewrite updateLocalStorage_snd_comp. split; [by apply wf_deleted|].
  unfold deleted. by destruct (select_list list).
Qed.

Lemma drop_inv c b ev : wf_todo c -> wf_todo (comp (snd (drop ev (mkPage c b)))) /\
  todoForm (comp (snd (drop ev (mkPage c b)))) = todoForm c.
Proof.
  intros Hw. pose proof (wf_dropped ev c Hw) as Hw'. destruct (dropped_heap ev c) as [Hh _].
  rewrite drop_spec; [|rewrite <-Hh; by apply wf_tasks_alloc|done].
  pose proof (updateLocalStorage_snd_comp (dropped ev c) b) as Hc.
  assert (todoForm (dropped ev c) = todoForm c) as Hf.
  { unfold dropped. case_decide; [by destruct (container ev)|].
    destruct (transferArrayItem _ _ _ _). by destruct (container ev), (previousContainer ev). }
  by destruct (updateLocalStorage _) as [[] p']; simpl in *; [|rewrite Hc].
Qed.

Lemma updateNotificationInterval_fields c b :
  let c' := comp (snd (updateNotificationInterval (mkPage c b))) in
  heap c' = heap c /\ next_loc c' = next_loc c /\ tasks c' = tasks c /\ done c' = done c /\
  todoForm c' = todoForm c.
Proof. by rewrite updateNotificationInterval_spec. Qed.

Lemma keeps_comp_lift_fn P g : keeps_when comp P (lift_fn g).
Proof. done. Qed.
Hint Resolve keeps_comp_lift_fn : keeps.

Lemma keeps_comp_some_pending P l : keeps_when comp P (some_pending l).
Proof. induction l; simpl; keeps_steps. Qed.
Hint Resolve keeps_comp_some_pending : keeps.

Lemma keeps_comp_checkAndNotify P : keeps_when comp P checkAndNotify.
Proof. unfold checkAndNotify. keeps_steps. Qed.

Lemma keeps_comp_tick id : keeps comp (tick id).
Proof. intros p. unfold tick. case_decide; [apply (keeps_comp_checkAndNotify (fun _ => True))|done]. Qed.

(** ** The timers *)

Lemma timer_inv_view p p' : timer_view p' = timer_view p -> timer_inv p -> timer_inv p'.
Proof. unfold timer_view, timer_inv. intros Heq. injection Heq as -> _ -> _. done. Qed.

(** [clearInterval] of the id the component holds stops every live timer. *)
Lemma cleared_empty c b : timer_inv (mkPage c b) -> timers (cleared c b) = ∅.
Proof.
  unfold timer_inv, cleared. simpl. intros Hi.
  apply map_eq. intros j. rewrite lookup_empty.
  destruct (notificationIntervalId c) as [id|] eqn:E; simpl.
  - rewrite lookup_delete_None. destruct (decide (j = id)) as [->|Hne]; [by left|right].
    destruct (timers b !! j) eqn:Ej; [|done]. specialize (Hi _ _ Ej). simpl in Hi. congruence.
  - destruct (timers b !! j) eqn:Ej; [|done]. specialize (Hi _ _ Ej). simpl in Hi. congruence.
Qed.

Lemma cleared_next_timer c b : next_timer (cleared c b) = next_timer b.
Proof. unfold cleared. by case_match. Qed.

(** ** What ngOnInit reads back *)

Lemma field_elem k fs w : field k fs = Some w -> exists k', (k', w) ∈ fs.
Proof.
  induction fs as [|[k' v] fs IH]; simpl; [done|].
  destruct (field k fs) as [w'|] eqn:E.
  - intros [= <-]. destruct (IH eq_refl) as [k'' ?]. exists k''. by apply list_elem_of_further.
  - case_decide; [|done]. intros [= <-]. exists k'. apply list_elem_of_here.
Qed.

Lemma decode_task_descr v t : strings_wf v -> decode_task v = Some t -> desc_wf (ITask.description t).
Proof.
  intros Hv. destruct v as [| | | | |fs]; try done. inversion Hv as [| | | | |? Hfs]; subst.
  unfold decode_task. destruct (field (js "description") fs) as [[| | | s | |]|] eqn:E; try done;
    repeat case_match; intros [= <-]; simpl; [done|].
  destruct (field_elem _ _ _ E) as [k Hk]. rewrite Forall_forall in Hfs.
  destruct (Hfs _ Hk) as [_ Hs]. by inversion Hs.
Qed.

Lemma decode_tasks_descr v ts : strings_wf v -> decode_tasks v = Some ts ->
  Forall (fun t => desc_wf (ITask.description t)) ts.
Proof.
  intros Hv. destruct v as [| | | |vs|]; try done. inversion Hv as [| | | |? Hvs|]; subst.
  unfold decode_tasks. intros Hm. apply mapM_Some_1 in Hm.
  clear Hv. revert Hvs. induction Hm as [|v t vs ts Ht _ IH]; intros Hvs; [constructor|].
  apply Forall_cons in Hvs as [Hv0 Hvs]. simpl in Ht. constructor; [by eapply decode_task_descr|by apply IH].
Qed.

Lemma alloc_heap_descr h n ts :
  map_Forall (fun _ t => desc_wf (ITask.description t)) h ->
  Forall (fun t => desc_wf (ITask.description t)) ts ->
  map_Forall (fun _ t => desc_wf (ITask.description t)) (alloc_heap h n ts).1.1.
Proof.
  intros Hh Hts. revert h n Hh. induction Hts as [|t ts Ht _ IH]; intros h n Hh; [done|].
  simpl. specialize (IH (<[n := t]> h) (Pos.succ n)).
  destruct (alloc_heap _ _ ts) as [[h' n'] xs]. apply IH. by apply map_Forall_insert_2.
Qed.

(** The arrays [JSON.parse] builds are fresh objects: assigned to one
    array, the component stays well formed. *)
Lemma wf_alloc_heap k c ts : wf_todo c -> Forall (fun t => desc_wf (ITask.description t)) ts ->
  let '(h', n', xs) := alloc_heap (heap c) (next_loc c) ts in
  wf_todo (set_data k xs (set_heap h' n' c)).
Proof.
  intros [Ha Hnd Hf Hd] Hts. pose proof (alloc_heap_descr (heap c) (next_loc c) ts Hd Hts) as Hd'.
  pose proof (alloc_heap_props (heap c) (next_loc c) ts) as P.
  destruct (alloc_heap _ _ ts) as [[h' n'] xs]. simpl in Hd'.
  destruct P as (Hold & Hle & Hxs & Hndx & _ & Hdom & Hal).
  assert (forall y, y ∈ tasks c ++ done c -> (y < next_loc c)%positive /\ h' !! y = heap c !! y) as Hlt.
  { intros y Hy. rewrite Forall_forall in Ha. destruct (Ha y Hy) as [t Ht].
    pose proof (Hf y t Ht) as Hy'. simpl in Hy'. split; [done|]. by apply Hold. }
  assert (forall y, y ∈ xs -> (next_loc c <= y)%positive) as Hge.
  { intros y Hy. rewrite Forall_forall in Hxs. apply Hxs in Hy. lia. }
  constructor; simpl.
  - destruct k; simpl; apply Forall_app; split; try done;
      apply Forall_forall; intros y Hy; rewrite (proj2 (Hlt y ltac:(set_solver))); rewrite Forall_forall in Ha;
      apply Ha; set_solver.
  - apply NoDup_app in Hnd as (Hn1 & Hdis & Hn2).
    destruct k; simpl; apply NoDup_app; split_and!; try done;
      intros y Hy1 Hy2;
      [pose proof (Hge y Hy1); pose proof (proj1 (Hlt y ltac:(set_solver)))
      |pose proof (Hge y Hy2); pose proof (proj1 (Hlt y ltac:(set_solver)))]; lia.
  - intros y t Ht. destruct k; simpl in *;
      (destruct (Hdom y ltac:(by eexists)) as [[t' Ht']|Hy]; [|lia]);
      pose proof (Hf y t' Ht'); simpl in *; lia.
  - by destruct k.
Qed.

(** [restore] of one array: the browser is untouched; the component
    stays well formed, on every branch (a SyntaxError keeps it). *)
Lemma restore_inv key k c b : wf_todo c -> storage_wf b ->
  let p' := snd (restore key (set_data k) (mkPage c b)) in
  env p' = b /\ wf_todo (comp p') /\ todoForm (comp p') = todoForm c /\
  notificationInterval (comp p') = notificationInterval c /\
  notificationIntervalId (comp p') = notificationIntervalId c.
Proof.
  intros Hw Hs. rewrite restore_spec.
  destruct (getItem key b) as [s|] eqn:Eg; [|done]. destruct (truthy s); [|done].
  destruct (json_parse s) as [v|] eqn:Ep; [|done].
  destruct (decode_tasks v) as [ts|] eqn:Ed; [|done].
  assert (Forall (fun t => desc_wf (ITask.description t)) ts) as Hts.
  { apply (decode_tasks_descr v); [|done]. eapply json_parse_wf; [|exact Ep]. by apply (Hs key). }
  pose proof (wf_alloc_heap k c ts Hw Hts) as Hw'.
  destruct (alloc_heap _ _ _) as [[h' n'] xs]. simpl. split_and!; [done..|by destruct k|by destruct k|by destruct k].
Qed.

(** What [ngOnInit] leaves, in any browser: a well-formed component
    with the period 1, and either no timer (a stored text threw) or one
    new timer, at [next_timer], running every 60000 ms. *)
Lemma ngOnInit_shape b : storage_wf b ->
  let p := snd (ngOnInit (mkPage constructor b)) in
  wf_todo (comp p) /\ form_wf (comp p) /\ notificationInterval (comp p) = 1%Z /\ storage_wf (env p) /\
  ((notificationIntervalId (comp p) = None /\ timers (env p) = timers b /\ next_timer (env p) = next_timer b) \/
   (notificationIntervalId (comp p) = Some (next_timer b) /\
    timers (env p) = <[next_timer b := timer_delay 60000]> (timers b) /\
    next_timer (env p) = Pos.succ (next_timer b))).
Proof.
  intros Hs. cbv zeta. destruct (ngOnInit (mkPage constructor b)) as [r p] eqn:E. simpl.
  unfold ngOnInit in E. rewrite st_bind_update_comp in E. cbn [comp env] in E.
  set (c0 := set_todoForm (Some (Some [])) constructor) in E.
  assert (wf_todo c0) as Hw0.
  { constructor; simpl; try constructor; apply map_Forall_empty. }
  assert (form_wf c0) as Hf0 by constructor.
  change (restore (js "tasks") set_tasks) with (restore (js "tasks") (set_data CTasks)) in E.
  change (restore (js "done") set_done) with (restore (js "done") (set_data CDone)) in E.
  unfold st_bind at 1 in E. pose proof (restore_inv (js "tasks") CTasks c0 b Hw0 Hs) as (He1 & Hw1 & Hf1 & Hi1 & Hn1).
  destruct (restore _ _ (mkPage c0 b)) as [[[]|e] [c1 b1]]; simpl in He1, Hw1, Hf1, Hi1, Hn1; subst b1;
    [|injection E as <- <-; unfold form_wf; simpl; rewrite ?Hf1, ?Hi1, ?Hn1; split_and!; try done; left; by split_and!].
  unfold st_bind at 1 in E. pose proof (restore_inv (js "done") CDone c1 b Hw1 Hs) as (He2 & Hw2 & Hf2 & Hi2 & Hn2).
  destruct (restore _ _ (mkPage c1 b)) as [[[]|e] [c2 b2]]; simpl in He2, Hw2, Hf2, Hi2, Hn2; subst b2;
    [|injection E as <- <-; unfold form_wf; simpl; rewrite ?Hf2, ?Hf1, ?Hi2, ?Hi1, ?Hn2, ?Hn1; split_and!; try done;
      left; by split_and!].
  rewrite st_bind_lift_fn in E. unfold st_bind at 1 in E. rewrite checkAndNotify_spec in E by auto with todo.
  cbv iota beta in E. rewrite st_bind_get_comp, st_bind_lift_setInterval in E. cbn [comp env] in E.
  set (b3 := if has_pending _ _ then _ else _) in E.
  assert (same_store b3 b) as H3.
  { unfold b3. case_match; [etrans; [apply np_show_store|]|]; apply np_request_store. }
  destruct H3 as (Hs3 & _ & Ht3 & Hx3).
  injection E as <- <-. split_and!; simpl.
  - by apply (wf_fields c2).
  - unfold form_wf. simpl. rewrite Hf2, Hf1. done.
  - by rewrite Hi2, Hi1.
  - unfold storage_wf in *. simpl. by rewrite Hs3.
  - right. rewrite Ht3, Hx3, Hi2, Hi1. done.
Qed.

Lemma page_inv_idle c b : wf_todo c -> form_wf c -> timers b = ∅ -> storage_wf b ->
  (1 <= notificationInterval c)%Z -> page_inv (mkPage c b).
Proof.
  intros Hw Hf Ht Hs Hi. constructor; [done|done|..|done|done]; unfold timer_inv, period_inv; simpl; rewrite Ht;
    [apply map_Forall_empty|done].
Qed.

(** ** What an event does to the task objects

    An event writes the heap in one of two ways only: [addTask]
    allocates a fresh object with both flags [false], and [editTask]
    replaces an object's description in place.  Drops move references
    between the arrays and never touch an object. *)
Lemma handle_heap_cases e c b : wf_todo c ->
  let h' := heap (comp (snd (handle e (mkPage c b)))) in
  h' = heap c \/
  (exists item, h' = <[next_loc c := ITask.mk item false false]> (heap c)) \/
  (exists x t answer, heap c !! x = Some t /\ h' = <[x := edited answer t]> (heap c)).
Proof.
  intros Hw. destruct e; cbn [handle].
  - left. simpl. by case_match.
  - by left.
  - destruct (todoForm c) as [item|] eqn:E; [|left; by rewrite addTask_form_undefined].
    right; left. exists item. rewrite (addTask_spec c b item E Hw).
    pose proof (updateLocalStorage_snd_comp (pushed item c) b) as Hc.
    destruct (updateLocalStorage _) as [[] p']; simpl in *; [done|by rewrite Hc].
  - destruct (heap c !! task) as [t|] eqn:Ht; [|left; by rewrite editTask_dangling].
    right; right. exists task, t, answer.
    by rewrite (editTask_spec c b task answer t Ht), updateLocalStorage_snd_comp.
  - left. rewrite deleteTask_spec. destruct (_ >? _)%Z; [|done].
    rewrite updateLocalStorage_snd_comp. unfold deleted. by destruct (select_list list).
  - left. rewrite drop_comp by done. apply dropped_heap.
  - left. apply updateNotificationInterval_fields.
  - left. by rewrite (keeps_comp_tick id (mkPage c b) I).
  - by left.
Qed.

(** ** What is stored stays a sequence of code units *)

Lemma np_show_storage m b : storage (np_show m b) = storage b.
Proof. apply np_show_store. Qed.

(** ** What an event does to local storage

    Every write of a handler is [updateLocalStorage]'s: a property of
    the storage map that its two snapshots keep (the first write alone,
    when the second throws, and both) is kept by every event. *)
Section HandleStorage.
Variable Q : gmap jsstr jsstr -> Prop.
Hypothesis Q_snapshot : forall c m, wf_todo c -> Q m -> Q (snapshot1 c m) /\ Q (snapshot c m).

Lemma updateLocalStorage_keeps c b : wf_todo c -> Q (storage b) ->
  Q (storage (env (snd (updateLocalStorage (mkPage c b))))).
Proof.
  intros Hw Hq. destruct (Q_snapshot c _ Hw Hq). rewrite updateLocalStorage_spec. simpl.
  by repeat case_decide.
Qed.

Lemma handle_keeps_storage e c b : event_wf e -> wf_todo c -> form_wf c -> Q (storage b) ->
  Q (storage (env (snd (handle e (mkPage c b))))).
Proof.
  intros He Hw Hf Hs. destruct e; simpl in He |- *.
  - by try case_match.
  - done.
  - destruct (todoForm c) as [item|] eqn:E; [|by rewrite addTask_form_undefined].
    rewrite (addTask_spec c b item E Hw). unfold form_wf in Hf. rewrite E in Hf.
    pose proof (updateLocalStorage_keeps _ b (wf_pushed item c Hf Hw) Hs) as Hs'.
    destruct (updateLocalStorage _) as [[] p']; simpl in *; [by rewrite np_show_storage|done].
  - destruct (heap c !! task) as [t|] eqn:Ht; [|by rewrite editTask_dangling].
    rewrite (editTask_spec c b task answer t Ht).
    apply updateLocalStorage_keeps; [by apply wf_edited|done].
  - rewrite deleteTask_spec. destruct (_ >? _)%Z; [|done].
    apply updateLocalStorage_keeps; [by apply wf_deleted|done].
  - destruct (dropped_heap ev c) as [Hh _]. pose proof (wf_dropped ev c Hw) as Hw'.
    rewrite drop_spec; [|rewrite <-Hh; by apply wf_tasks_alloc|done].
    pose proof (updateLocalStorage_keeps _ b Hw' Hs) as Hs'.
    destruct (updateLocalStorage _) as [[] p']; simpl in *; [|done].
    case_match; [done|by rewrite np_show_storage].
  - rewrite updateNotificationInterval_spec. unfold cleared. simpl. by case_match.
  - unfold tick. case_decide; [|done].
    rewrite checkAndNotify_spec by auto with todo. simpl. case_match; [by rewrite np_show_storage|done].
  - by rewrite answer_permission_storage.
Qed.

End HandleStorage.

Lemma snapshot_storage_wf c m : wf_todo c -> map_Forall (fun _ s => wf_jsstr s) m ->
  map_Forall (fun _ s => wf_jsstr s) (snapshot1 c m) /\ map_Forall (fun _ s => wf_jsstr s) (snapshot c m).
Proof.
  intros Hw Hs. pose proof (stringify_wf _ (array_json_wf _ (tasks c) (wf_descr _ Hw))) as H1.
  pose proof (stringify_wf _ (array_json_wf _ (done c) (wf_descr _ Hw))) as H2.
  unfold snapshot, snapshot1. split; repeat apply map_Forall_insert_2; done.
Qed.

(** Every handler writes only [JSON.stringify] of well-formed arrays. *)
Lemma handle_storage_wf e c b : event_wf e -> wf_todo c -> form_wf c -> storage_wf b ->
  storage_wf (env (snd (handle e (mkPage c b)))).
Proof. apply handle_keeps_storage, snapshot_storage_wf. Qed.

Lemma stored_view_insert_ne m k k' s : k' <> k -> stored_view (<[k' := s]> m) k = stored_view m k.
Proof. intros Hne. unfold stored_view. by rewrite lookup_insert_ne. Qed.

(** What [updateLocalStorage] writes has the type [ITask[]]. *)
Lemma snapshot_typed c m : wf_todo c -> storage_typed m ->
  storage_typed (snapshot1 c m) /\ storage_typed (snapshot c m).
Proof.
  intros Hw [Ht Hd].
  assert (stored_view (snapshot1 c m) (js "tasks") = stored_view (snapshot c m) (js "tasks")) as E
    by (unfold snapshot; by rewrite stored_view_insert_ne).
  split; split.
  - rewrite E, stored_view_snapshot_tasks by done. by eexists.
  - unfold snapshot1. by rewrite stored_view_insert_ne.
  - rewrite stored_view_snapshot_tasks by done. by eexists.
  - rewrite stored_view_snapshot_done by done. by eexists.
Qed.

Lemma in_sync_fields c c' b b' : heap c' = heap c -> tasks c' = tasks c -> done c' = done c ->
  storage b' = storage b -> in_sync (mkPage c b) -> in_sync (mkPage c' b').
Proof. unfold in_sync. simpl. by intros -> -> -> ->. Qed.

Lemma updateLocalStorage_in_sync c b p' : wf_todo c ->
  updateLocalStorage (mkPage c b) = (Ok tt, p') -> comp p' = c /\ in_sync p'.
Proof.
  intros Hw E. rewrite updateLocalStorage_spec in E. simpl in E.
  destruct (decide _); [|done]. destruct (decide _); [|done]. injection E as <-.
  unfold in_sync. simpl. by rewrite stored_view_snapshot_tasks, stored_view_snapshot_done.
Qed.

(** Every handler that completes leaves storage in step: each change of
    the arrays or of a task object is followed by [updateLocalStorage]. *)
Lemma handle_in_sync e c b p' : event_wf e -> wf_todo c -> form_wf c -> in_sync (mkPage c b) ->
  handle e (mkPage c b) = (Ok tt, p') -> in_sync p'.
Proof.
  intros He Hw Hf Hs E. destruct e; simpl in He; cbn [handle] in E.
  - unfold input, update_comp in E. injection E as <-. simpl.
    by case_match; [apply (in_sync_fields c _ b)|].
  - unfold update_comp in E. injection E as <-. by apply (in_sync_fields c _ b).
  - destruct (todoForm c) as [item|] eqn:F; [|by rewrite addTask_form_undefined in E].
    rewrite (addTask_spec c b item F Hw) in E. unfold form_wf in Hf. rewrite F in Hf.
    destruct (updateLocalStorage _) as [[[]|?] p1] eqn:U; [|done]. injection E as <-.
    destruct (updateLocalStorage_in_sync _ _ _ (wf_pushed item c Hf Hw) U) as [Hc S1].
    destruct p1 as [c1 b1]. simpl in Hc. subst c1. apply (in_sync_fields (pushed item c) _ b1); try done.
    apply np_show_storage.
  - destruct (heap c !! task) as [t|] eqn:Ht; [|by rewrite editTask_dangling in E].
    rewrite (editTask_spec c b task answer t Ht) in E.
    eapply updateLocalStorage_in_sync; [by apply wf_edited|exact E].
  - rewrite deleteTask_spec in E. destruct (_ >? _)%Z; [|by injection E as <-].
    eapply updateLocalStorage_in_sync; [by apply wf_deleted|exact E].
  - destruct (dropped_heap ev c) as [Hh _].
    rewrite drop_spec in E; [|rewrite <-Hh; by apply wf_tasks_alloc, wf_dropped|done].
    destruct (updateLocalStorage _) as [[[]|?] p1] eqn:U; [|done]. injection E as <-.
    destruct (updateLocalStorage_in_sync _ _ _ (wf_dropped ev c Hw) U) as [Hc S1].
    destruct p1 as [c1 b1]. simpl in Hc. subst c1. apply (in_sync_fields (dropped ev c) _ b1); try done.
    case_match; [done|apply np_show_storage].
  - rewrite updateNotificationInterval_spec in E. injection E as <-.
    apply (in_sync_fields c _ b); try done. unfold cleared. simpl. by case_match.
  - unfold tick in E. case_decide; [|by injection E as <-].
    rewrite checkAndNotify_spec in E by auto with todo. injection E as <-.
    apply (in_sync_fields c _ b); try done. case_match; [apply np_show_storage|done].
  - unfold lift_fn in E. injection E as <-. apply (in_sync_fields c _ b); try done.
    apply answer_permission_storage.
Qed.

(** A load that completes leaves storage in step. *)
Lemma ngOnInit_in_sync b p : ngOnInit (mkPage constructor b) = (Ok tt, p) -> in_sync p.
Proof.
  intros E. destruct (ngOnInit_read b p E) as [[l1 H1] [l2 H2]].
  destruct (ngOnInit_reload b l1 l2 H1 H2) as (c' & b' & E' & Hs & V1 & V2).
  rewrite E' in E. injection E as <-. unfold in_sync. simpl. by rewrite Hs, V1, V2.
Qed.

(** On a browser whose entries are typed, [ngOnInit] completes. *)
Lemma ngOnInit_ok b : storage_typed (storage b) -> fst (ngOnInit (mkPage constructor b)) = Ok tt.
Proof. intros [[l1 H1] [l2 H2]]. by destruct (ngOnInit_reload b l1 l2 H1 H2) as (c' & b' & -> & _). Qed.

(** [ngOnInit] establishes the invariant, whether it completes or a
    stored text throws. *)
Lemma ngOnInit_inv b : timers b = ∅ -> storage_wf b -> page_inv (snd (ngOnInit (mkPage constructor b))).
Proof.
  intros Ht Hs. destruct (ngOnInit_shape b Hs) as (Hw & Hf & Hi & Hs' & [(Hn & Ht' & _)|(Hn & Ht' & _)]);
    destruct (snd (ngOnInit _)) as [c' b']; simpl in *.
  - apply page_inv_idle; [done|done|by rewrite Ht', Ht|done|rewrite Hi; lia].
  - rewrite Ht, insert_empty in Ht'. constructor; simpl; [done|done| | |done|rewrite Hi; lia].
    + unfold timer_inv. simpl. rewrite Ht'. by apply map_Forall_singleton.
    + unfold period_inv. simpl. rewrite Hn, Ht'. intros id d [= <-]. rewrite lookup_singleton_eq.
      intros [= <-]. by rewrite Hi.
Qed.

(** [updateNotificationInterval()] on a page whose timers are the
    component's: one timer runs afterwards, the new one. *)
Lemma updateNotificationInterval_timers c b :
  timer_inv (mkPage c b) ->
  let p' := snd (updateNotificationInterval (mkPage c b)) in
  timers (env p') = {[ next_timer b := timer_delay (coerce_interval (newNotificationInterval c) * 60000) ]} /\
  notificationIntervalId (comp p') = Some (next_timer b) /\
  notificationInterval (comp p') = coerce_interval (newNotificationInterval c) /\
  newNotificationInterval (comp p') = None.
Proof.
  intros Hi. rewrite updateNotificationInterval_spec. simpl.
  rewrite cleared_empty, cleared_next_timer by done. by rewrite insert_empty.
Qed.

Lemma handle_timer_inv e p : page_inv p -> timer_inv (snd (handle e p)).
Proof.
  destruct p as [c b]. intros [_ _ Ht _ _].
  destruct e; try (eapply timer_inv_view; [apply keeps_timers_handle; discriminate|exact Ht]).
  destruct (updateNotificationInterval_timers c b Ht) as (H1 & H2 & _).
  unfold timer_inv. cbn [handle]. rewrite H1, H2. by apply map_Forall_singleton.
Qed.

Lemma period_inv_view p p' : timer_view p' = timer_view p -> period_inv p -> period_inv p'.
Proof. unfold timer_view, period_inv. intros Heq. injection Heq as -> _ -> ->. done. Qed.

Lemma handle_period_inv e p : page_inv p -> period_inv (snd (handle e p)).
Proof.
  destruct p as [c b]. intros [_ _ Ht Hp _].
  destruct e; try (eapply period_inv_view; [apply keeps_timers_handle; discriminate|exact Hp]).
  destruct (updateNotificationInterval_timers c b Ht) as (H1 & H2 & H3 & _).
  unfold period_inv. cbn [handle]. rewrite H1, H2, H3. intros id d [= <-].
  rewrite lookup_singleton_eq. by intros [= <-].
Qed.

Lemma interval_view p p' : timer_view p' = timer_view p ->
  (1 <= notificationInterval (comp p))%Z -> (1 <= notificationInterval (comp p'))%Z.
Proof. unfold timer_view. intros Heq. injection Heq as _ _ _ ->. done. Qed.

(** The period is at least one minute: [coerce_interval] has
    [Math.max(1, ...)]. *)
Lemma handle_interval_inv e p : page_inv p -> (1 <= notificationInterval (comp (snd (handle e p))))%Z.
Proof.
  destruct p as [c b]. intros [_ _ Ht _ _ Hi].
  destruct e; try (eapply interval_view; [apply keeps_timers_handle; discriminate|exact Hi]).
  destruct (updateNotificationInterval_timers c b Ht) as (_ & _ & H3 & _).
  cbn [handle]. rewrite H3. apply Z.le_max_l.
Qed.

Lemma handle_comp_inv e c b : event_wf e -> wf_todo c -> form_wf c ->
  let c' := comp (snd (handle e (mkPage c b))) in wf_todo c' /\ form_wf c'.
Proof.
  intros He Hw Hf. unfold form_wf in *.
  destruct e; simpl in He |- *.
  - case_match; simpl; [|by rewrite H]. split; [|done]. by apply (wf_fields c).
  - split; [by apply (wf_fields c)|done].
  - by apply addTask_inv.
  - destruct (editTask_inv c b task answer He Hw) as [? ->]. done.
  - destruct (deleteTask_inv c b task list Hw) as [? ->]. done.
  - destruct (drop_inv c b ev Hw) as [? ->]. done.
  - destruct (updateNotificationInterval_fields c b) as (? & ? & ? & ? & ->).
    split; [by apply (wf_fields c)|done].
  - by rewrite (keeps_comp_tick id (mkPage c b) I).
  - done.
Qed.

Lemma handle_inv e p : event_wf e -> page_inv p -> page_inv (snd (handle e p)).
Proof.
  intros He Hp. pose proof (handle_timer_inv e p Hp) as Ht. pose proof (handle_period_inv e p Hp) as Hq.
  pose proof (handle_interval_inv e p Hp) as Hi.
  destruct p as [c b]. destruct Hp as [Hw Hf _ _ Hs].
  pose proof (handle_storage_wf e c b He Hw Hf Hs).
  destruct (handle_comp_inv e c b He Hw Hf). by constructor.
Qed.

(** The invariant holds of every page the browser can show. *)
Theorem reachable_inv p : reachable p -> page_inv p.
Proof.
  induction 1 as [b r p Ht Hs Hi|p e r p' _ IH He Hh].
  - pose proof (ngOnInit_inv b Ht Hs) as Hp. by rewrite Hi in Hp.
  - pose proof (handle_inv e p He IH) as Hp. by rewrite Hh in Hp.
Qed.

Lemma timer_inv_size p : timer_inv p -> size (timers (env p)) <= 1.
Proof.
  unfold timer_inv. destruct p as [c b]. simpl. intros Hi.
  destruct (notificationIntervalId c) as [id|].
  - assert (timers b = match timers b !! id with Some d => {[id := d]} | None => ∅ end) as ->.
    { apply map_eq. intros j. destruct (decide (j = id)) as [->|Hne].
      - case_match; [by rewrite lookup_singleton_eq|by rewrite lookup_empty].
      - destruct (timers b !! j) eqn:Ej; [specialize (Hi _ _ Ej); simpl in Hi; congruence|].
        case_match; [by rewrite lookup_singleton_ne|by rewrite lookup_empty]. }
    case_match; [rewrite map_size_singleton|rewrite map_size_empty]; lia.
  - assert (timers b = ∅) as ->; [|rewrite map_size_empty; lia].
    apply map_empty. intros j. destruct (timers b !! j) eqn:Ej; [|done].
    specialize (Hi _ _ Ej). simpl in Hi. congruence.
Qed.

(** ** Messages *)

Lemma bodies_set_storage m b : bodies (set_storage m b) = bodies b.
Proof. done. Qed.

Lemma np_show_bodies_if msg b (q : bool) :
  bodies (if q then b else np_show msg b) = bodies b ++ (if q then [] else if np_enabled b then [msg] else []).
Proof. destruct q; [by rewrite app_nil_r|apply np_show_bodies]. Qed.

(** [drop] whose two writes fit: the arrays are moved, and "All tasks
    completed!" is shown when no task of [tasks] is pending afterwards. *)
Lemma drop_fits_bodies c b ev : wf_todo c -> persist_fits (dropped ev c) b ->
  let p' := snd (drop ev (mkPage c b)) in
  comp p' = dropped ev c /\
  bodies (env p') = bodies b ++ (if has_pending (heap c) (tasks (dropped ev c)) then []
                                 else if np_enabled b then [js "All tasks completed!"] else []).
Proof.
  intros Hw Hfit. pose proof (wf_dropped ev c Hw) as Hw'. destruct (dropped_heap ev c) as [Hh _].
  rewrite drop_spec; [|rewrite <-Hh; by apply wf_tasks_alloc|done].
  rewrite updateLocalStorage_fits by done. simpl. split; [done|].
  by rewrite np_show_bodies_if, np_enabled_storage.
Qed.

Lemma tick_spec id c b : wf_todo c ->
  tick id (mkPage c b) =
  (Ok tt, mkPage c (if bool_decide (is_Some (timers b !! id)) && has_pending (heap c) (tasks c)
                    then np_show (js "You have pending tasks in the Todo list!") b else b)).
Proof.
  intros Hw. unfold tick. simpl. case_decide; [rewrite bool_decide_true by done|by rewrite bool_decide_false].
  rewrite checkAndNotify_spec by auto with todo. done.
Qed.

(** What a tick does on a well-formed page. *)
Lemma tick_bodies id c b : wf_todo c ->
  let p' := snd (tick id (mkPage c b)) in
  comp p' = c /\
  bodies (env p') = bodies b ++ (if bool_decide (is_Some (timers b !! id)) && has_pending (heap c) (tasks c)
                                    && np_enabled b
                                 then [js "You have pending tasks in the Todo list!"] else []).
Proof.
  intros Hw. rewrite tick_spec by done. simpl. split; [done|].
  destruct (bool_decide _), (has_pending _ _); simpl; [apply np_show_bodies|by rewrite app_nil_r..].
Qed.

(** Dragging the first pending task to the end of [done]. *)
Lemma dropped_transfer_first c x rest :
  tasks c = x :: rest ->
  dropped (mkDrop CTasks CDone 0 (Z.of_nat (length (done c)))) c = set_done (done c ++ [x]) (set_tasks rest c).
Proof.
  intros Ht. unfold dropped. simpl.
  rewrite transferArrayItem_spec, Ht. unfold clamp. cbn [length data container previousContainer].
  rewrite Nat2Z.inj_succ.
  rewrite (Z.min_r _ 0), Z.max_id, (Z.min_r _ (Z.of_nat _)), Z.max_r, Nat2Z.id by lia. simpl.
  unfold insert_at. rewrite firstn_all, drop_all. done.
Qed.

(** ** What the user and the browser can always still do *)

(** Dragging the pending tasks one by one to the end of [done]: the
    tasks become completed in their order, no object changes. *)
(** A page one event away from a reachable page is reachable. *)
Lemma page_step_reachable p p' : reachable p -> page_step p p' -> reachable p'.
Proof.
  intros Hr (e & He & <-). apply (reach_step p e (fst (handle e p))); [done|done|apply surjective_pairing].
Qed.

Lemma drain_tasks n p : reachable p -> length (tasks (comp p)) = n ->
  exists p', rtc page_step p p' /\ reachable p' /\ tasks (comp p') = [] /\
    done (comp p') = done (comp p) ++ tasks (comp p) /\ heap (comp p') = heap (comp p).
Proof.
  revert p. induction n as [|n IH]; intros p Hr Hn.
  { exists p. destruct (tasks (comp p)) eqn:E; [|done]. rewrite app_nil_r. by split_and!. }
  destruct (tasks (comp p)) as [|x rest] eqn:Ht; [done|].
  set (e := EvDrop (mkDrop CTasks CDone 0 (Z.of_nat (length (done (comp p)))))).
  assert (comp (snd (handle e p)) = set_done (done (comp p) ++ [x]) (set_tasks rest (comp p))) as Hc.
  { destruct p as [c b]. cbn [handle e]. rewrite drop_comp by apply (inv_wf _ (reachable_inv _ Hr)).
    by apply dropped_transfer_first. }
  assert (reachable (snd (handle e p))) as Hr1.
  { apply (reach_step p e (fst (handle e p))); [done|exact I|apply surjective_pairing]. }
  destruct (IH _ Hr1) as (p' & Hs & Hr' & Ht' & Hd & Hh); [rewrite Hc; simpl in *; lia|].
  exists p'. rewrite Hc in Hd, Hh. simpl in Hd, Hh. split_and!; [|done|done| |done].
  - eapply rtc_l; [|exact Hs]. by exists e.
  - rewrite Hd, <-app_assoc. done.
Qed.

(** On a page whose timer is live, with a pending task and notifications
    enabled, the timer's tick shows the reminder and leaves the page as
    it was, timer, tasks and permission included. *)
Lemma reminder_step p n : reachable p -> sched_view p = Scheduler.Active n ->
  has_pending (heap (comp p)) (tasks (comp p)) = true -> np_enabled (env p) = true ->
  exists p', page_step p p' /\ reachable p' /\ sched_view p' = Scheduler.Active n /\
    comp p' = comp p /\ np_enabled (env p') = true /\
    bodies (env p') = bodies (env p) ++ [js "You have pending tasks in the Todo list!"].
Proof.
  intros Hr Hs Hp He. destruct p as [c b]. pose proof (inv_wf _ (reachable_inv _ Hr)) as Hw.
  unfold sched_view in Hs. simpl in *.
  destruct (notificationIntervalId c) as [id|] eqn:Ei; [|done]. case_decide as Hl; [|done].
  assert (handle (EvTick id) (mkPage c b) =
          (Ok tt, mkPage c (np_show (js "You have pending tasks in the Todo list!") b))) as Hh.
  { cbn [handle]. rewrite tick_spec by done. by rewrite bool_decide_true, Hp. }
  exists (mkPage c (np_show (js "You have pending tasks in the Todo list!") b)). split_and!.
  - exists (EvTick id). split; [exact I|]. by rewrite Hh.
  - by apply (reach_step (mkPage c b) (EvTick id) (Ok tt)).
  - unfold sched_view. simpl. rewrite Ei, np_show_timers. by case_decide.
  - done.
  - simpl. by rewrite np_show_enabled.
  - simpl. by rewrite np_show_bodies, He.
Qed.

Lemma Qfloor_neg q : (q < 0)%Q -> (Qfloor q < 0)%Z.
Proof.
  intros Hq. rewrite Zlt_Qlt. eapply Qle_lt_trans; [apply Qfloor_le|exact Hq].
Qed.

(** ** The properties of the page *)

(** C1: Every page the browser can show keeps each task in exactly one of
    the two arrays, once, and every reference of the arrays names a
    task object. *)
Theorem reachable_one_list p : reachable p ->
  NoDup (tasks (comp p) ++ done (comp p)) /\
  Forall (fun x => is_Some (heap (comp p) !! x)) (tasks (comp p) ++ done (comp p)).
Proof. intros Hr. destruct (reachable_inv p Hr) as [[Ha Hnd _ _] _ _ _]. done. Qed.

(** C5: At most one timer is live on every page the browser can show. *)
Theorem reachable_one_timer p : reachable p -> size (timers (env p)) <= 1.
Proof. intros Hr. apply timer_inv_size, (reachable_inv p Hr). Qed.

(** C12: Clicking Update on a shown page cancels the running timer and
    starts exactly one, at the coerced period in milliseconds. *)
Theorem update_interval_replaces_timer p : reachable p ->
  let p' := snd (handle EvUpdateInterval p) in
  timers (env p') =
    {[ next_timer (env p) := timer_delay (coerce_interval (newNotificationInterval (comp p)) * 60000) ]} /\
  notificationIntervalId (comp p') = Some (next_timer (env p)).
Proof.
  intros Hr. destruct p as [c b]. pose proof (inv_timer _ (reachable_inv _ Hr)) as Ht.
  destruct (updateNotificationInterval_timers c b Ht) as (H1 & H2 & _). by split.
Qed.

(** C20: A period from 35792 to 71582 minutes overflows the int32 delay of
    [setInterval]: the new timer has delay 0 and fires continuously. *)
Theorem update_interval_overflow p : reachable p ->
  (35792 <= coerce_interval (newNotificationInterval (comp p)) <= 71582)%Z ->
  timers (env (snd (handle EvUpdateInterval p))) = {[ next_timer (env p) := 0%Z ]}.
Proof.
  intros Hr Hn. destruct p as [c b]. pose proof (inv_timer _ (reachable_inv _ Hr)) as Ht.
  destruct (updateNotificationInterval_timers c b Ht) as (H1 & _). simpl in *.
  by rewrite H1, timer_delay_minutes_wrap.
Qed.

(** C19: A negative input is floored before its absolute value is taken:
    the period is the ceiling of its magnitude, so -3.7 gives 4. *)
Theorem coerce_interval_negative q : (q < 0)%Q -> coerce_interval (Some q) = Qceiling (- q).
Proof.
  intros Hq. unfold coerce_interval, or_zero.
  destruct (Qeq_bool q 0) eqn:E.
  { apply Qeq_bool_eq in E. rewrite E in Hq. discriminate. }
  unfold Qceiling. rewrite (Qfloor_comp (- - q) q) by apply Qopp_opp.
  pose proof (Qfloor_neg q Hq). lia.
Qed.

(** C16: The spec's transfer scenario: dragging the only pending task to
    the end of [done] empties [tasks], appends it to [done], shows
    "All tasks completed!" once (when notifications are enabled), and
    no later tick shows a reminder. *)
Theorem transfer_last_pending c b x :
  wf_todo c -> tasks c = [x] ->
  let ev := mkDrop CTasks CDone 0 (Z.of_nat (length (done c))) in
  persist_fits (dropped ev c) b ->
  let p' := snd (drop ev (mkPage c b)) in
  tasks (comp p') = [] /\ done (comp p') = done c ++ [x] /\
  bodies (env p') = bodies b ++ (if np_enabled b then [js "All tasks completed!"] else []) /\
  forall id, bodies (env (snd (tick id p'))) = bodies (env p').
Proof.
  intros Hw Ht ev Hfit p'.
  destruct (drop_fits_bodies c b ev Hw Hfit) as [Hc Hb]. fold p' in Hc, Hb.
  pose proof (dropped_transfer_first c x [] Ht) as Hd. fold ev in Hd.
  rewrite Hd in Hc, Hb. simpl in Hb. rewrite Hc. split_and!; [done|done|done|].
  intros id. destruct p' as [c' b']. simpl in Hc. subst c'.
  pose proof (wf_dropped ev c Hw) as Hw'. rewrite Hd in Hw'.
  destruct (tick_bodies id _ b' Hw') as [_ ->]. simpl. rewrite andb_false_r. apply app_nil_r.
Qed.

(** C23: A drop inside [done] while [tasks] is empty shows "All tasks
    completed!" again: the message does not wait for [tasks] to become
    empty, it follows every drop that leaves no pending task. *)
Theorem drop_done_repeats_completed c b from to :
  wf_todo c -> tasks c = [] ->
  persist_fits (dropped (mkDrop CDone CDone from to) c) b ->
  bodies (env (snd (drop (mkDrop CDone CDone from to) (mkPage c b)))) =
    bodies b ++ (if np_enabled b then [js "All tasks completed!"] else []).
Proof.
  intros Hw Ht Hfit. destruct (drop_fits_bodies c b _ Hw Hfit) as [_ ->].
  unfold dropped. simpl. by rewrite Ht.
Qed.

(** C18: A tick of the live timer shows the reminder when a task of [tasks]
    is pending and notifications are enabled; a tick of any other id
    does nothing; neither changes the component. *)
Theorem tick_reminder p id : reachable p ->
  let p' := snd (handle (EvTick id) p) in
  comp p' = comp p /\
  bodies (env p') = bodies (env p) ++
    (if bool_decide (is_Some (timers (env p) !! id)) && has_pending (heap (comp p)) (tasks (comp p))
        && np_enabled (env p)
     then [js "You have pending tasks in the Todo list!"] else []).
Proof.
  intros Hr. destruct p as [c b]. apply tick_bodies, (reachable_inv _ Hr).
Qed.

(** C29: Once the two entries of local storage have the type
    [ITask[]] the component gives them (absent, empty, or the JSON text
    of an array of task records), they keep it on every page the user
    and the browser can reach from there, and a reload on any of these
    pages runs [ngOnInit] to the end: the stored data never makes
    [JSON.parse] throw a SyntaxError or hold something else than tasks. *)
Theorem reachable_storage_typed p p' : reachable p -> storage_typed (storage (env p)) ->
  rtc page_step p p' ->
  storage_typed (storage (env p')) /\ fst (ngOnInit (mkPage constructor (env p'))) = Ok tt.
Proof.
  intros Hr Ht Hs. induction Hs as [p|p p1 p' Hst _ IH].
  - split; [done|]. by apply ngOnInit_ok.
  - apply IH; [by apply (page_step_reachable p)|].
    destruct Hst as (e & He & <-). destruct (reachable_inv p Hr) as [Hw Hf _ _ _ _].
    destruct p as [c b]. apply handle_keeps_storage; [apply snapshot_typed|done..].
Qed.

(** C36: What the user sees is what is saved: after the page loads
    and any sequence of events whose handlers complete (add, edit,
    delete, drop, typing, interval changes, ticks, permission answers),
    a reload of the page completes and shows exactly the same two
    lists, record for record and in order. *)
Theorem saved_lists_reload b p p' : timers b = ∅ -> storage_wf b ->
  ngOnInit (mkPage constructor b) = (Ok tt, p) -> rtc ok_step p p' ->
  exists c' b', ngOnInit (mkPage constructor (env p')) = (Ok tt, mkPage c' b') /\ abs c' = abs (comp p').
Proof.
  intros Ht Hs E Hst. assert (reachable p) as Hr by (eapply reach_init; eauto).
  assert (in_sync p') as [H1 H2].
  { pose proof (ngOnInit_in_sync b p E) as S. clear E. revert Hr S.
    induction Hst as [p|p p1 p' (e & He & E) _ IH]; intros Hr S; [done|].
    apply IH; [by apply (reach_step p e (Ok tt))|].
    destruct (reachable_inv p Hr) as [Hw Hf _ _ _ _]. destruct p as [c b0]. by eapply handle_in_sync. }
  destruct (ngOnInit_reload _ _ _ H1 H2) as (c' & b' & E' & _ & V1 & V2).
  exists c', b'. split; [done|]. unfold abs. by rewrite V1, V2.
Qed.

(** C30: From every page the browser can show, the user can still
    complete every task: a sequence of drops reaches a page where
    [tasks] is empty and [done] is the old [done] followed by the old
    [tasks], in order, with no task object changed. *)
Theorem reachable_all_done p : reachable p ->
  exists p', rtc page_step p p' /\ reachable p' /\ tasks (comp p') = [] /\
    done (comp p') = done (comp p) ++ tasks (comp p) /\ heap (comp p') = heap (comp p).
Proof. intros Hr. by apply (drain_tasks (length (tasks (comp p)))). Qed.

(** C31: While the timer is live, a task is pending and notifications
    are enabled, the reminder keeps coming: for every [k], the ticks of
    the timer reach a page that has shown it [k] more times. *)
Theorem reminder_recurs p n k : reachable p -> sched_view p = Scheduler.Active n ->
  has_pending (heap (comp p)) (tasks (comp p)) = true -> np_enabled (env p) = true ->
  exists p', rtc page_step p p' /\
    bodies (env p') = bodies (env p) ++ repeat (js "You have pending tasks in the Todo list!") k.
Proof.
  revert p. induction k as [|k IH]; intros p Hr Hs Hp He; [exists p; by rewrite app_nil_r|].
  destruct (reminder_step p n Hr Hs Hp He) as (p1 & Hst & Hr1 & Hs1 & Hc & He1 & Hb).
  destruct (IH p1) as (p' & Hrt & Hb'); [done|done|by rewrite Hc|done|].
  exists p'. split; [by eapply rtc_l|]. rewrite Hb', Hb, <-app_assoc. done.
Qed.

(** C32: No event ever sets a task's [done] or [editing] flag: an object
    that has one of them after an event is an object that had the same
    flags before.  Dragging a task to [done] leaves [done: false], so
    the flag and the list the task is in are never reconciled. *)
Theorem flags_never_set p e x t' : reachable p ->
  heap (comp (snd (handle e p))) !! x = Some t' -> ITask.done t' = true \/ ITask.editing t' = true ->
  exists t, heap (comp p) !! x = Some t /\ ITask.done t = ITask.done t' /\ ITask.editing t = ITask.editing t'.
Proof.
  intros Hr Hx Hf. destruct p as [c b].
  destruct (handle_heap_cases e c b (inv_wf _ (reachable_inv _ Hr))) as [Hh|[[item Hh]|(y & t & a & Hy & Hh)]];
    simpl in *; rewrite Hh in Hx; [by exists t'| |].
  - destruct (decide (x = next_loc c)) as [->|Hne].
    + rewrite lookup_insert_eq in Hx. injection Hx as <-. simpl in Hf. by destruct Hf.
    + rewrite lookup_insert_ne in Hx by congruence. by exists t'.
  - destruct (decide (x = y)) as [->|Hne].
    + rewrite lookup_insert_eq in Hx. injection Hx as <-. by exists t.
    + rewrite lookup_insert_ne in Hx by congruence. by exists t'.
Qed.

(** C33: On every page the browser can show the period is at least one
    minute, and the live timer's delay is the period in milliseconds,
    so at least 60000, as long as the period is at most 35791 minutes
    (past it the int32 conversion wraps, C20). *)
Theorem reachable_period_bounds p : reachable p ->
  (1 <= notificationInterval (comp p))%Z /\
  forall id d, timers (env p) !! id = Some d -> (notificationInterval (comp p) <= 35791)%Z ->
  d = (notificationInterval (comp p) * 60000)%Z /\ (60000 <= d)%Z.
Proof.
  intros Hr. destruct (reachable_inv p Hr) as [_ _ Ht Hp _ Hi]. split; [done|].
  intros id d Hd Hn. rewrite (Hp id d (Ht id d Hd) Hd), timer_delay_minutes by lia. lia.
Qed.

(** C21: A stored [tasks] entry that is not JSON makes [ngOnInit] throw a
    SyntaxError right after building the form: no array is restored,
    no permission is requested, no check is made and no timer starts. *)
Theorem ngOnInit_corrupt b s :
  getItem (js "tasks") b = Some s -> truthy s = true -> json_parse s = None ->
  ngOnInit (mkPage constructor b) = (Throw SyntaxError, mkPage (set_todoForm (Some (Some [])) constructor) b).
Proof.
  intros Hg Ht Hp. unfold ngOnInit. rewrite st_bind_update_comp. cbn [comp env].
  unfold st_bind at 1. by rewrite restore_spec, Hg, Ht, Hp.
Qed.

Lemma ngOnInit_nothing_stored b :
  storage b = ∅ ->
  let b1 := np_request b in
  ngOnInit (mkPage constructor b) =
  (Ok tt, mkPage (set_intervalId (Some (next_timer b1)) (set_todoForm (Some (Some [])) constructor))
                 (set_timers (<[next_timer b1 := timer_delay 60000]> (timers b1)) (Pos.succ (next_timer b1)) b1)).
Proof.
  intros Hs. unfold ngOnInit. rewrite st_bind_update_comp. cbn [comp env].
  unfold st_bind at 1. rewrite restore_spec. unfold getItem. rewrite Hs, lookup_empty.
  unfold st_bind at 1. rewrite restore_spec. unfold getItem. rewrite Hs, lookup_empty.
  rewrite st_bind_lift_fn. unfold st_bind at 1. rewrite checkAndNotify_spec by constructor.
  cbv iota beta. by rewrite st_bind_get_comp, st_bind_lift_setInterval.
Qed.

(** C24: On a first visit (nothing stored) [ngOnInit] leaves both arrays
    empty, shows nothing, and starts one timer of one minute. *)
Theorem ngOnInit_empty_storage b :
  storage b = ∅ ->
  let p' := snd (ngOnInit (mkPage constructor b)) in
  tasks (comp p') = [] /\ done (comp p') = [] /\
  timers (env p') = <[next_timer b := 60000%Z]> (timers b) /\
  notificationIntervalId (comp p') = Some (next_timer b) /\ bodies (env p') = bodies b.
Proof.
  intros Hs. rewrite ngOnInit_nothing_stored by done. simpl.
  destruct (np_request_store b) as (_ & _ & -> & ->). split_and!; try done.
  apply np_request_bodies.
Qed.

(** C17: [addTask()] whose writes fit: the new task is appended, both
    arrays are stored, the form is reset to [null], and "New Task
    added: " followed by the description (the text "null" for a
    reset form) is shown when notifications are enabled. *)
Theorem addTask_notifies c b item :
  wf_todo c -> todoForm c = Some item -> persist_fits (pushed item c) b ->
  let p' := snd (addTask (mkPage c b)) in
  abs (comp p') = TaskStore.add item (abs c) /\ todoForm (comp p') = Some None /\
  storage (env p') = snapshot (pushed item c) (storage b) /\
  bodies (env p') = bodies b ++ (if np_enabled b then [js "New Task added: " ++ desc_text item] else []).
Proof.
  intros Hw Hf Hfit. rewrite (addTask_spec c b item Hf Hw), updateLocalStorage_fits by done.
  simpl. split_and!.
  - rewrite <-(abs_pushed item c Hw). done.
  - done.
  - apply np_show_store.
  - by rewrite np_show_bodies, np_enabled_storage.
Qed.

(** C40: [Validators.required] does not guard [addTask]: on a page whose
    form is invalid (its value is [null] after a reset, or empty), Add
    still appends a new task object with that description, whether or
    not the storage writes succeed. *)
Theorem invalid_form_adds p item : reachable p -> todoForm (comp p) = Some item ->
  form_valid (comp p) = false ->
  (item = None \/ item = Some []) /\
  exists x, tasks (comp (snd (handle EvAdd p))) = tasks (comp p) ++ [x] /\
            heap (comp (snd (handle EvAdd p))) !! x = Some (ITask.mk item false false).
Proof.
  intros Hr Hf Hv. destruct p as [c b]. pose proof (inv_wf _ (reachable_inv _ Hr)) as Hw. simpl in *.
  split.
  { unfold form_valid in Hv. rewrite Hf in Hv. destruct item as [[|? ?]|]; [by right|done|by left]. }
  exists (next_loc c). cbn [handle]. rewrite (addTask_spec c b item Hf Hw).
  pose proof (updateLocalStorage_snd_comp (pushed item c) b) as Hc.
  destruct (updateLocalStorage _) as [[] p']; simpl in *; [|rewrite Hc]; simpl;
    (split; [done|by rewrite lookup_insert_eq]).
Qed.

(** ** The scheduler *)

Lemma sched_view_view p p' : timer_view p' = timer_view p -> sched_view p' = sched_view p.
Proof. unfold timer_view, sched_view. intros Heq. injection Heq as -> _ -> ->. done. Qed.

(** C6: The page refines the spec's two-state scheduler: on a shown
    page, Update makes it active at the coerced period and every other
    event leaves it as it is. *)
Theorem scheduler_refines p e : reachable p ->
  sched_view (snd (handle e p)) = Scheduler.step e (newNotificationInterval (comp p)) (sched_view p).
Proof.
  intros Hr. destruct p as [c b]. pose proof (inv_timer _ (reachable_inv _ Hr)) as Ht.
  destruct e; try (apply sched_view_view, keeps_timers_handle; discriminate).
  destruct (updateNotificationInterval_timers c b Ht) as (H1 & H2 & H3 & _).
  unfold sched_view. cbn [handle Scheduler.step comp]. rewrite H1, H2, H3, lookup_singleton_eq.
  by rewrite decide_True by by eexists.
Qed.

(** C7: The scheduler a shown page is in describes its timers: idle,
    no timer is live; active at [n] minutes, exactly one timer is live,
    with the delay of [n] minutes in milliseconds. *)
Theorem reachable_scheduler p : reachable p ->
  match sched_view p with
  | Scheduler.Idle => timers (env p) = ∅
  | Scheduler.Active n => exists id, timers (env p) = {[ id := timer_delay (n * 60000) ]}
  end.
Proof.
  intros Hr. destruct (reachable_inv p Hr) as [_ _ Ht Hp _]. destruct p as [c b].
  unfold sched_view, timer_inv, period_inv in *. simpl in *.
  assert (forall j, j <> default 1%positive (notificationIntervalId c) \/ notificationIntervalId c = None ->
          timers b !! j = None) as Hother.
  { intros j Hj. destruct (timers b !! j) eqn:Ej; [|done]. specialize (Ht _ _ Ej). simpl in Ht.
    destruct Hj as [Hj|Hj]; rewrite Ht in Hj; simpl in Hj; congruence. }
  destruct (notificationIntervalId c) as [id|] eqn:Ei.
  - case_decide as Hl.
    + destruct Hl as [d Hd]. exists id. rewrite <-(Hp id d eq_refl Hd).
      apply map_eq. intros j. destruct (decide (j = id)) as [->|Hne].
      * by rewrite lookup_singleton_eq.
      * rewrite lookup_singleton_ne by done. apply Hother. by left.
    + apply map_empty. intros j. destruct (decide (j = id)) as [->|Hne].
      * destruct (timers b !! id) eqn:E; [|done]. exfalso. apply Hl. by eexists.
      * apply Hother. by left.
  - apply map_empty. intros j. apply Hother. by right.
Qed.

(** ** The Task Store *)

Lemma position_lookup x l i : position x l = Some i -> l !! i = Some x.
Proof.
  unfold position. destruct (list_find _ l) as [[j y]|] eqn:E; [|done]. intros [= <-].
  apply list_find_Some in E as (? & -> & _). done.
Qed.

Lemma position_None x l : position x l = None -> x ∉ l.
Proof.
  unfold position. destruct (list_find _ l) eqn:E; [done|]. intros _.
  apply list_find_None in E. rewrite Forall_forall in E. intros Hx. by apply (E x).
Qed.

Lemma abs_fields c c' : heap c' = heap c -> tasks c' = tasks c -> done c' = done c -> abs c' = abs c.
Proof. unfold abs. by intros -> -> ->. Qed.

Lemma edit_effect c b task answer : wf_todo c ->
  abs (comp (snd (editTask task answer (mkPage c b)))) = task_effect (EvEdit task answer) c (abs c).
Proof.
  intros Hw. simpl. destruct (heap c !! task) as [t|] eqn:Ht.
  - rewrite (editTask_spec c b task answer t Ht), updateLocalStorage_comp. simpl.
    destruct (position task (tasks c)) as [i|] eqn:E1; [apply (abs_edited c CTasks); by try apply position_lookup|].
    destruct (position task (done c)) as [i|] eqn:E2; [apply (abs_edited c CDone); by try apply position_lookup|].
    apply abs_write_other. apply position_None in E1, E2. rewrite elem_of_app. tauto.
  - rewrite editTask_dangling by done. simpl.
    pose proof (wf_alloc _ Hw) as Ha. rewrite Forall_forall in Ha.
    assert (task ∉ tasks c ++ done c) as Hn by (intros Hin; destruct (Ha _ Hin); congruence).
    rewrite elem_of_app in Hn.
    destruct (position task (tasks c)) eqn:E1;
      [exfalso; apply Hn; left; by eapply list_elem_of_lookup_2, position_lookup|].
    destruct (position task (done c)) eqn:E2;
      [exfalso; apply Hn; right; by eapply list_elem_of_lookup_2, position_lookup|done].
Qed.

Lemma delete_effect c b task list : wf_todo c ->
  abs (comp (snd (deleteTask task list (mkPage c b)))) = task_effect (EvDelete task list) c (abs c).
Proof.
  intros Hw. simpl.
  assert (forall k i, select_list list = select_list (list_name k) -> data k c !! i = Some task ->
            abs (comp (snd (deleteTask task list (mkPage c b)))) = TaskStore.remove k i (abs c)) as Hin.
  { intros k i Hs Hi. rewrite deleteTask_spec.
    assert (js_indexOf task (target_array (select_list list) c) = Z.of_nat i) as Hidx
      by (rewrite Hs; by apply indexOf_list_name).
    rewrite Hidx, (proj2 (Z.gtb_lt _ _)) by lia. rewrite updateLocalStorage_comp. simpl.
    rewrite <-(abs_deleted c k i task Hw Hi). unfold deleted. by rewrite Hs. }
  assert (task ∉ target_array (select_list list) c ->
          abs (comp (snd (deleteTask task list (mkPage c b)))) = abs c) as Hout.
  { intros Hn. rewrite deleteTask_spec.
    destruct (js_indexOf_spec task (target_array (select_list list) c))
      as [[-> _]|(j & _ & Hj & _)]; [done|].
    exfalso. apply Hn. by eapply list_elem_of_lookup_2. }
  destruct (select_list list) eqn:Es.
  - destruct (position task (tasks c)) eqn:E; [apply (Hin CTasks); [done|by apply position_lookup]|].
    apply Hout. by apply position_None.
  - destruct (position task (done c)) eqn:E; [apply (Hin CDone); [done|by apply position_lookup]|].
    apply Hout. by apply position_None.
  - apply Hout. apply not_elem_of_nil.
Qed.

(** C2: The page refines the spec's Task Store: on every shown page,
    every event changes the two lists of records as its [TaskStore]
    operation does, at the position of the task it names, whatever
    the handler returns or throws; events that are not task operations
    leave the lists alone. *)
Theorem page_refines p e : reachable p ->
  abs (comp (snd (handle e p))) = task_effect e (comp p) (abs (comp p)).
Proof.
  intros Hr. destruct (reachable_inv p Hr) as [Hw _ _ _]. destruct p as [c b]. simpl in Hw.
  destruct e; cbn [handle comp].
  - unfold input. simpl. case_match; [by apply abs_fields|done].
  - by apply abs_fields.
  - simpl. destruct (todoForm c) as [item|] eqn:Ef.
    + rewrite (addTask_abs c b item Hw Ef). by apply abs_pushed.
    + by rewrite addTask_form_undefined.
  - by apply edit_effect.
  - by apply delete_effect.
  - simpl. rewrite drop_comp by done. by apply abs_dropped.
  - destruct (updateNotificationInterval_fields c b) as (? & ? & ? & ? & _). by apply abs_fields.
  - by rewrite (keeps_comp_tick id (mkPage c b) I).
  - done.
Qed.

End PageFacts.

(** ** Witnesses *)

(** Build [reachable] for a page reached from [ngOnInit] by events:
    each step's well-formedness and each hypothesis on the initial
    browser are decided on the concrete data. *)
Ltac reach :=
  repeat match goal with
  | |- reachable (snd (handle ?e ?p)) =>
      apply (reach_step p e (fst (handle e p))); [| |apply surjective_pairing];
      [|first [exact I|decide_true]]
  | |- reachable (snd (ngOnInit (mkPage constructor ?b))) =>
      apply (reach_init b (fst (ngOnInit (mkPage constructor b))));
      [reflexivity|first [apply map_Forall_empty|decide_true]|apply surjective_pairing]
  end.

(** The page after loading and one task added. *)
Lemma reachable_one_list_witness :
  let p := snd (handle EvAdd (snd (handle (EvInput (Some (js "Buy milk")))
                  (snd (ngOnInit (mkPage constructor sample_browser)))))) in
  reachable p /\ NoDup (tasks (comp p) ++ done (comp p)) /\ tasks (comp p) = [1%positive].
Proof.
  intros p. assert (reachable p) as Hr by (subst p; reach).
  split; [exact Hr|]. split; [apply (reachable_one_list p Hr)|reflexivity].
Defined.

Lemma reachable_one_timer_witness :
  let p := snd (handle EvUpdateInterval (snd (handle (EvIntervalInput (Some 5%Q))
                  (snd (ngOnInit (mkPage constructor sample_browser)))))) in
  reachable p /\ size (timers (env p)) <= 1.
Proof.
  intros p. assert (reachable p) as Hr by (subst p; reach).
  split; [exact Hr|apply (reachable_one_timer p Hr)].
Defined.

Lemma update_interval_replaces_timer_witness :
  let p := snd (handle (EvIntervalInput (Some 5%Q)) (snd (ngOnInit (mkPage constructor sample_browser)))) in
  reachable p /\ timers (env (snd (handle EvUpdateInterval p))) = {[ 2%positive := 300000%Z ]}.
Proof.
  intros p. assert (reachable p) as Hr by (subst p; reach).
  split; [exact Hr|]. destruct (update_interval_replaces_timer p Hr) as [-> _]. reflexivity.
Defined.

Lemma update_interval_overflow_witness :
  let p := snd (handle (EvIntervalInput (Some 40000%Q)) (snd (ngOnInit (mkPage constructor sample_browser)))) in
  reachable p /\ (35792 <= coerce_interval (newNotificationInterval (comp p)) <= 71582)%Z /\
  timers (env (snd (handle EvUpdateInterval p))) = {[ 2%positive := 0%Z ]}.
Proof.
  intros p. assert (reachable p) as Hr by (subst p; reach).
  assert (coerce_interval (newNotificationInterval (comp p)) = 40000%Z) as E by reflexivity.
  split; [exact Hr|]. split; [lia|]. rewrite (update_interval_overflow p Hr) by lia. reflexivity.
Defined.

(** The spec's example: -3.7 gives 4 minutes, not 3. *)
Lemma coerce_interval_negative_witness :
  (- (37 # 10) < 0)%Q /\ coerce_interval (Some (- (37 # 10))%Q) = 4%Z /\ Qfloor (37 # 10) = 3%Z.
Proof.
  split; [reflexivity|]. split; [|reflexivity].
  rewrite coerce_interval_negative by reflexivity. reflexivity.
Defined.

Lemma transfer_last_pending_witness :
  wf_todo sample_last /\ tasks sample_last = [1%positive] /\
  persist_fits (dropped (mkDrop CTasks CDone 0 1) sample_last) sample_browser /\
  bodies (env (snd (drop (mkDrop CTasks CDone 0 1) (mkPage sample_last sample_browser)))) =
    [js "All tasks completed!"].
Proof.
  assert (wf_todo sample_last) as Hw by decide_true.
  assert (persist_fits (dropped (mkDrop CTasks CDone 0 1) sample_last) sample_browser) as Hf by decide_true.
  split; [exact Hw|]. split; [reflexivity|]. split; [exact Hf|].
  destruct (transfer_last_pending sample_last sample_browser 1%positive Hw eq_refl Hf) as (_ & _ & -> & _).
  reflexivity.
Defined.

Lemma drop_done_repeats_completed_witness :
  wf_todo sample_all_done /\ tasks sample_all_done = [] /\
  persist_fits (dropped (mkDrop CDone CDone 0 1) sample_all_done) sample_browser /\
  bodies (env (snd (drop (mkDrop CDone CDone 0 1) (mkPage sample_all_done sample_browser)))) =
    [js "All tasks completed!"].
Proof.
  assert (wf_todo sample_all_done) as Hw by decide_true.
  assert (persist_fits (dropped (mkDrop CDone CDone 0 1) sample_all_done) sample_browser) as Hf by decide_true.
  split; [exact Hw|]. split; [reflexivity|]. split; [exact Hf|].
  rewrite (drop_done_repeats_completed sample_all_done sample_browser 0 1 Hw eq_refl Hf). reflexivity.
Defined.

(** After loading and adding a task, the tick of timer 1 shows the reminder. *)
Lemma tick_reminder_witness :
  let p := snd (handle EvAdd (snd (handle (EvInput (Some (js "Buy milk")))
                  (snd (ngOnInit (mkPage constructor sample_browser)))))) in
  reachable p /\
  bodies (env (snd (handle (EvTick 1%positive) p))) =
    [js "New Task added: Buy milk"; js "You have pending tasks in the Todo list!"].
Proof.
  intros p. assert (reachable p) as Hr by (subst p; reach).
  split; [exact Hr|]. destruct (tick_reminder p 1%positive Hr) as [_ ->]. reflexivity.
Defined.

Lemma ngOnInit_corrupt_witness :
  let b := set_storage {[ js "tasks" := js "[{]" ]} sample_browser in
  getItem (js "tasks") b = Some (js "[{]") /\ truthy (js "[{]") = true /\ json_parse (js "[{]") = None /\
  ngOnInit (mkPage constructor b) = (Throw SyntaxError, mkPage (set_todoForm (Some (Some [])) constructor) b).
Proof.
  intros b. split; [reflexivity|]. split; [reflexivity|]. split; [reflexivity|].
  apply (ngOnInit_corrupt b (js "[{]")); reflexivity.
Defined.

Lemma ngOnInit_empty_storage_witness :
  storage sample_browser = ∅ /\
  timers (env (snd (ngOnInit (mkPage constructor sample_browser)))) = {[ 1%positive := 60000%Z ]}.
Proof.
  split; [reflexivity|]. destruct (ngOnInit_empty_storage sample_browser eq_refl) as (_ & _ & -> & _).
  reflexivity.
Defined.

(** The form was reset: the new task has a [null] description, and the
    message reads "New Task added: null". *)
Lemma addTask_notifies_witness :
  wf_todo sample_alias /\ todoForm sample_alias = Some None /\
  persist_fits (pushed None sample_alias) sample_browser /\
  bodies (env (snd (addTask (mkPage sample_alias sample_browser)))) = [js "New Task added: null"].
Proof.
  assert (wf_todo sample_alias) as Hw by decide_true.
  assert (persist_fits (pushed None sample_alias) sample_browser) as Hf by decide_true.
  split; [exact Hw|]. split; [reflexivity|]. split; [exact Hf|].
  destruct (addTask_notifies sample_alias sample_browser None Hw eq_refl Hf) as (_ & _ & _ & ->).
  reflexivity.
Defined.

Lemma scheduler_refines_witness :
  let p := snd (handle (EvIntervalInput (Some (- (37 # 10))%Q)) (snd (ngOnInit (mkPage constructor sample_browser)))) in
  reachable p /\ sched_view p = Scheduler.Active 1 /\
  sched_view (snd (handle EvUpdateInterval p)) = Scheduler.Active 4.
Proof.
  intros p. assert (reachable p) as Hr by (subst p; reach).
  split; [exact Hr|]. split; [reflexivity|]. rewrite (scheduler_refines p EvUpdateInterval Hr). reflexivity.
Defined.

Lemma reachable_scheduler_witness :
  let p := snd (ngOnInit (mkPage constructor sample_browser)) in
  reachable p /\ sched_view p = Scheduler.Active 1 /\ exists id, timers (env p) = {[ id := 60000%Z ]}.
Proof.
  intros p. assert (reachable p) as Hr by (subst p; reach).
  split; [exact Hr|]. split; [reflexivity|].
  pose proof (reachable_scheduler p Hr) as H. exact H.
Defined.

(** Two tasks added, the first dragged to [done]: the Task Store sees
    the move. *)
Lemma page_refines_witness :
  let p := snd (handle EvAdd (snd (handle (EvInput (Some (js "Send mail")))
             (snd (handle EvAdd (snd (handle (EvInput (Some (js "Buy milk")))
               (snd (ngOnInit (mkPage constructor sample_browser)))))))))) in
  reachable p /\
  abs (comp (snd (handle (EvDrop (mkDrop CTasks CDone 0 0)) p))) =
    ([ITask.mk (Some (js "Send mail")) false false], [ITask.mk (Some (js "Buy milk")) false false]).
Proof.
  intros p. assert (reachable p) as Hr by (subst p; reach).
  split; [exact Hr|]. rewrite (page_refines p _ Hr). vm_compute. reflexivity.
Defined.

(** Nothing stored at first; after a task is added and dropped into
    [done], both entries hold arrays of task records and a reload
    completes. *)
Lemma reachable_storage_typed_witness :
  let p := snd (ngOnInit (mkPage constructor sample_browser)) in
  let p' := snd (handle (EvDrop (mkDrop CTasks CDone 0 0)) (snd (handle EvAdd
              (snd (handle (EvInput (Some (js "Buy milk"))) p))))) in
  reachable p /\ storage_typed (storage (env p)) /\ rtc page_step p p' /\
  storage_typed (storage (env p')) /\ fst (ngOnInit (mkPage constructor (env p'))) = Ok tt.
Proof.
  intros p p'. assert (reachable p) as Hr by (subst p; reach).
  assert (storage_typed (storage (env p))) as Ht.
  { split; eexists; vm_compute; reflexivity. }
  assert (rtc page_step p p') as Hs.
  { subst p'. eapply rtc_l; [exists (EvInput (Some (js "Buy milk"))); split; [decide_true|reflexivity]|].
    eapply rtc_l; [exists EvAdd; split; [exact I|reflexivity]|].
    eapply rtc_once. exists (EvDrop (mkDrop CTasks CDone 0 0)). split; [exact I|reflexivity]. }
  split_and!; [exact Hr|exact Ht|exact Hs|..]; apply (reachable_storage_typed p p' Hr Ht Hs).
Defined.

(** A task added, dropped into [done], then edited: a reload shows
    [done] holding the edited record and [tasks] empty. *)
Lemma saved_lists_reload_witness :
  let p := snd (ngOnInit (mkPage constructor sample_browser)) in
  let p1 := snd (handle (EvInput (Some (js "Buy milk"))) p) in
  let p2 := snd (handle EvAdd p1) in
  let p3 := snd (handle (EvDrop (mkDrop CTasks CDone 0 0)) p2) in
  let p4 := snd (handle (EvEdit 1%positive (Some (js "Buy oat milk"))) p3) in
  ngOnInit (mkPage constructor sample_browser) = (Ok tt, p) /\ rtc ok_step p p4 /\
  exists c' b', ngOnInit (mkPage constructor (env p4)) = (Ok tt, mkPage c' b') /\
    abs c' = ([], [ITask.mk (Some (js "Buy oat milk")) false false]).
Proof.
  intros p p1 p2 p3 p4.
  assert (ngOnInit (mkPage constructor sample_browser) = (Ok tt, p)) as E by (vm_compute; reflexivity).
  assert (rtc ok_step p p4) as Hs.
  { apply (rtc_l _ _ p1); [exists (EvInput (Some (js "Buy milk"))); split; [decide_true|vm_compute; reflexivity]|].
    apply (rtc_l _ _ p2); [exists EvAdd; split; [exact I|vm_compute; reflexivity]|].
    apply (rtc_l _ _ p3); [exists (EvDrop (mkDrop CTasks CDone 0 0)); split; [exact I|vm_compute; reflexivity]|].
    apply rtc_once. exists (EvEdit 1%positive (Some (js "Buy oat milk"))).
    split; [decide_true|vm_compute; reflexivity]. }
  split_and!; [exact E|exact Hs|].
  destruct (saved_lists_reload sample_browser p p4 eq_refl (map_Forall_empty _) E Hs) as (c' & b' & E' & A).
  exists c', b'. split; [exact E'|]. rewrite A. vm_compute. reflexivity.
Defined.

(** Two tasks added: dropping them reaches a page with both in [done],
    in the order they were added. *)
Lemma reachable_all_done_witness :
  let p := snd (handle EvAdd (snd (handle (EvInput (Some (js "Send mail")))
             (snd (handle EvAdd (snd (handle (EvInput (Some (js "Buy milk")))
               (snd (ngOnInit (mkPage constructor sample_browser)))))))))) in
  reachable p /\ exists p', rtc page_step p p' /\ tasks (comp p') = [] /\ done (comp p') = [1%positive; 2%positive].
Proof.
  intros p. assert (reachable p) as Hr by (subst p; reach). split; [exact Hr|].
  destruct (reachable_all_done p Hr) as (p' & Hs & _ & Ht & Hd & _).
  exists p'. split_and!; [exact Hs|exact Ht|]. rewrite Hd. vm_compute. reflexivity.
Defined.

(** One pending task, the timer of ngOnInit live, permission granted:
    three ticks show the reminder three times. *)
Lemma reminder_recurs_witness :
  let p := snd (handle EvAdd (snd (handle (EvInput (Some (js "Buy milk")))
                  (snd (ngOnInit (mkPage constructor sample_browser)))))) in
  reachable p /\ sched_view p = Scheduler.Active 1 /\
  has_pending (heap (comp p)) (tasks (comp p)) = true /\ np_enabled (env p) = true /\
  exists p', rtc page_step p p' /\
    bodies (env p') = bodies (env p) ++ repeat (js "You have pending tasks in the Todo list!") 3.
Proof.
  intros p. assert (reachable p) as Hr by (subst p; reach).
  assert (sched_view p = Scheduler.Active 1) as Hs by (vm_compute; reflexivity).
  assert (has_pending (heap (comp p)) (tasks (comp p)) = true) as Hp by (vm_compute; reflexivity).
  assert (np_enabled (env p) = true) as He by (vm_compute; reflexivity).
  split_and!; [exact Hr|exact Hs|exact Hp|exact He|].
  exact (reminder_recurs p 1 3 Hr Hs Hp He).
Defined.

(** A task restored with [done: true] keeps it when its description is
    edited: the flag is the one it had. *)
Lemma flags_never_set_witness :
  let b := set_storage {[ js "tasks" := stringify (JArray [task_json (ITask.mk (Some (js "a")) true false)]) ]}
             sample_browser in
  let p := snd (ngOnInit (mkPage constructor b)) in
  let e := EvEdit 1%positive (Some (js "b")) in
  let t' := ITask.mk (Some (js "b")) true false in
  reachable p /\ heap (comp (snd (handle e p))) !! 1%positive = Some t' /\
  exists t, heap (comp p) !! 1%positive = Some t /\ ITask.done t = ITask.done t' /\
    ITask.editing t = ITask.editing t'.
Proof.
  intros b p e t'. assert (reachable p) as Hr by (subst p b; reach).
  assert (heap (comp (snd (handle e p))) !! 1%positive = Some t') as Hx by (vm_compute; reflexivity).
  split_and!; [exact Hr|exact Hx|]. apply (flags_never_set p e 1%positive t' Hr Hx). by left.
Defined.

(** The period set to 5 minutes: the timer runs every 300000 ms. *)
Lemma reachable_period_bounds_witness :
  let p := snd (handle EvUpdateInterval (snd (handle (EvIntervalInput (Some 5%Q))
                  (snd (ngOnInit (mkPage constructor sample_browser)))))) in
  reachable p /\ timers (env p) !! 2%positive = Some 300000%Z /\
  (notificationInterval (comp p) <= 35791)%Z /\ 300000%Z = (notificationInterval (comp p) * 60000)%Z.
Proof.
  intros p. assert (reachable p) as Hr by (subst p; reach).
  assert (timers (env p) !! 2%positive = Some 300000%Z) as Hd by (vm_compute; reflexivity).
  assert (notificationInterval (comp p) <= 35791)%Z as Hn by (vm_compute; discriminate).
  split_and!; [exact Hr|exact Hd|exact Hn|].
  exact (proj1 (proj2 (reachable_period_bounds p Hr) 2%positive 300000%Z Hd Hn)).
Defined.

(** The form after [ngOnInit] holds the empty string, which
    [Validators.required] rejects; Add appends a task with it. *)
Lemma invalid_form_adds_witness :
  let p := snd (ngOnInit (mkPage constructor sample_browser)) in
  reachable p /\ todoForm (comp p) = Some (Some []) /\ form_valid (comp p) = false /\
  tasks (comp p) = [] /\
  exists x, tasks (comp (snd (handle EvAdd p))) = tasks (comp p) ++ [x] /\
            heap (comp (snd (handle EvAdd p))) !! x = Some (ITask.mk (Some []) false false).
Proof.
  intros p. assert (reachable p) as Hr by (subst p; reach).
  assert (todoForm (comp p) = Some (Some [])) as Hf by reflexivity.
  assert (form_valid (comp p) = false) as Hv by reflexivity.
  split_and!; [exact Hr|exact Hf|exact Hv|reflexivity|].
  exact (proj2 (invalid_form_adds p _ Hr Hf Hv)).
Defined.
