(* ===== verification/PageIndependence.v ===== *)
(** * What the component cannot see

    The handlers read the browser only through localStorage and the
    timer table: never the permission, the pending requests, the
    notifications shown or the console.  [page_equiv] identifies pages
    that agree on everything else; [respects] says a computation maps
    equivalent pages to equivalent pages and returns the same.  Every
    handler respects it ([handle_respects], proved step by step with
    [respects_steps] as [keeps_steps] does in [TodoPage]), so the
    answer to the permission request, which arrives whenever the user
    gives it, commutes with every event ([permission_commutes]). *)

From Stdlib Require Import ZArith QArith Qround Lia.
From stdpp Require Import base list gmap strings.
From S2P Require Import Prelude ArrayOps Json Browser NotificationService TodoComponent Samples TodoFacts TodoSpec TodoPage.

(** Two pages the component cannot tell apart: the same component, and
    browsers that agree on storage and timers.  They may differ in the
    permission, the pending requests, the notifications shown and the
    console, which the component never reads. *)
Definition page_equiv (p q : page) : Prop := comp p = comp q /\ same_store (env p) (env q).

(** [m] returns the same and leads to equivalent pages from equivalent
    pages. *)
Definition respects {A} (m : M A) : Prop :=
  forall p q, page_equiv p q -> fst (m p) = fst (m q) /\ page_equiv (snd (m p)) (snd (m q)).

(** ** The notification state does not reach the task lists

    Every handler reads the browser only through storage and timers, so
    it maps equivalent pages to equivalent pages: the permission and
    what was shown never change what happens to the tasks, the storage
    or the timers. *)

#[export] Instance page_equiv_equiv : Equivalence page_equiv.
Proof.
  split; unfold page_equiv.
  - intros p. done.
  - intros p q [? ?]. split; [done|by symmetry].
  - intros p q r [? ?] [? ?]. split; [congruence|by etrans].
Qed.

Section Respects.
Context `{NP : NotificationPort}.

Lemma respects_bind {A B} (m : M A) (k : A -> M B) :
  respects m -> (forall a, respects (k a)) -> respects (st_bind m k).
Proof.
  intros Hm Hk p q Hpq. unfold st_bind. destruct (Hm p q Hpq) as [Hr He].
  destruct (m p) as [[a|e] p'], (m q) as [[a'|e'] q']; simpl in *; simplify_eq; [by apply Hk|done].
Qed.

Lemma respects_ret {A} (a : A) : respects (st_ret a).
Proof. done. Qed.

Lemma respects_throw {A} e : respects (st_throw (A := A) e).
Proof. done. Qed.

Lemma respects_get : respects get_comp.
Proof. intros p q [Hc He]. simpl. by rewrite Hc. Qed.

Lemma respects_update g : respects (update_comp g).
Proof. intros p q [Hc He]. simpl. by rewrite Hc. Qed.

Lemma respects_alloc t : respects (alloc t).
Proof. intros p q [Hc He]. simpl. by rewrite Hc. Qed.

Lemma respects_deref x : respects (deref x).
Proof. intros p q [Hc He]. unfold deref. rewrite Hc. by case_match. Qed.

Lemma respects_write x t : respects (write x t).
Proof. apply respects_update. Qed.

Lemma respects_lift {A} (m : st browser js_error A) :
  (forall b b', same_store b b' -> fst (m b) = fst (m b') /\ same_store (snd (m b)) (snd (m b'))) ->
  respects (lift m).
Proof.
  intros Hm p q [Hc He]. unfold lift. destruct (Hm _ _ He) as [Hr Hs].
  destruct (m (env p)), (m (env q)). simpl in *. by rewrite Hc.
Qed.

Lemma respects_lift_fn g : (forall b b', same_store b b' -> same_store (g b) (g b')) -> respects (lift_fn g).
Proof. intros Hg p q [Hc He]. simpl. rewrite Hc. split; [done|split; [done|by apply Hg]]. Qed.

Lemma same_store_setItem k v b b' : same_store b b' ->
  fst (setItem k v b) = fst (setItem k v b') /\ same_store (snd (setItem k v b)) (snd (setItem k v b')).
Proof. intros (Hs & Hq & Ht & Hn). unfold setItem. rewrite Hs, Hq. by case_decide. Qed.

Lemma same_store_setInterval t b b' : same_store b b' ->
  fst (setInterval t b) = fst (setInterval t b') /\ same_store (snd (setInterval t b)) (snd (setInterval t b')).
Proof. intros (Hs & Hq & Ht & Hn). unfold setInterval. simpl. rewrite Hn, Ht. done. Qed.

Lemma same_store_clearInterval id b b' : same_store b b' ->
  fst (clearInterval id b) = fst (clearInterval id b') /\
  same_store (snd (clearInterval id b)) (snd (clearInterval id b')).
Proof. intros (Hs & Hq & Ht & Hn). unfold clearInterval. simpl. rewrite Hn, Ht. done. Qed.

Lemma same_store_show m b b' : same_store b b' -> same_store (np_show m b) (np_show m b').
Proof. intros H. etrans; [apply np_show_store|]. etrans; [exact H|]. symmetry. apply np_show_store. Qed.

Lemma same_store_request b b' : same_store b b' -> same_store (np_request b) (np_request b').
Proof. intros H. etrans; [apply np_request_store|]. etrans; [exact H|]. symmetry. apply np_request_store. Qed.

Lemma same_store_answer a b b' : same_store b b' ->
  same_store (answer_permission a b) (answer_permission a b').
Proof.
  intros H. etrans; [apply answer_permission_same_store|]. etrans; [exact H|].
  symmetry. apply answer_permission_same_store.
Qed.

End Respects.

Create HintDb respects.
#[export] Hint Resolve respects_ret respects_throw respects_get respects_update respects_alloc
  respects_deref respects_write : respects.
#[export] Hint Resolve same_store_setItem same_store_setInterval same_store_clearInterval
  same_store_show same_store_request same_store_answer : respects.

(** Split a computation into its steps, each of which respects
    [page_equiv]. *)
Ltac respects_steps :=
  repeat first
    [ progress intros
    | apply respects_bind
    | apply respects_lift; intros; solve [eauto with respects]
    | apply respects_lift_fn; intros; solve [eauto with respects]
    | progress case_match
    | solve [eauto with respects] ].

Section RespectsFacts.
Context `{NP : NotificationPort}.

Lemma respects_some_pending l : respects (some_pending l).
Proof. induction l; simpl; respects_steps. Qed.
#[local] Hint Resolve respects_some_pending : respects.

Lemma respects_updateLocalStorage : respects updateLocalStorage.
Proof. unfold updateLocalStorage. respects_steps. Qed.
#[local] Hint Resolve respects_updateLocalStorage : respects.

Lemma respects_checkAndNotify : respects checkAndNotify.
Proof. unfold checkAndNotify. respects_steps. Qed.
#[local] Hint Resolve respects_checkAndNotify : respects.

Lemma respects_restart : respects restartNotificationInterval.
Proof. unfold restartNotificationInterval. respects_steps. Qed.
#[local] Hint Resolve respects_restart : respects.

Lemma respects_tick id : respects (tick id).
Proof.
  intros p q Hpq. unfold tick. pose proof Hpq as [_ (_ & _ & Ht & _)]. rewrite Ht.
  case_decide; [by apply respects_checkAndNotify|done].
Qed.

(** Every handler reads the browser only through storage and timers. *)
Lemma handle_respects e : respects (handle e).
Proof.
  destruct e; cbn [handle];
    unfold input, addTask, editTask, deleteTask, drop, updateNotificationInterval; respects_steps.
  apply respects_tick.
Qed.

(** C35: The permission promise may settle before or after any event:
    the two orders give the same component, the same storage and the
    same timers, and the event returns or throws the same. *)
Theorem permission_commutes a e p :
  let p1 := snd (handle e (snd (handle (EvPermission a) p))) in
  let p2 := snd (handle (EvPermission a) (snd (handle e p))) in
  comp p1 = comp p2 /\ same_store (env p1) (env p2) /\
  fst (handle e (snd (handle (EvPermission a) p))) = fst (handle e p).
Proof.
  intros p1 p2.
  assert (forall q, page_equiv (snd (handle (EvPermission a) q)) q) as Ha
    by (intros q; split; [done|apply answer_permission_same_store]).
  destruct (handle_respects e _ _ (Ha p)) as [Hr H1].
  assert (page_equiv p1 p2) as [Hc Hs] by (etrans; [exact H1|symmetry; apply Ha]).
  done.
Qed.

End RespectsFacts.
