(* ===== verification/PageService.v ===== *)
(** * The page with the repository's NotificationService

    [TodoPage] proves the component against any [NotificationPort].
    Here the port is [NotificationService_port], the service of
    src/src/app/notification.service.ts, and the theorems are about the
    two together: a denied permission silences every notification
    ([denied_is_silent], by [keeps_when] on [notify_view]), and once the
    user grants the request of [ngOnInit] the next tick of the timer
    displays the reminder ([grant_then_remind]). *)

From Stdlib Require Import ZArith QArith Qround Lia.
From stdpp Require Import base list gmap strings.
From S2P Require Import Prelude ArrayOps Json Browser NotificationService TodoComponent Samples TodoFacts TodoSpec TodoPage.

(** What the notifications shown and the permission are. *)
Definition notify_view (p : page) : list notification * permission :=
  (shown (env p), permission_state (env p)).

Definition denied (x : list notification * permission) : Prop := x.2 = PermDenied.

(** ** A denied permission *)

Lemma denied_update g : keeps_when notify_view denied (update_comp g).
Proof. by intros [c b]. Qed.

Lemma denied_alloc t : keeps_when notify_view denied (alloc t).
Proof. by intros [c b]. Qed.

Lemma denied_setItem k v : keeps_when notify_view denied (lift (setItem k v)).
Proof. intros [c b] _. unfold notify_view. rewrite lift_setItem. by case_decide. Qed.

Lemma denied_setInterval t : keeps_when notify_view denied (lift (setInterval t)).
Proof. by intros [c b]. Qed.

Lemma denied_clearInterval id : keeps_when notify_view denied (lift (clearInterval id)).
Proof. by intros [c b]. Qed.

Lemma denied_show m : keeps_when notify_view denied (lift_fn (np_show m)).
Proof.
  intros [c b] Hd. unfold notify_view, denied in *. simpl in *.
  unfold NotificationService.showNotification. rewrite bool_decide_false by congruence. by rewrite andb_false_r.
Qed.

Lemma denied_request : keeps_when notify_view denied (lift_fn np_request).
Proof.
  intros [c b] Hd. unfold notify_view, denied in *. simpl in *.
  unfold NotificationService.requestPermission. by case_match.
Qed.

(** The browser only lets a "default" permission change. *)
Lemma denied_answer a : keeps_when notify_view denied (lift_fn (answer_permission a)).
Proof.
  intros [c b] Hd. unfold notify_view, denied, answer_permission in *. simpl in *.
  case_decide; [done|]. unfold settle_permission, NotificationService.requestPermission_then.
  rewrite Hd. simpl. by try case_decide.
Qed.

#[export] Hint Resolve denied_update denied_alloc denied_setItem denied_setInterval
  denied_clearInterval denied_show denied_request denied_answer : keeps.

Lemma denied_some_pending l : keeps_when notify_view denied (some_pending l).
Proof. induction l; simpl; keeps_steps. Qed.
#[export] Hint Resolve denied_some_pending : keeps.

Lemma denied_updateLocalStorage : keeps_when notify_view denied updateLocalStorage.
Proof. unfold updateLocalStorage. keeps_steps. Qed.
#[export] Hint Resolve denied_updateLocalStorage : keeps.

Lemma denied_checkAndNotify : keeps_when notify_view denied checkAndNotify.
Proof. unfold checkAndNotify. keeps_steps. Qed.

Lemma denied_restart : keeps_when notify_view denied restartNotificationInterval.
Proof. unfold restartNotificationInterval. keeps_steps. Qed.
#[export] Hint Resolve denied_restart : keeps.

(** The user grants a pending request: the permission becomes
    "granted" and the service's callback logs its line. *)
Lemma answer_grant b : permission_state b = PermDefault -> pending_requests b <> 0 ->
  answer_permission PermGranted b =
  console_log (js "Notification permission granted!")
    (set_notify PermGranted (pred (pending_requests b)) (shown b) (console b) b).
Proof.
  intros Hd Hn. unfold answer_permission. rewrite decide_False by done.
  unfold settle_permission. rewrite Hd. done.
Qed.

(** C27: With the service of the repository, a denied permission
    silently disables display: no event shows a notification, and the
    permission stays denied.  (The task operations are unaffected:
    [page_refines] holds for any notification port.) *)
Theorem denied_is_silent p e : permission_state (env p) = PermDenied ->
  shown (env (snd (handle e p))) = shown (env p) /\ permission_state (env (snd (handle e p))) = PermDenied.
Proof.
  intros Hd. cut (keeps_when notify_view denied (handle e)).
  { intros Hk. pose proof (Hk p Hd) as H. unfold notify_view in H. injection H as -> ->. done. }
  destruct e; simpl;
    unfold input, addTask, editTask, deleteTask, drop, write, updateNotificationInterval; keeps_steps.
  intros q Hq. unfold tick. case_decide; [by apply denied_checkAndNotify|done].
Qed.

(** C34: The service and the scheduler together: on a page with a live
    timer, a pending task and the Notification API, when the user
    grants the permission that [ngOnInit] requested, the service logs
    "Notification permission granted!" and the next tick of the timer
    displays the reminder as a notification titled "Todo List". *)
Theorem grant_then_remind p n : reachable p -> sched_view p = Scheduler.Active n ->
  has_pending (heap (comp p)) (tasks (comp p)) = true -> notification_api (env p) = true ->
  permission_state (env p) = PermDefault -> pending_requests (env p) <> 0 ->
  exists p', rtc page_step p p' /\ permission_state (env p') = PermGranted /\
    console (env p') = console (env p) ++ [js "Notification permission granted!"] /\
    shown (env p') = shown (env p) ++
      [mkNotification (js "Todo List") (js "You have pending tasks in the Todo list!")].
Proof.
  intros Hr Hs Hp Ha Hd Hn. destruct p as [c b]. simpl in *.
  pose proof (inv_wf _ (reachable_inv _ Hr)) as Hw.
  unfold sched_view in Hs. simpl in Hs.
  destruct (notificationIntervalId c) as [id|] eqn:Ei; [|done]. case_decide as Hl; [|done].
  set (b1 := answer_permission PermGranted b).
  assert (is_Some (timers b1 !! id)) as Hl1 by (unfold b1; by rewrite answer_permission_timers).
  set (b2 := np_show (js "You have pending tasks in the Todo list!") b1).
  assert (handle (EvTick id) (mkPage c b1) = (Ok tt, mkPage c b2)) as Ht.
  { cbn [handle]. rewrite tick_spec by done. by rewrite bool_decide_true, Hp. }
  exists (mkPage c b2). split.
  { apply (rtc_l _ _ (mkPage c b1)); [by exists (EvPermission PermGranted)|].
    eapply rtc_l; [|apply rtc_refl]. exists (EvTick id). split; [done|]. by rewrite Ht. }
  unfold b2, b1. cbn [env np_show NotificationService_port]. rewrite answer_grant by done.
  unfold NotificationService.showNotification. simpl. by rewrite Ha.
Qed.

(** ** Witnesses *)

Lemma denied_is_silent_witness :
  let b := mkBrowser ∅ 1000 ∅ 1 true PermDenied 0 [] [] in
  let p := snd (handle (EvInput (Some (js "Buy milk"))) (snd (ngOnInit (mkPage constructor b)))) in
  permission_state (env p) = PermDenied /\ shown (env (snd (handle EvAdd p))) = [] /\
  abs (comp (snd (handle EvAdd p))) = ([milk], []).
Proof.
  intros b p. assert (permission_state (env p) = PermDenied) as Hd by reflexivity.
  split; [exact Hd|]. split; [|vm_compute; reflexivity].
  destruct (denied_is_silent p EvAdd Hd) as [-> _]. reflexivity.
Defined.

(** A browser that has not answered yet: one task added, then the user
    grants the request of [ngOnInit]. *)
Lemma grant_then_remind_witness :
  let b := mkBrowser ∅ 1000 ∅ 1 true PermDefault 0 [] [] in
  let p := snd (handle EvAdd (snd (handle (EvInput (Some (js "Buy milk")))
                  (snd (ngOnInit (mkPage constructor b)))))) in
  reachable p /\ sched_view p = Scheduler.Active 1 /\
  has_pending (heap (comp p)) (tasks (comp p)) = true /\ notification_api (env p) = true /\
  permission_state (env p) = PermDefault /\ pending_requests (env p) <> 0%nat /\
  exists p', rtc page_step p p' /\ permission_state (env p') = PermGranted /\
    console (env p') = console (env p) ++ [js "Notification permission granted!"] /\
    shown (env p') = shown (env p) ++
      [mkNotification (js "Todo List") (js "You have pending tasks in the Todo list!")].
Proof.
  intros b p. assert (reachable p) as Hr by (subst p b; reach).
  assert (sched_view p = Scheduler.Active 1) as Hs by (vm_compute; reflexivity).
  assert (has_pending (heap (comp p)) (tasks (comp p)) = true) as Hp by (vm_compute; reflexivity).
  assert (notification_api (env p) = true) as Ha by reflexivity.
  assert (permission_state (env p) = PermDefault) as Hd by reflexivity.
  assert (pending_requests (env p) <> 0%nat) as Hn by (vm_compute; discriminate).
  split_and!; [exact Hr|exact Hs|exact Hp|exact Ha|exact Hd|exact Hn|].
  exact (grant_then_remind p 1 Hr Hs Hp Ha Hd Hn).
Defined.
