(* ===== verification/Lifecycle.v ===== *)
(** * The component's lifecycle: instances created and destroyed

    Angular creates a [TodoComponent] when its view is shown (the
    constructor, then [ngOnInit]) and destroys it when the view goes; a
    later visit creates a new instance.  The class has no
    [ngOnDestroy] (src/src/app/todo/todo.component.ts, line 12:
    [implements OnInit] only), so destruction runs none of its code: the
    interval that [ngOnInit] and [restartNotificationInterval] started
    with [setInterval(() => this.checkAndNotify(), ...)] stays live, and
    its callback keeps running [checkAndNotify] on the destroyed
    instance, whose arrays no longer change.

    [app] is the browser with every instance created so far, oldest
    first, the one the view shows ([current]), and for each interval the
    instance whose [this] its callback closes over ([owner]): the
    timers a method of instance [i] starts belong to [i]
    ([claim_timers]).  [run_on i m] runs the page computation [m] of
    [TodoPage] on instance [i].  [app_handle] is one lifecycle or page
    event; [app_reachable] is every state reached from no instance in a
    browser with no timer.

    The theorems: each instance has at most one
    live interval, so at most as many intervals run as instances were
    created ([live_timers_bound]); the interval of a destroyed instance
    is never cleared ([zombie_timer_persists]); and its ticks show the
    reminder from the destroyed instance's stale arrays
    ([zombie_tick_reminds]), also when the shown instance has no
    pending task. *)

From Stdlib Require Import ZArith QArith Qround Lia.
From stdpp Require Import base list gmap sets strings relations.
From S2P Require Import Prelude ArrayOps Json Browser NotificationService TodoComponent Samples TodoFacts TodoSpec TodoPage.

(** ** The application *)

Record app : Type := mkApp {
  instances : list todo;          (** every instance created, oldest first *)
  current : option nat;           (** the instance the view shows, if any *)
  owner : gmap positive nat;      (** the instance each interval's callback runs on *)
  benv : browser;
}.

(** Showing the view (a new instance and its [ngOnInit]), leaving it,
    an event of the shown instance's template, a tick of an interval,
    and the user's answer to a permission request. *)
Inductive app_event : Type :=
  | AppCreate
  | AppDestroy
  | AppUI (e : event)
  | AppTick (id : positive)
  | AppPermission (a : permission).

(** The events of a template; ticks and permission answers are not. *)
Definition ui_event (e : event) : bool :=
  match e with EvTick _ | EvPermission _ => false | _ => true end.

Definition app_event_wf (ev : app_event) : Prop :=
  match ev with AppUI e => event_wf e /\ ui_event e = true | _ => True end.

(** The intervals started between [b] and [b'] belong to instance [i]. *)
Definition claim_timers (i : nat) (b b' : browser) (o : gmap positive nat) : gmap positive nat :=
  gset_to_gmap i (dom (timers b') ∖ dom (timers b)) ∪ o.

Section App.
Context `{NP : NotificationPort}.

(** The page computation [m] on instance [i]: [this] is instance [i]. *)
Definition run_on {A} (i : nat) (m : M A) (a : app) : app :=
  match instances a !! i with
  | Some c =>
      let p' := snd (m (mkPage c (benv a))) in
      mkApp (<[i := comp p']> (instances a)) (current a) (claim_timers i (benv a) (env p') (owner a)) (env p')
  | None => a
  end.

Definition app_handle (ev : app_event) (a : app) : app :=
  match ev with
  | AppCreate =>
      match current a with
      | Some _ => a
      | None =>
          let i := length (instances a) in
          run_on i ngOnInit (mkApp (instances a ++ [constructor]) (Some i) (owner a) (benv a))
      end
  | AppDestroy => mkApp (instances a) None (owner a) (benv a)
  | AppUI e => match current a with Some i => run_on i (handle e) a | None => a end
  | AppTick id => match owner a !! id with Some i => run_on i (tick id) a | None => a end
  | AppPermission x => mkApp (instances a) (current a) (owner a) (answer_permission x (benv a))
  end.

Definition app_run (evs : list app_event) (a : app) : app :=
  fold_left (fun a ev => app_handle ev a) evs a.

Inductive app_reachable : app -> Prop :=
  | app_init b : timers b = ∅ -> storage_wf b -> app_reachable (mkApp [] None ∅ b)
  | app_next a ev : app_reachable a -> app_event_wf ev -> app_reachable (app_handle ev a).

End App.

(** Each instance is well formed, storage holds code units, an
    instance's timer id is an interval it owns, every live interval is
    the one its owner holds the id of, and ids are fresh. *)
Record app_inv (a : app) : Prop := {
  ai_wf : forall i c, instances a !! i = Some c -> wf_todo c /\ form_wf c;
  ai_storage : storage_wf (benv a);
  ai_owned : forall i c id, instances a !! i = Some c -> notificationIntervalId c = Some id ->
               owner a !! id = Some i;
  ai_live : forall id, is_Some (timers (benv a) !! id) ->
              exists i c, owner a !! id = Some i /\ instances a !! i = Some c /\
                          notificationIntervalId c = Some id;
  ai_fresh : forall id, is_Some (timers (benv a) !! id) \/ is_Some (owner a !! id) ->
               (id < next_timer (benv a))%positive;
  ai_current : forall i, current a = Some i -> (i < length (instances a))%nat;
}.

(** ** The owners of intervals *)

Lemma lookup_claim i b b' o id :
  claim_timers i b b' o !! id =
  if decide (is_Some (timers b' !! id) /\ timers b !! id = None) then Some i else o !! id.
Proof.
  unfold claim_timers. rewrite lookup_union, lookup_gset_to_gmap.
  case_decide as H.
  - rewrite option_guard_True; [by destruct (o !! id)|].
    rewrite elem_of_difference, !elem_of_dom. destruct H as [? ->]. split; [done|by intros []].
  - rewrite option_guard_False; [by destruct (o !! id)|].
    rewrite elem_of_difference, !elem_of_dom. intros [? Hn]. apply H. split; [done|].
    by apply eq_None_not_Some.
Qed.

Lemma claim_same i b b' o : timers b' = timers b -> claim_timers i b b' o = o.
Proof.
  intros Ht. apply map_eq. intros id. rewrite lookup_claim, Ht.
  case_decide as H; [|done]. destruct H as [[? E] E']. congruence.
Qed.

Section AppFacts.
Context `{NP : NotificationPort}.

(** ** The invariant of the application *)

Lemma app_inv_init b : timers b = ∅ -> storage_wf b -> app_inv (mkApp [] None ∅ b).
Proof.
  intros Ht Hs. constructor; simpl; try done; rewrite ?Ht.
  - intros id [? H]. by rewrite lookup_empty in H.
  - intros id [[? H]|[? H]]; by rewrite lookup_empty in H.
Qed.

(** A new instance, before its [ngOnInit]. *)
Lemma app_inv_push a : app_inv a -> current a = None ->
  app_inv (mkApp (instances a ++ [constructor]) (Some (length (instances a))) (owner a) (benv a)).
Proof.
  intros [Hw Hs Ho Hl Hf Hc] Hn. constructor; simpl; try done.
  - intros i c Hi. apply lookup_app_Some in Hi as [Hi|[_ Hi]]; [by apply (Hw i)|].
    apply list_lookup_singleton_Some in Hi as [_ <-]. split; [|done].
    constructor; simpl; try constructor; apply map_Forall_empty.
  - intros i c id Hi. apply lookup_app_Some in Hi as [Hi|[_ Hi]]; [by apply (Ho i)|].
    by apply list_lookup_singleton_Some in Hi as [_ <-].
  - intros id Hid. destruct (Hl id Hid) as (i & c & ? & Hi & ?). exists i, c. split_and!; [done| |done].
    by apply lookup_app_l_Some.
  - intros i [= <-]. rewrite length_app. simpl. lia.
Qed.

(** A run on instance [i] that starts no interval and clears none, and
    leaves the instance's id as it was. *)
Lemma app_inv_run_keep {A} a i c (m : M A) :
  app_inv a -> instances a !! i = Some c ->
  let p' := snd (m (mkPage c (benv a))) in
  wf_todo (comp p') -> form_wf (comp p') -> storage_wf (env p') ->
  timers (env p') = timers (benv a) -> next_timer (env p') = next_timer (benv a) ->
  notificationIntervalId (comp p') = notificationIntervalId c ->
  app_inv (run_on i m a).
Proof.
  intros [Hw Hs Ho Hl Hf Hc] Hi p' Hw' Hf' Hs' Ht Hn Hid. unfold run_on. rewrite Hi. fold p'.
  rewrite claim_same by done.
  constructor; simpl; rewrite ?Ht, ?Hn; try done.
  - intros j c' Hj. apply list_lookup_insert_Some in Hj as [(<- & <- & _)|[_ Hj]]; [done|by apply (Hw j)].
  - intros j c' id Hj. apply list_lookup_insert_Some in Hj as [(<- & <- & _)|[_ Hj]]; [|by apply (Ho j)].
    rewrite Hid. by apply (Ho i).
  - intros id Hid'. destruct (Hl id Hid') as (j & cj & Hoj & Hj & Hjid). exists j.
    destruct (decide (i = j)) as [<-|Hne].
    + exists (comp p'). rewrite list_lookup_insert_eq by (by eapply lookup_lt_Some). simplify_eq. by rewrite Hid.
    + exists cj. by rewrite list_lookup_insert_ne.
  - intros j Hj. rewrite length_insert. by apply Hc.
Qed.

(** A run on instance [i] that starts one interval at [next_timer],
    which the instance now holds the id of, and clears at most the
    instance's old one. *)
Lemma app_inv_run_new {A} a i c (m : M A) :
  app_inv a -> instances a !! i = Some c ->
  let p' := snd (m (mkPage c (benv a))) in
  let n := next_timer (benv a) in
  wf_todo (comp p') -> form_wf (comp p') -> storage_wf (env p') ->
  notificationIntervalId (comp p') = Some n -> next_timer (env p') = Pos.succ n ->
  is_Some (timers (env p') !! n) ->
  (forall id, is_Some (timers (env p') !! id) ->
     id = n \/ (is_Some (timers (benv a) !! id) /\ notificationIntervalId c <> Some id)) ->
  app_inv (run_on i m a).
Proof.
  intros [Hw Hs Ho Hl Hf Hc] Hi p' n Hw' Hf' Hs' Hid Hn Hlive Ht. unfold run_on. rewrite Hi. fold p'.
  assert (timers (benv a) !! n = None) as Hfree.
  { apply eq_None_not_Some. intros Hsome. specialize (Hf n (or_introl Hsome)). fold n in Hf. lia. }
  assert (forall id, claim_timers i (benv a) (env p') (owner a) !! id =
                     if decide (id = n) then Some i else owner a !! id) as Hown.
  { intros id. rewrite lookup_claim. case_decide as H1; case_decide as H2; subst; try done.
    - destruct H1 as [H1 H1']. destruct (Ht id H1) as [->|[[? E] _]]; [done|congruence].
    - exfalso. apply H1. by split. }
  constructor; simpl.
  - intros j c' Hj. apply list_lookup_insert_Some in Hj as [(<- & <- & _)|[_ Hj]]; [done|by apply (Hw j)].
  - done.
  - intros j c' id Hj Hjid. rewrite Hown.
    apply list_lookup_insert_Some in Hj as [(<- & <- & _)|[Hne Hj]].
    + rewrite Hid in Hjid. injection Hjid as <-. by rewrite decide_True.
    + pose proof (Ho j c' id Hj Hjid) as Hoid. rewrite decide_False; [done|].
      intros ->. specialize (Hf n (or_intror (mk_is_Some _ _ Hoid))). fold n in Hf. lia.
  - intros id Hid'. rewrite Hown. destruct (Ht id Hid') as [->|[Hold Hne]].
    + exists i, (comp p'). rewrite decide_True by done.
      rewrite list_lookup_insert_eq by (by eapply lookup_lt_Some). done.
    + destruct (Hl id Hold) as (j & cj & Hoj & Hj & Hjid).
      assert (id <> n) as Hidn by (intros ->; by rewrite Hfree in Hold).
      rewrite decide_False by done. exists j, cj. split; [done|].
      destruct (decide (i = j)) as [<-|Hij]; [simplify_eq|by rewrite list_lookup_insert_ne].
  - intros id [Hid'|Hid']; rewrite Hn.
    + destruct (Ht id Hid') as [->|[Hold _]]; [lia|]. specialize (Hf id (or_introl Hold)). lia.
    + rewrite Hown in Hid'. case_decide; [subst; lia|]. specialize (Hf id (or_intror Hid')). lia.
  - intros j Hj. rewrite length_insert. by apply Hc.
Qed.

(** What [updateNotificationInterval] does to the intervals: the
    instance's old one is cleared and one new one starts. *)
Lemma update_new_timer c b :
  let p' := snd (updateNotificationInterval (mkPage c b)) in
  notificationIntervalId (comp p') = Some (next_timer b) /\ next_timer (env p') = Pos.succ (next_timer b) /\
  is_Some (timers (env p') !! next_timer b) /\
  (forall id, is_Some (timers (env p') !! id) ->
     id = next_timer b \/ (is_Some (timers b !! id) /\ notificationIntervalId c <> Some id)).
Proof.
  rewrite updateNotificationInterval_spec. unfold cleared. simpl.
  destruct (notificationIntervalId c) as [x|] eqn:Ex; simpl; rewrite ?Ex;
    (split_and!; [done|done|rewrite lookup_insert_is_Some'; by left|]);
    intros id Hid; apply lookup_insert_is_Some' in Hid as [<-|Hid]; auto.
  - apply lookup_delete_is_Some in Hid as [Hne Hid]. right. split; [done|congruence].
Qed.

(** Any page event on an instance keeps the invariant. *)
Lemma app_inv_run_handle a i e : app_inv a -> event_wf e -> app_inv (run_on i (handle e) a).
Proof.
  intros Ha He. destruct (instances a !! i) as [c|] eqn:Hi; [|unfold run_on; by rewrite Hi].
  destruct (ai_wf a Ha i c Hi) as [Hw Hf].
  destruct (handle_comp_inv e c (benv a) He Hw Hf) as [Hw' Hf'].
  pose proof (handle_storage_wf e c (benv a) He Hw Hf (ai_storage a Ha)) as Hs'.
  destruct (decide (e = EvUpdateInterval)) as [->|Hne].
  - destruct (update_new_timer c (benv a)) as (Hid & Hn & Hlive & Ht).
    by apply (app_inv_run_new a i c).
  - pose proof (keeps_timers_handle e Hne (mkPage c (benv a))) as Hk.
    unfold timer_view in Hk. simpl in Hk. injection Hk as Ht Hn Hid _.
    by apply (app_inv_run_keep a i c).
Qed.

Lemma app_inv_create a : app_inv a -> app_inv (app_handle AppCreate a).
Proof.
  intros Ha. simpl. destruct (current a) as [j|] eqn:Hcur; [done|].
  pose proof (app_inv_push a Ha Hcur) as Ha1.
  set (a1 := mkApp _ _ _ _) in Ha1. fold a1.
  assert (instances a1 !! length (instances a) = Some constructor) as Hi.
  { simpl. rewrite lookup_app_r, Nat.sub_diag by lia. done. }
  destruct (ngOnInit_shape (benv a) (ai_storage a Ha))
    as (Hw & Hf & _ & Hs & [(Hid & Ht & Hn)|(Hid & Ht & Hn)]).
  - by apply (app_inv_run_keep a1 _ constructor).
  - apply (app_inv_run_new a1 _ constructor); try done.
    + simpl. rewrite Ht. apply lookup_insert_is_Some'. by left.
    + intros id Hid'. simpl in *. rewrite Ht in Hid'.
      apply lookup_insert_is_Some' in Hid' as [<-|Hid']; [by left|by right].
Qed.

(** The invariant holds of every state of the application. *)
Theorem app_reachable_inv a : app_reachable a -> app_inv a.
Proof.
  induction 1 as [b Ht Hs|a ev Hr IH Hev]; [by apply app_inv_init|].
  destruct ev; simpl in Hev.
  - by apply app_inv_create.
  - destruct IH. by constructor.
  - simpl. destruct (current a); [|done]. apply app_inv_run_handle; [done|apply Hev].
  - simpl. destruct (owner a !! id); [|done]. change (tick id) with (handle (EvTick id)).
    by apply app_inv_run_handle.
  - destruct IH as [Hw Hs Ho Hl Hf Hc].
    destruct (answer_permission_same_store a0 (benv a)) as (Hs' & _ & Ht & Hn).
    constructor; simpl; rewrite ?Ht, ?Hn; try done. unfold storage_wf. by rewrite Hs'.
Qed.

(** An interval that was live before a run is still owned by the same
    instance after it: a run only claims the intervals it starts. *)
Lemma claim_old i b b' o id : is_Some (timers b !! id) -> claim_timers i b b' o !! id = o !! id.
Proof. intros [? E]. rewrite lookup_claim. case_decide as H; [|done]. destruct H as [_ E']. congruence. Qed.

(** [updateNotificationInterval] clears only the instance's own interval. *)
Lemma update_keeps_other c b id :
  is_Some (timers b !! id) -> notificationIntervalId c <> Some id ->
  is_Some (timers (env (snd (updateNotificationInterval (mkPage c b)))) !! id).
Proof.
  intros Hid Hne. rewrite updateNotificationInterval_spec. unfold cleared. simpl.
  apply lookup_insert_is_Some'. right.
  destruct (notificationIntervalId c) as [x|] eqn:Ex; simpl; [|done].
  apply lookup_delete_is_Some. split; [congruence|done].
Qed.

(** A page event on instance [j] leaves the interval [id] of another
    instance live and owned; a tick or any other event than Update
    leaves every interval. *)
Lemma run_on_keeps_timer a i j e id :
  app_inv a -> owner a !! id = Some i -> is_Some (timers (benv a) !! id) ->
  j <> i \/ e <> EvUpdateInterval ->
  let a' := run_on j (handle e) a in
  is_Some (timers (benv a') !! id) /\ owner a' !! id = Some i /\ current a' = current a.
Proof.
  intros Ha Ho Hid Hji a'. unfold a', run_on.
  destruct (instances a !! j) as [c|] eqn:Hj; [|done]. simpl. rewrite claim_old by done.
  split_and!; [|done|done].
  destruct (decide (e = EvUpdateInterval)) as [->|Hne].
  - apply update_keeps_other; [done|]. intros Hc.
    pose proof (ai_owned a Ha j c id Hj Hc) as Hoj. destruct Hji as [Hji|Hji]; [congruence|done].
  - pose proof (keeps_timers_handle e Hne (mkPage c (benv a))) as Hk.
    unfold timer_view in Hk. simpl in Hk. injection Hk as Ht _ _ _. by rewrite Ht.
Qed.

(** The owner of a live interval is an instance that exists. *)
Lemma owner_live_lt a i id : app_inv a -> owner a !! id = Some i -> is_Some (timers (benv a) !! id) ->
  (i < length (instances a))%nat.
Proof.
  intros Ha Ho Hid. destruct (ai_live a Ha id Hid) as (j & c & Hoj & Hj & _).
  rewrite Ho in Hoj. injection Hoj as <-. by eapply lookup_lt_Some.
Qed.

(** One event: a destroyed instance's interval stays live and owned,
    and the instance is never shown again. *)
Lemma zombie_step a ev i id : app_inv a -> app_event_wf ev ->
  current a <> Some i -> owner a !! id = Some i -> is_Some (timers (benv a) !! id) ->
  let a' := app_handle ev a in
  current a' <> Some i /\ owner a' !! id = Some i /\ is_Some (timers (benv a') !! id).
Proof.
  intros Ha Hev Hc Ho Hid a'. unfold a'. pose proof (owner_live_lt a i id Ha Ho Hid) as Hlt.
  destruct ev; simpl.
  - destruct (current a) as [j|] eqn:Hcur; [rewrite Hcur; by repeat split|].
    set (a1 := mkApp _ _ _ _). unfold run_on.
    assert (instances a1 !! length (instances a) = Some constructor) as Hi.
    { simpl. rewrite lookup_app_r, Nat.sub_diag by lia. done. }
    rewrite Hi. simpl. rewrite claim_old by done.
    split_and!; [intros [= ?]; lia|done|].
    destruct (ngOnInit_shape (benv a) (ai_storage a Ha)) as (_ & _ & _ & _ & [(_ & Ht & _)|(_ & Ht & _)]);
      rewrite Ht; [done|]. apply lookup_insert_is_Some'. by right.
  - by repeat split.
  - destruct (current a) as [j|] eqn:Hcur; [|rewrite Hcur; by repeat split].
    destruct (run_on_keeps_timer a i j e id Ha Ho Hid) as (? & ? & ->); [left; congruence|].
    by rewrite Hcur.
  - destruct (owner a !! id0) as [j|]; [|by repeat split]. change (tick id0) with (handle (EvTick id0)).
    destruct (run_on_keeps_timer a i j (EvTick id0) id Ha Ho Hid) as (? & ? & ->); [by right|done].
  - by rewrite answer_permission_timers; repeat split.
Qed.

(** ** The properties of the lifecycle *)

(** C37: Each instance has at most one live interval, so at most as
    many intervals run as instances were created.  The theorem is the
    upper bound; its witness shows the bound attained, one interval per
    visit, since nothing clears an interval when a view is left. *)
Theorem live_timers_bound a : app_reachable a -> size (timers (benv a)) <= length (instances a).
Proof.
  intros Hr. pose proof (app_reachable_inv a Hr) as Ha. rewrite <-size_dom.
  etrans; [apply (subseteq_size _ (list_to_set (omap notificationIntervalId (instances a))))|].
  - intros id Hid. apply elem_of_dom in Hid. destruct (ai_live a Ha id Hid) as (i & c & _ & Hi & Hc).
    apply elem_of_list_to_set, list_elem_of_omap. exists c. split; [by eapply list_elem_of_lookup_2|done].
  - etrans; [apply size_list_to_set_le|apply length_omap_le].
Qed.

(** C38: The interval of an instance that is not shown is never cleared:
    after any sequence of events it is still live, still runs on that
    instance, and the instance is never shown again. *)
Theorem zombie_timer_persists a i id evs : app_reachable a ->
  current a <> Some i -> owner a !! id = Some i -> is_Some (timers (benv a) !! id) ->
  Forall app_event_wf evs ->
  is_Some (timers (benv (app_run evs a)) !! id) /\ owner (app_run evs a) !! id = Some i /\
  current (app_run evs a) <> Some i.
Proof.
  intros Hr Hc Ho Hid Hevs. revert a Hr Hc Ho Hid.
  induction Hevs as [|ev evs Hev _ IH]; intros a Hr Hc Ho Hid; [done|].
  destruct (zombie_step a ev i id (app_reachable_inv a Hr) Hev Hc Ho Hid) as (Hc' & Ho' & Hid').
  apply IH; [by apply app_next|done..].
Qed.

(** C39: A tick runs [checkAndNotify] on the instance that started the
    interval, with that instance's arrays: the reminder is shown when
    they hold a pending task, whatever the instance on view holds. *)
Theorem tick_uses_owner_arrays a i c id : app_reachable a ->
  owner a !! id = Some i -> instances a !! i = Some c -> is_Some (timers (benv a) !! id) ->
  let a' := app_handle (AppTick id) a in
  instances a' = instances a /\
  bodies (benv a') = bodies (benv a) ++
    (if has_pending (heap c) (tasks c) && np_enabled (benv a)
     then [js "You have pending tasks in the Todo list!"] else []).
Proof.
  intros Hr Ho Hi Hid a'. unfold a'. simpl. rewrite Ho. unfold run_on. rewrite Hi.
  destruct (ai_wf a (app_reachable_inv a Hr) i c Hi) as [Hw _].
  destruct (tick_bodies id c (benv a) Hw) as [Hc Hb]. simpl. rewrite Hc, list_insert_id by done.
  split; [done|]. rewrite Hb, bool_decide_true by done. done.
Qed.

End AppFacts.

(** ** Witnesses *)

(** Build [app_reachable] for a state reached by events from no
    instance, deciding each event's well-formedness on the data. *)
Ltac app_reach :=
  repeat match goal with
  | |- app_reachable (app_handle ?ev ?a) =>
      apply (app_next a ev); [|first [exact I|split; [first [exact I|decide_true]|reflexivity]]]
  | |- app_reachable (mkApp [] None ∅ ?b) => apply app_init; [reflexivity|apply map_Forall_empty]
  end.

(** The view shown, a task added, the view left and shown again, and the
    restored task dragged to [done] by the second instance: two
    intervals run, one per instance. *)
Lemma live_timers_bound_witness :
  let a := app_handle (AppUI (EvDrop (mkDrop CTasks CDone 0 0))) (app_handle AppCreate
             (app_handle AppDestroy (app_handle (AppUI EvAdd) (app_handle (AppUI (EvInput (Some (js "Buy milk"))))
               (app_handle AppCreate (mkApp [] None ∅ sample_browser)))))) in
  app_reachable a /\ size (timers (benv a)) <= length (instances a) /\ size (timers (benv a)) = 2%nat.
Proof.
  intros a. assert (app_reachable a) as Hr by (subst a; app_reach).
  split_and!; [exact Hr|exact (live_timers_bound a Hr)|vm_compute; reflexivity].
Defined.

(** The first instance's interval (id 1) survives an Update, leaving the
    view, a third visit and a tick of its own. *)
Lemma zombie_timer_persists_witness :
  let a := app_handle (AppUI (EvDrop (mkDrop CTasks CDone 0 0))) (app_handle AppCreate
             (app_handle AppDestroy (app_handle (AppUI EvAdd) (app_handle (AppUI (EvInput (Some (js "Buy milk"))))
               (app_handle AppCreate (mkApp [] None ∅ sample_browser)))))) in
  let evs := [AppUI EvUpdateInterval; AppDestroy; AppCreate; AppTick 1%positive] in
  app_reachable a /\ current a <> Some 0%nat /\ owner a !! 1%positive = Some 0%nat /\
  is_Some (timers (benv a) !! 1%positive) /\ Forall app_event_wf evs /\
  is_Some (timers (benv (app_run evs a)) !! 1%positive).
Proof.
  intros a evs. assert (app_reachable a) as Hr by (subst a; app_reach).
  assert (current a <> Some 0%nat) as Hc by (intros H; vm_compute in H; discriminate).
  assert (owner a !! 1%positive = Some 0%nat) as Ho by (vm_compute; reflexivity).
  assert (is_Some (timers (benv a) !! 1%positive)) as Hl by (vm_compute; eexists; reflexivity).
  assert (Forall app_event_wf evs) as He by (repeat constructor).
  split_and!; [exact Hr|exact Hc|exact Ho|exact Hl|exact He|].
  exact (proj1 (zombie_timer_persists a 0 1%positive evs Hr Hc Ho Hl He)).
Defined.

(** The shown instance has no pending task, yet the first instance's
    interval shows the reminder from its stale array. *)
Lemma tick_uses_owner_arrays_witness :
  let a := app_handle (AppUI (EvDrop (mkDrop CTasks CDone 0 0))) (app_handle AppCreate
             (app_handle AppDestroy (app_handle (AppUI EvAdd) (app_handle (AppUI (EvInput (Some (js "Buy milk"))))
               (app_handle AppCreate (mkApp [] None ∅ sample_browser)))))) in
  let c0 := nth 0 (instances a) constructor in
  app_reachable a /\ owner a !! 1%positive = Some 0%nat /\ instances a !! 0%nat = Some c0 /\
  is_Some (timers (benv a) !! 1%positive) /\
  tasks (nth 1 (instances a) constructor) = [] /\ current a = Some 1%nat /\
  bodies (benv (app_handle (AppTick 1%positive) a)) =
    bodies (benv a) ++ [js "You have pending tasks in the Todo list!"].
Proof.
  intros a c0. assert (app_reachable a) as Hr by (subst a; app_reach).
  assert (owner a !! 1%positive = Some 0%nat) as Ho by (vm_compute; reflexivity).
  assert (instances a !! 0%nat = Some c0) as Hi by (vm_compute; reflexivity).
  assert (is_Some (timers (benv a) !! 1%positive)) as Hl by (vm_compute; eexists; reflexivity).
  split_and!; [exact Hr|exact Ho|exact Hi|exact Hl|vm_compute; reflexivity|vm_compute; reflexivity|].
  destruct (tick_uses_owner_arrays a 0 c0 1%positive Hr Ho Hi Hl) as [_ ->].
  vm_compute. reflexivity.
Defined.
